(** * Post-processing kernels of the RK3588 perception pipeline

    A shallow embedding of [base/post_process/post_processes.py]: the
    YOLOv5 decode / filter / non-maximum-suppression kernels, the UNet
    mask decoder, the ResNet retrieval step and the three entry points
    [post_yolov5], [post_unet] and [post_resnet]; and of the process
    layout that [base/rk3588.py] builds around them.

    Numbers.  numpy's floating-point values are idealised as exact
    rationals ([Q]); the only IEEE behaviour kept is the one the code
    can observe through a comparison, namely division by zero
    ([np_div]).  The softmax of the ResNet variant needs the
    exponential and is modelled over the reals ([R]).  Rounding,
    overflow to an infinity and not-a-number values are outside the
    model: the properties below are those that do not lean on an exact
    float equality, nor on the absence of an overflow.

    Arrays.  An [ndarray] is a shape together with its elements in
    C order, as numpy stores it; every numpy operation the source uses
    is written on that representation.

    Exceptions.  A Python exception is [None]; a function that cannot
    raise is total.  A call into an external library ([cv2]) may raise
    whatever the arguments, and returns an [option]. *)

From Stdlib Require Import QArith Qminmax Qreals Psatz ZArith String.
From Stdlib Require Import Rbase R_Ifp Rtrigo_def Exp_prop.
From Equations Require Import Equations.
From stdpp Require Import base option list sorting gmap.

Local Open Scope Q_scope.

(** ** numpy arrays *)

Record ndarray (A : Type) := NdArray { shape : list nat; data : list A }.
Arguments NdArray {A} _ _.
Arguments shape {A} _.
Arguments data {A} _.

(** Number of elements a shape holds. *)
Definition size_of (s : list nat) : nat := foldr Nat.mul 1%nat s.

(** The invariant of every numpy array. *)
Definition ndarray_wf {A} (a : ndarray A) : Prop :=
  length (data a) = size_of (shape a).

(** [a[i, j, c, k]] of a four-dimensional array. *)
Definition at4 (a : ndarray Q) (i j c k : nat) : Q :=
  match shape a with
  | [_; d1; d2; d3] => nth (((i * d1 + j) * d2 + c) * d3 + k) (data a) 0
  | _ => 0
  end.

(** [a[i, j, k]] of a three-dimensional array. *)
Definition at3 (a : ndarray Q) (i j k : nat) : Q :=
  match shape a with
  | [_; d1; d2] => nth ((i * d1 + j) * d2 + k) (data a) 0
  | _ => 0
  end.

(** [chunk k n d]: the first [n] consecutive runs of [k] elements of [d]. *)
Definition chunk {A} (k n : nat) (d : list A) : list (list A) :=
  (λ r, take k (drop (r * k) d)) <$> seq 0 n.

(** The one-dimensional slices of [a] along its last axis, in C order. *)
Definition nd_rows {A} (a : ndarray A) : list (list A) :=
  chunk (default 1%nat (last (shape a))) (size_of (removelast (shape a))) (data a).

Definition np_map {A B} (f : A → B) (a : ndarray A) : ndarray B :=
  NdArray (shape a) (f <$> data a).

(** [a[..., k]]: [IndexError] when [k] is not below the last dimension. *)
Definition np_index_last (k : nat) (a : ndarray Q) : option (ndarray Q) :=
  d ← last (shape a);
  guard (k < d)%nat;;
  Some (NdArray (removelast (shape a)) ((λ row, nth k row 0) <$> nd_rows a)).

(** [a[..., lo:hi]] ([hi = None] for an open slice); slices clamp. *)
Definition np_slice_last {A} (lo : nat) (hi : option nat) (a : ndarray A)
  : option (ndarray A) :=
  d ← last (shape a);
  let hi' := Nat.min (default d hi) d in
  let lo' := Nat.min lo hi' in
  Some (NdArray (removelast (shape a) ++ [(hi' - lo')%nat])
                (nd_rows a ≫= λ row, take (hi' - lo') (drop lo' row))).

(** [np.expand_dims(a, axis=-1)] *)
Definition np_expand_dims_last {A} (a : ndarray A) : ndarray A :=
  NdArray (shape a ++ [1%nat]) (data a).

(** [np.arange(0, n)] *)
Definition np_arange (n : nat) : ndarray Z :=
  NdArray [n] (Z.of_nat <$> seq 0 n).

(** [np.tile(a, reps)] for a scalar [reps]: every slice along the last
    axis is laid out [reps] times. *)
Definition np_tile {A} (a : ndarray A) (reps : nat) : option (ndarray A) :=
  d ← last (shape a);
  Some (NdArray (removelast (shape a) ++ [(d * reps)%nat])
                (nd_rows a ≫= λ row, mjoin (replicate reps row))).

(** [a.reshape(newshape)], where [None] stands for [-1]. *)
Definition np_reshape {A} (a : ndarray A) (newshape : list (option nat))
  : option (ndarray A) :=
  let n := length (data a) in
  let known := size_of (omap id newshape) in
  match length (filter (λ o, o = None) newshape) with
  | 0%nat => guard (known = n);;
             Some (NdArray (default 0%nat <$> newshape) (data a))
  | 1%nat => guard (0 < known ∧ n mod known = 0)%nat;;
             Some (NdArray (default (n / known)%nat <$> newshape) (data a))
  | _ => None
  end.

(** [a.repeat(reps, axis=-2)] *)
Definition np_repeat_axis_m2 {A} (reps : nat) (a : ndarray A)
  : option (ndarray A) :=
  d ← last (shape a);
  m ← last (removelast (shape a));
  Some (NdArray (removelast (removelast (shape a)) ++ [(m * reps)%nat; d])
                (nd_rows a ≫= λ row, mjoin (replicate reps row))).

(** [np.concatenate((a, b), axis=-1)] *)
Definition np_concatenate_last {A} (a b : ndarray A) : option (ndarray A) :=
  da ← last (shape a);
  db ← last (shape b);
  guard (removelast (shape a) = removelast (shape b));;
  Some (NdArray (removelast (shape a) ++ [(da + db)%nat])
                (mjoin (zip_with app (nd_rows a) (nd_rows b)))).

(** [a += g] for an integer array [g] of the shape of [a].  (The only
    call site adds a grid whose every axis has the length of the
    matching axis of [a] or fails, so numpy's broadcasting never has
    an axis to stretch.) *)
Definition np_iadd (a : ndarray Q) (g : ndarray Z) : option (ndarray Q) :=
  guard (shape a = shape g);;
  Some (NdArray (shape a) (zip_with (λ v z, v + inject_Z z) (data a) (data g))).

(** [np.array(l)] for a list of equally long lists. *)
Definition np_array2 (l : list (list Q)) : option (ndarray Q) :=
  let m := length (default [] (head l)) in
  guard (Forall (λ r, length r = m) l);;
  Some (NdArray [length l; m] (mjoin l)).

(** [a * b] where the shape of [b] is the trailing part of the shape
    of [a]: [b] is repeated along the leading axes.  (numpy would also
    stretch an axis of length one; the call site multiplies an array
    whose last two axes are [(3, 2)] by the three selected anchor
    pairs, and a mask of another length or an anchor that is no pair
    is answered by [None] here.) *)
Definition np_mul_trailing (a b : ndarray Q) : option (ndarray Q) :=
  guard (drop (length (shape a) - length (shape b)) (shape a) = shape b);;
  Some (NdArray (shape a)
          (zip_with Qmult (data a)
             (mjoin (replicate (length (data a) / length (data b)) (data b))))).

(** Python's [int(a / b)] on integers: true division, then truncation
    towards zero; [ZeroDivisionError] when [b = 0]. *)
Definition py_int_div (a : Z) (b : nat) : option Z :=
  guard (b ≠ 0%nat);; Some (Z.quot a (Z.of_nat b)).

(** ** Configuration ([config.json], read once at import time) *)

Record config := Config {
  net_size : Z;
  obj_thresh : Q;
  nms_thresh : Q;
  cam_width : Z;
  cam_height : Z;
  classes : list string
}.

(** ** IEEE division as the code observes it

    [inter / (...)] in [nms_boxes] can divide by zero; numpy then
    yields an infinity or a NaN, and every comparison with a NaN is
    false. *)

Inductive npfloat := Finite (q : Q) | PosInf | NegInf | NaN.

Definition np_div (a b : Q) : npfloat :=
  if Qeq_bool b 0 then
    match a ?= 0 with Gt => PosInf | Lt => NegInf | Eq => NaN end
  else Finite (a / b).

(** [v <= t] *)
Definition np_le (v : npfloat) (t : Q) : bool :=
  match v with
  | Finite q => Qle_bool q t
  | NegInf => true
  | PosInf | NaN => false
  end.

(** [v > t] *)
Definition np_gt (v : npfloat) (t : Q) : bool :=
  match v with
  | Finite q => negb (Qle_bool q t)
  | PosInf => true
  | NegInf | NaN => false
  end.

(** ** Index arrays *)

(** [np.where(m)[0]] of a one-dimensional boolean array. *)
Definition np_where (m : list bool) : list nat :=
  filter (λ i, m !! i = Some true) (seq 0 (length m)).

(** [a[idx]] for an integer index array [idx] along the first axis:
    [IndexError] when an index is out of range. *)
Definition np_take {A} (a : list A) (idx : list nat) : option (list A) :=
  mapM (λ i, a !! i) idx.

(** [np.max(row)]: [ValueError] on an empty row. *)
Definition np_max (row : list Q) : option Q :=
  match row with
  | [] => None
  | v :: r => Some (foldl Qmax v r)
  end.

(** [np.argmax(row)]: the first index of the maximum. *)
Fixpoint argmax_from (best : Q) (besti cur : nat) (l : list Q) : nat :=
  match l with
  | [] => besti
  | v :: r =>
      if Qle_bool v best then argmax_from best besti (S cur) r
      else argmax_from v cur (S cur) r
  end.

Definition np_argmax (row : list Q) : option nat :=
  match row with
  | [] => None
  | v :: r => Some (argmax_from v 0 1 r)
  end.

(** What numpy documents of [argmax], stated on its own: [idx] is the
    first index at which [row] has its largest value. *)
Definition first_largest (row : list Q) (idx : nat) : Prop :=
  (idx < length row)%nat
  ∧ (∀ k, (k < length row)%nat → nth k row 0 <= nth idx row 0)
  ∧ (∀ k, (k < idx)%nat → nth k row 0 < nth idx row 0).

(** [np.concatenate(l)] along the first axis: [ValueError] on an
    empty list of arrays. *)
Definition np_concatenate {A} (l : list (list A)) : option (list A) :=
  guard (l ≠ []);; Some (mjoin l).

(** A Python value that may be [None]. *)
Inductive py_optional (A : Type) := PyNone | PySome (a : A).
Arguments PyNone {A}.
Arguments PySome {A} _.

(** ** YOLOv5 *)

(** [sigmoid]: the logistic body is commented out in the source, the
    function returns its argument. *)
Definition sigmoid (x : Q) : Q := x.

(** A raw tensor of one scale as [post_yolov5] hands it over: a square
    grid of [g] by [g] cells, three anchors per cell, [k] values per
    anchor (four box parameters, the objectness, the class scores). *)
Definition scale_tensor (g k : nat) (input : ndarray Q) : Prop :=
  shape input = [g; g; 3%nat; k] ∧ (0 < g)%nat ∧ (5 ≤ k)%nat ∧ ndarray_wf input.

(** Lines 88-92 of [process]: the array of cell offsets [(col, row)],
    of shape [(grid_h, grid_w, 3, 2)]. *)
Definition process_grid (grid_h grid_w : nat) : option (ndarray Z) :=
  col ← np_tile (np_arange grid_w) grid_w ≫= λ t, np_reshape t [None; Some grid_w];
  row ← np_reshape (np_arange grid_h) [None; Some 1%nat] ≫= λ t, np_tile t grid_h;
  col ← np_reshape col [Some grid_h; Some grid_w; Some 1%nat; Some 1%nat]
        ≫= np_repeat_axis_m2 3;
  row ← np_reshape row [Some grid_h; Some grid_w; Some 1%nat; Some 1%nat]
        ≫= np_repeat_axis_m2 3;
  np_concatenate_last col row.

Section Yolov5_decode.
Variable cfg : config.

Definition process (input : ndarray Q) (mask : list nat)
    (anchors : list (list Q))
  : option (ndarray Q * ndarray Q * ndarray Q) :=
  anchors ← mapM (λ i, anchors !! i) mask;
  grid_h ← shape input !! 0%nat;
  grid_w ← shape input !! 1%nat;
  box_confidence ← np_map sigmoid <$> np_index_last 4 input;
  let box_confidence := np_expand_dims_last box_confidence in
  box_class_probs ← np_map sigmoid <$> np_slice_last 5 None input;
  box_xy ← np_map (λ v, sigmoid v * 2 - 0.5) <$> np_slice_last 0 (Some 2%nat) input;
  grid ← process_grid grid_h grid_w;
  box_xy ← np_iadd box_xy grid;
  stride ← py_int_div (net_size cfg) grid_h;
  let box_xy := np_map (λ v, v * inject_Z stride) box_xy in
  box_wh ← np_map (λ v, (sigmoid v * 2) ^ 2) <$> np_slice_last 2 (Some 4%nat) input;
  anchors ← np_array2 anchors;
  box_wh ← np_mul_trailing box_wh anchors;
  box ← np_concatenate_last box_xy box_wh;
  Some (box, box_confidence, box_class_probs).
End Yolov5_decode.


(** A row of a two-dimensional array with four columns: [x, y, w, h]
    before [xywh2xyxy], [x1, y1, x2, y2] after it. *)
Record row4 := Row4 { c0 : Q; c1 : Q; c2 : Q; c3 : Q }.

Definition row4_of_list (r : list Q) : row4 :=
  Row4 (nth 0 r 0) (nth 1 r 0) (nth 2 r 0) (nth 3 r 0).

(** [xywh2xyxy] on a float array: centre and size to corners. *)
Definition xywh2xyxy (x : list row4) : list row4 :=
  (λ r, Row4 (c0 r - c2 r / 2) (c1 r - c3 r / 2)
             (c0 r + c2 r / 2) (c1 r + c3 r / 2)) <$> x.

(** What [scores.argsort()] promises: a permutation of the indices
    along which the scores ascend. *)
Definition is_argsort (argsort : list Q → list nat) : Prop :=
  ∀ s, argsort s ≡ₚ seq 0 (length s)
       ∧ StronglySorted (λ a b, nth a s 0 <= nth b s 0) (argsort s).

(** The overlap ratio of [nms_boxes] written on two rows
    [x1, y1, x2, y2]: intersection over union, where the width and the
    height of the intersection are each padded by [0.00001]. *)
Definition box_ovr (bi bj : row4) : npfloat :=
  let wi := c2 bi - c0 bi in
  let hi := c3 bi - c1 bi in
  let wj := c2 bj - c0 bj in
  let hj := c3 bj - c1 bj in
  let xx1 := Qmax (c0 bi) (c0 bj) in
  let yy1 := Qmax (c1 bi) (c1 bj) in
  let xx2 := Qmin (c0 bi + wi) (c0 bj + wj) in
  let yy2 := Qmin (c1 bi + hi) (c1 bj + hj) in
  let w1 := Qmax 0 (xx2 - xx1 + 0.00001) in
  let h1 := Qmax 0 (yy2 - yy1 + 0.00001) in
  let inter := w1 * h1 in
  np_div inter (wi * hi + wj * hj - inter).

Lemma np_where_length (m : list bool) : (length (np_where m) ≤ length m)%nat.
Proof.
  unfold np_where. etrans; [apply length_filter|]. by rewrite length_seq.
Qed.

Section Yolov5_suppress.
Variable cfg : config.

(** [scores.argsort()]: numpy promises the indices that sort
    [scores] in ascending order and nothing about ties. *)
Variable argsort : list Q → list nat.

Definition filter_boxes (boxes box_confidences box_class_probs : ndarray Q)
  : option (list row4 * list nat * list Q) :=
  boxes ← (λ a, row4_of_list <$> nd_rows a) <$> np_reshape boxes [None; Some 4%nat];
  box_confidences ← data <$> np_reshape box_confidences [None];
  k ← last (shape box_class_probs);
  box_class_probs ← nd_rows <$> np_reshape box_class_probs [None; Some k];
  let _box_pos := np_where (Qle_bool (obj_thresh cfg) <$> box_confidences) in
  boxes ← np_take boxes _box_pos;
  box_confidences ← np_take box_confidences _box_pos;
  box_class_probs ← np_take box_class_probs _box_pos;
  class_max_score ← mapM np_max box_class_probs;
  classes ← mapM np_argmax box_class_probs;
  let _class_pos := np_where (Qle_bool (obj_thresh cfg) <$> class_max_score) in
  boxes ← np_take boxes _class_pos;
  classes ← np_take classes _class_pos;
  scores ← np_take (zip_with Qmult class_max_score box_confidences) _class_pos;
  Some (boxes, classes, scores).

(** The overlap ratio [ovr] that [nms_boxes] computes between box [i]
    and box [j], element of [order[1:]]. *)
Definition ovr_at (x y w h areas : list Q) (i j : nat) : npfloat :=
  let xx1 := Qmax (nth i x 0) (nth j x 0) in
  let yy1 := Qmax (nth i y 0) (nth j y 0) in
  let xx2 := Qmin (nth i x 0 + nth i w 0) (nth j x 0 + nth j w 0) in
  let yy2 := Qmin (nth i y 0 + nth i h 0) (nth j y 0 + nth j h 0) in
  let w1 := Qmax 0 (xx2 - xx1 + 0.00001) in
  let h1 := Qmax 0 (yy2 - yy1 + 0.00001) in
  let inter := w1 * h1 in
  np_div inter (nth i areas 0 + nth j areas 0 - inter).

(** The [while order.size > 0] loop; [keep] is returned in the order
    it is appended to. *)
Equations? nms_loop (x y w h areas : list Q) (order : list nat) : list nat
  by wf (length order) lt :=
  nms_loop x y w h areas [] := [];
  nms_loop x y w h areas (i :: rest) :=
    i :: nms_loop x y w h areas
           ((λ k, nth (k + 1) (i :: rest) 0%nat) <$>
              np_where ((λ j, np_le (ovr_at x y w h areas i j) (nms_thresh cfg))
                          <$> rest)).
Proof.
  rewrite length_fmap. eapply Nat.le_lt_trans; [apply np_where_length|].
  rewrite length_fmap. simpl. lia.
Qed.

Definition nms_boxes (boxes : list row4) (scores : list Q)
  : option (list nat) :=
  let x := c0 <$> boxes in
  let y := c1 <$> boxes in
  let w := zip_with Qminus (c2 <$> boxes) (c0 <$> boxes) in
  let h := zip_with Qminus (c3 <$> boxes) (c1 <$> boxes) in
  let areas := zip_with Qmult w h in
  let order := reverse (argsort scores) in
  (* x[i] and x[order[1:]] of the first iteration read every index *)
  guard (Forall (λ i, i < length boxes)%nat order);;
  Some (nms_loop x y w h areas order).

(** The loop of [nms_boxes] on the arrays [x], [y], [w], [h], [areas]
    it computes from [boxes]. *)
Definition nms_keep (boxes : list row4) (order : list nat) : list nat :=
  let x := c0 <$> boxes in
  let y := c1 <$> boxes in
  let w := zip_with Qminus (c2 <$> boxes) (c0 <$> boxes) in
  let h := zip_with Qminus (c3 <$> boxes) (c1 <$> boxes) in
  let areas := zip_with Qmult w h in
  nms_loop x y w h areas order.

(** [j] stays in [order] once [i] has been kept: [ovr <= nms_thresh]. *)
Definition stays (boxes : list row4) (i j : nat) : Prop :=
  let x := c0 <$> boxes in
  let y := c1 <$> boxes in
  let w := zip_with Qminus (c2 <$> boxes) (c0 <$> boxes) in
  let h := zip_with Qminus (c3 <$> boxes) (c1 <$> boxes) in
  let areas := zip_with Qmult w h in
  np_le (ovr_at x y w h areas i j) (nms_thresh cfg) = true.

Definition masks : list (list nat) := [[0; 1; 2]; [3; 4; 5]; [6; 7; 8]]%nat.
Definition anchors : list (list Q) :=
  [[10; 13]; [16; 30]; [33; 23]; [30; 61]; [62; 45];
   [59; 119]; [116; 90]; [156; 198]; [373; 326]].

(** The body of the first loop of [yolov5_post_process], for one scale. *)
Definition decode_filter_scale (input : ndarray Q) (mask : list nat)
  : option (list row4 * list nat * list Q) :=
  '(b, c, s) ← process cfg input mask anchors;
  filter_boxes b c s.

(** Lines 175-186: decode and filter every scale, concatenate. *)
Definition decode_filter (input_data : list (ndarray Q))
  : option (list row4 * list nat * list Q) :=
  per_scale ← mapM (λ '(input, mask), decode_filter_scale input mask)
                   (zip input_data masks);
  boxes ← np_concatenate (per_scale.*1.*1);
  let boxes := xywh2xyxy boxes in
  classes ← np_concatenate (per_scale.*1.*2);
  scores ← np_concatenate (per_scale.*2);
  Some (boxes, classes, scores).

(** The body of the loop over [set(classes)], for the class [c]. *)
Definition suppress_class (boxes : list row4) (classes : list nat)
    (scores : list Q) (c : nat)
  : option (list row4 * list nat * list Q) :=
  let inds := np_where ((λ c', bool_decide (c' = c)) <$> classes) in
  b ← np_take boxes inds;
  c ← np_take classes inds;
  s ← np_take scores inds;
  keep ← nms_boxes b s;
  nb ← np_take b keep;
  nc ← np_take c keep;
  ns ← np_take s keep;
  Some (nb, nc, ns).

(** Lines 188-208: suppression per class, [None]s when nothing is left.
    (Python does not fix the order in which a set is iterated; nothing
    below depends on the order [elements] picks.) *)
Definition suppress (boxes : list row4) (classes : list nat) (scores : list Q)
  : option (py_optional (list row4) * py_optional (list nat)
            * py_optional (list Q)) :=
  kept ← mapM (suppress_class boxes classes scores)
              (elements (list_to_set classes : gset nat));
  let nboxes := kept.*1.*1 in
  let nclasses := kept.*1.*2 in
  let nscores := kept.*2 in
  if bool_decide (nclasses = [] ∧ nscores = []) then
    Some (PyNone, PyNone, PyNone)
  else
    boxes ← np_concatenate nboxes;
    classes ← np_concatenate nclasses;
    scores ← np_concatenate nscores;
    Some (PySome boxes, PySome classes, PySome scores).

Definition yolov5_post_process (input_data : list (ndarray Q)) :=
  '(boxes, classes, scores) ← decode_filter input_data;
  suppress boxes classes scores.
End Yolov5_suppress.

(** ** Images and the OpenCV calls

    A frame is a numpy array of pixel values.  OpenCV is an external
    library: its three calls are an interface, and each of them may
    raise ([cv2.error] on images whose sizes differ, for one): they
    return an [option].  Python's string formatting of the labels is an
    interface too, and so is the one float subtraction of the module
    whose rounding shows in its result. *)

Definition Mat := ndarray Z.

Class Cv2 := {
  (** [cv2.rectangle(img, pt1, pt2, color, thickness)] *)
  cv2_rectangle : Mat → Z * Z → Z * Z → Z * Z * Z → Z → option Mat;
  (** [cv2.putText(img, text, org, FONT_HERSHEY_SIMPLEX, fontScale, color, thickness)] *)
  cv2_putText : Mat → string → Z * Z → Q → Z * Z * Z → Z → option Mat;
  (** [cv2.addWeighted(src1, alpha, src2, beta, gamma)] *)
  cv2_addWeighted : Mat → Q → Mat → Q → Q → option Mat;
  (** ['{0} {1:.2f}'.format(name, score)] *)
  format_label : string → Q → string;
  (** [f'scale-{scale}, angle-{angle}'] *)
  format_position : Q → Q → string;
  (** [a - b] on two Python floats: the difference of the two doubles,
      rounded to a double *)
  py_float_sub : Q → Q → Q
}.

(** Python's [int(q)]: truncation towards zero.  (On a float that is
    infinite or not a number [int] raises; the rationals have neither.) *)
Definition py_int (q : Q) : Z := Z.quot (Qnum q) (Z.pos (Qden q)).

(** Python's [a / b] on numbers: [ZeroDivisionError] when [b] is zero. *)
Definition py_truediv (a b : Z) : option Q :=
  guard (b ≠ 0%Z);; Some (inject_Z a / inject_Z b).

Section Draw.
Context `{Cv2}.
Variable cfg : config.

(** The body of the [for] loop of [draw], for one detection. *)
Definition draw_one (image : Mat) (box : row4) (score : Q) (cl : nat)
  : option Mat :=
  let width := cam_width cfg in
  let height := cam_height cfg in
  let net_size := net_size cfg in
  (* top, left, right, bottom = box *)
  top ← (λ k, py_int (c0 box * k)) <$> py_truediv width net_size;
  left ← (λ k, py_int (c1 box * k)) <$> py_truediv height net_size;
  right ← (λ k, py_int (c2 box * k)) <$> py_truediv width net_size;
  bottom ← (λ k, py_int (c3 box * k)) <$> py_truediv height net_size;
  image ← cv2_rectangle image (top, left) (right, bottom) (255, 0, 0)%Z 2;
  name ← classes cfg !! cl;
  cv2_putText image (format_label name score) (top, left - 6)%Z 0.6
    (0, 0, 255)%Z 2.

(** [for box, score, cl in zip(boxes, scores, classes)] *)
Fixpoint draw (image : Mat) (boxes : list row4) (scores : list Q)
    (classes : list nat) : option Mat :=
  match boxes, scores, classes with
  | box :: boxes, score :: scores, cl :: classes =>
      image ← draw_one image box score cl;
      draw image boxes scores classes
  | _, _, _ => Some image
  end.

Definition draw_position (image : Mat) (scale angle : Q) : option Mat :=
  let CAM_WIDTH := 980%Z in
  let CAM_HEIGHT := 640%Z in
  let top := (CAM_WIDTH + 10)%Z in
  let left := (CAM_HEIGHT + 10)%Z in
  cv2_putText image (format_position scale angle) (top, left) 0.6
    (0, 0, 255)%Z 2.
End Draw.

(** ** UNet *)

(** [a[0]] *)
Definition np_index_first0 {A} (a : ndarray A) : option (ndarray A) :=
  d ← head (shape a);
  guard (0 < d)%nat;;
  Some (NdArray (tail (shape a)) (take (size_of (tail (shape a))) (data a))).

(** [np.transpose(a, (1, 2, 0))] *)
Definition np_transpose_120 (a : ndarray Q) : option (ndarray Q) :=
  match shape a with
  | [c; h; w] =>
      Some (NdArray [h; w; c]
              (i ← seq 0 h; j ← seq 0 w;
               (λ k, nth ((k * h + i) * w + j)%nat (data a) 0) <$> seq 0 c))
  | _ => None
  end.

(** [np.transpose(a, (2, 3, 0, 1))] *)
Definition np_transpose_2301 (a : ndarray Q) : option (ndarray Q) :=
  match shape a with
  | [c; k; h; w] =>
      Some (NdArray [h; w; c; k]
              (i ← seq 0 h; j ← seq 0 w; m ← seq 0 c;
               (λ n, nth (((m * k + n) * h + i) * w + j)%nat (data a) 0)
                 <$> seq 0 k))
  | _ => None
  end.

(** [np.argmax(a, axis=-1)]: [ValueError] on an axis of length zero. *)
Definition np_argmax_last (a : ndarray Q) : option (ndarray nat) :=
  d ← last (shape a);
  guard (0 < d)%nat;;
  NdArray (removelast (shape a)) <$> mapM np_argmax (nd_rows a).

Definition reverse_one_hot (image : ndarray Q) : option (ndarray nat) :=
  np_argmax_last image.

(** [colour_codes[image.astype(int)]] *)
Definition colour_code_segmentation (image : ndarray nat)
    (label_values : list (list Z)) : option (ndarray Z) :=
  let k := length (default [] (head label_values)) in
  guard (Forall (λ r, length r = k) label_values);;
  NdArray (shape image ++ [k]) <$>
    (mjoin <$> mapM (λ c, label_values !! c) (data image)).

(** [.astype(np.uint8)] *)
Definition astype_uint8 (a : ndarray Z) : ndarray Z :=
  np_map (λ v, v mod 256)%Z a.

(** The class scores of pixel [(i, j)]: [raw_mask[:, i, j]]. *)
Definition pixel_scores (raw_mask : ndarray Q) (c i j : nat) : list Q :=
  (λ ch, at3 raw_mask ch i j) <$> seq 0 c.

Definition get_mask (raw_mask : ndarray Q) : option Mat :=
  let select_class_rgb_values := [[0; 0; 0]; [255; 255; 255]]%Z in
  pred_mask ← np_transpose_120 raw_mask;
  pred_mask ← reverse_one_hot pred_mask;
  pred_mask ← colour_code_segmentation pred_mask select_class_rgb_values;
  Some (astype_uint8 pred_mask).

(** ** ResNet (over the reals, for [np.exp]) *)

Definition py_int_R (x : R) : Z :=
  if Rle_dec 0 x then Int_part x else (- Int_part (- x))%Z.

Fixpoint insert_desc (v : R) (l : list R) : list R :=
  match l with
  | [] => [v]
  | u :: r => if Rle_dec u v then v :: u :: r else u :: insert_desc v r
  end.

(** [sorted(l, reverse=True)] *)
Definition sorted_desc (l : list R) : list R := foldr insert_desc [] l.

(** Python's builtin [sum] *)
Definition py_sum (l : list R) : R := foldl Rplus 0%R l.

Section Resnet.
(** [dataset.get_crop_by_id], the dataset collaborator.  (The module
    neither defines nor imports the names [dataset] and [hm]; they are
    parameters here.) *)
Variable get_crop_by_id : Z → Mat.

Definition resnet_post_process (result : list (ndarray R))
  : option (list Mat) :=
  output ← data <$> result !! 0%nat;
  (* softmax *)
  let output := (λ e, e / py_sum (exp <$> output))%R <$> (exp <$> output) in
  let output_sorted := sorted_desc output in
  let top := take 10 output_sorted in
  let images_list := (λ cls_id, get_crop_by_id (py_int_R cls_id)) <$> top in
  Some images_list.
End Resnet.

(** ** The entry points *)

(** [while True: body]: what one run of the body decides. *)
Inductive flow (S R : Type) := Continue (s : S) | Return (r : R).
Arguments Continue {S R} _.
Arguments Return {S R} _.

Inductive outcome (R : Type) := Returns (r : R) | Raises | OutOfFuel.
Arguments Returns {R} _.
Arguments Raises {R}.
Arguments OutOfFuel {R}.

Fixpoint while_true {S R} (fuel : nat) (body : S → option (flow S R)) (s : S)
  : outcome R :=
  match fuel with
  | O => OutOfFuel
  | Datatypes.S fuel =>
      match body s with
      | None => Raises
      | Some (Return r) => Returns r
      | Some (Continue s) => while_true fuel body s
      end
  end.

Definition outcome_of {R} (r : option R) : outcome R :=
  match r with Some r => Returns r | None => Raises end.

(** The pose estimator [hm]: a module-level object with two
    attributes and a call. *)
Record hm_state := HmState {
  found_img : py_optional Mat;
  imgs_list : py_optional (list Mat)
}.

Section Entry_points.
Context `{Cv2}.
Variable cfg : config.
Variable argsort : list Q → list nat.
(** [base.utils.format_dets] *)
Variable dets : Type.
Variable format_dets : list row4 → list nat → list Q → dets.
Variable get_crop_by_id : Z → Mat.
(** [hm()]: the estimator on its two attributes, [(scale, angle)]. *)
Variable hm_call : hm_state → option (Q * Q).

(** Lines 30-33: every raw output reshaped to [(3, -1, h, w)] and
    transposed to [(h, w, 3, -1)]. *)
Definition yolov5_inputs (outputs : list (ndarray Q))
  : option (list (ndarray Q)) :=
  mapM (λ out,
          (* out.shape[-2:] *)
          let hw := drop (length (shape out) - 2) (shape out) in
          out ← np_reshape out ([Some 3%nat; None] ++ (Some <$> hw));
          np_transpose_2301 out) outputs.

(** Lines 29-42, the body of the loop of [post_yolov5]. *)
Definition post_yolov5_body (outputs : list (ndarray Q)) (frame : Mat)
  : option (Mat * py_optional dets) :=
  let dets := PyNone in
  data ← yolov5_inputs outputs;
  r ← yolov5_post_process cfg argsort data;
  match r with
  | (PySome boxes, PySome classes, PySome scores) =>
      frame ← draw cfg frame boxes scores classes;
      let dets := PySome (format_dets boxes classes scores) in
      Some (frame, dets)
  | (PySome _, _, _) => None
  | (PyNone, _, _) => Some (frame, dets)
  end.

Definition post_yolov5 (fuel : nat) (outputs : list (ndarray Q))
    (frame : Mat) : outcome (Mat * py_optional dets) :=
  while_true fuel (λ frame, Return <$> post_yolov5_body outputs frame) frame.

Definition post_unet_body (alpha beta : Q) (outputs : list (ndarray Q))
    (frame : Mat) : option Mat :=
  raw_mask ← outputs !! 0%nat ≫= np_index_first0;
  pred_mask ← get_mask raw_mask;
  frame ← cv2_addWeighted frame alpha pred_mask beta 0.0;
  Some frame.

Definition post_unet (fuel : nat) (outputs : list (ndarray Q))
    (frame : Mat) : outcome Mat :=
  let alpha := 0.7 in
  let beta := py_float_sub 1.0 alpha in
  while_true fuel (λ frame, Return <$> post_unet_body alpha beta outputs frame)
    frame.

Definition post_resnet_body (outputs : list (ndarray R))
    (st : hm_state * Mat) : option (hm_state * Mat) :=
  let '(hm, frame) := st in
  images_list ← resnet_post_process get_crop_by_id outputs;
  let hm := HmState (PySome frame) (imgs_list hm) in
  let hm := HmState (found_img hm) (PySome images_list) in
  '(scale, angle) ← hm_call hm;
  frame ← draw_position frame scale angle;
  (* hm.found_img is the frame object itself: the text shows there too *)
  let hm := HmState (PySome frame) (imgs_list hm) in
  Some (hm, frame).

Definition post_resnet (fuel : nat) (outputs : list (ndarray R))
    (hm : hm_state) (frame : Mat) : outcome (hm_state * Mat) :=
  while_true fuel (λ st, Return <$> post_resnet_body outputs st) (hm, frame).

(** *** The same entry points with the loop deleted *)

Definition post_yolov5_straight (outputs : list (ndarray Q)) (frame : Mat)
  : option (Mat * py_optional dets) :=
  post_yolov5_body outputs frame.

Definition post_unet_straight (outputs : list (ndarray Q)) (frame : Mat)
  : option Mat :=
  let alpha := 0.7 in
  let beta := py_float_sub 1.0 alpha in
  post_unet_body alpha beta outputs frame.

Definition post_resnet_straight (outputs : list (ndarray R))
    (hm : hm_state) (frame : Mat) : option (hm_state * Mat) :=
  post_resnet_body outputs (hm, frame).
End Entry_points.

(** ** The process layout of [RK3588] ([base/rk3588.py])

    [multiprocessing], the camera and the inference wrappers are
    external: a queue is one of the three objects [__init__] creates,
    a process is the record of the arguments it is created with.  The
    constructors of the collaborators are taken to return (the library
    refuses a queue larger than its semaphores can count; that is not
    modelled), so that [None] stands for the [IndexError] of
    [__init__] itself. *)

(** [self._q_pre], [self._q_outs], [self._q_post] *)
Inductive queue := _q_pre | _q_outs | _q_post.

(** [RKNNLite.NPU_CORE_0] ... *)
Inductive npu_core := NPU_CORE_0 | NPU_CORE_1 | NPU_CORE_2.

(** [ResNet(proc=i, core=c)] *)
Record inference_model := ResNet { proc : nat; core : npu_core }.

(** [Cam(source=..., q_in=..., q_out=...)] *)
Record cam := Cam { source : string; cam_q_in : queue; cam_q_out : queue }.

(** What a [Process] is created to run. *)
Inductive target :=
  | cam_record (c : cam)
  | model_inference (m : inference_model)
  | model_post_process (m : inference_model)
  | mapping.

(** [Process(target=..., kwargs=..., daemon=...)] *)
Record mp_process := Process {
  process_target : target;
  kwargs : list (string * queue);
  daemon : bool
}.

(** The keys of [config.json] that [rk3588.py] reads; the counts are
    JSON integers. *)
Record rk_config := RkConfig {
  buf_size : Z;
  inf_proc : Z;
  post_proc : Z;
  camera_source : string
}.

(** [range(n)] *)
Definition py_range (n : Z) : list nat := seq 0 (Z.to_nat n).

Record RK3588 := Rk3588 {
  queue_maxsize : queue → Z;
  _cam : cam;
  _cores : list npu_core;
  model : list inference_model;
  _rec : mp_process;
  _pre_inf : list mp_process;
  _post : list mp_process;
  _map : mp_process
}.

(** [RK3588.__init__]; [self._cores[i%3]] and [self.model[i]] raise
    [IndexError] out of range. *)
Definition RK3588_init (cfg : rk_config) : option RK3588 :=
  let maxsize := λ _ : queue, buf_size cfg in
  let _cam := Cam (camera_source cfg) _q_post _q_pre in
  let _cores := [NPU_CORE_0; NPU_CORE_1; NPU_CORE_2] in
  model ← mapM (λ i, ResNet i <$> _cores !! (i mod 3)%nat)
               (py_range (inf_proc cfg));
  let _rec := Process (cam_record _cam) [] true in
  _pre_inf ← mapM (λ i, m ← model !! i;
                        Some (Process (model_inference m)
                                [("q_in"%string, _q_pre);
                                 ("q_out"%string, _q_outs)] true))
                  (py_range (Z.of_nat (length model)));
  _post ← mapM (λ i, m ← model !! i;
                     Some (Process (model_post_process m)
                             [("q_in"%string, _q_outs);
                              ("q_out"%string, _q_post)] true))
               (py_range (post_proc cfg));
  let _map := Process mapping [("q_in"%string, _q_post)] true in
  Some (Rk3588 maxsize _cam _cores model _rec _pre_inf _post _map).

(** [RK3588.start]: the processes in the order they are started. *)
Definition RK3588_start (r : RK3588) : list mp_process :=
  [_rec r] ++ _pre_inf r ++ _post r ++ [_map r].

(** ** Reference points and examples *)

(** The logistic function, [1 / (1 + exp(-x))]: the body that is
    commented out in [sigmoid]. *)
Definition logistic (x : R) : R := (1 / (1 + exp (- x)))%R.

(** An [argsort]: merge sort of the indices by score. *)
(** Intersection over union as the specification means it, on two rows
    [x1, y1, x2, y2]: the sides of the intersection are not padded. *)
Definition spec_iou (bi bj : row4) : Q :=
  let xx1 := Qmax (c0 bi) (c0 bj) in
  let yy1 := Qmax (c1 bi) (c1 bj) in
  let xx2 := Qmin (c2 bi) (c2 bj) in
  let yy2 := Qmin (c3 bi) (c3 bj) in
  let inter := Qmax 0 (xx2 - xx1) * Qmax 0 (yy2 - yy1) in
  inter / ((c2 bi - c0 bi) * (c3 bi - c1 bi)
           + (c2 bj - c0 bj) * (c3 bj - c1 bj) - inter).

Definition score_le (s : list Q) (i j : nat) : Prop :=
  Qle_bool (nth i s 0) (nth j s 0) = true.

#[global] Instance score_le_dec s i j : Decision (score_le s i j).
Proof. unfold score_le. apply _. Defined.

Definition argsort_merge (s : list Q) : list nat :=
  merge_sort (score_le s) (seq 0 (length s)).

(** The integer nearest [n / d], ties to the even one ([0 ≤ n],
    [0 < d]). *)
Definition round_half_even (n d : Z) : Z :=
  let q := (n / d)%Z in
  let r := (n mod d)%Z in
  if (2 * r <? d)%Z then q
  else if (d <? 2 * r)%Z then (q + 1)%Z
  else if Z.even q then q else (q + 1)%Z.

(** The double nearest a rational: 53 significant bits, round to
    nearest, ties to even (the exponent range is not modelled). *)
Definition binary64 (q : Q) : Q :=
  let n := Z.abs (Qnum q) in
  let d := Z.pos (Qden q) in
  if (n =? 0)%Z then 0
  else
    let e1 := (Z.log2 n - Z.log2 d - 52)%Z in
    let below e :=
      if (0 <=? e)%Z then (n <? d * 2 ^ e * 2 ^ 52)%Z
      else (n * 2 ^ (- e) <? d * 2 ^ 52)%Z in
    let e := if below e1 then (e1 - 1)%Z else e1 in
    let m :=
      if (0 <=? e)%Z then round_half_even n (d * 2 ^ e)
      else round_half_even (n * 2 ^ (- e)) d in
    let m := (Z.sgn (Qnum q) * m)%Z in
    if (0 <=? e)%Z then inject_Z (m * 2 ^ e)
    else Qmake m (Z.to_pos (2 ^ (- e))).

(** An OpenCV that draws nothing but appends the coordinates it is
    given to the pixel data, and blends with truncation, raising when
    the two images differ in shape; floats subtract as doubles do. *)
Definition cv2_trace : Cv2 := {|
  cv2_rectangle img pt1 pt2 _ _ :=
    Some (NdArray (shape img) (data img ++ [pt1.1; pt1.2; pt2.1; pt2.2]));
  cv2_putText img _ org _ _ _ :=
    Some (NdArray (shape img) (data img ++ [org.1; org.2]));
  cv2_addWeighted src1 alpha src2 beta gamma :=
    guard (shape src1 = shape src2);;
    Some (NdArray (shape src1)
            (zip_with
               (λ u v, py_int (alpha * inject_Z u + beta * inject_Z v + gamma))
               (data src1) (data src2)));
  format_label name _ := name;
  format_position _ _ := "scale, angle"%string;
  py_float_sub a b := binary64 (binary64 a - binary64 b)
|}.

(** A configuration: 640 pixel network input, thresholds 0.25 and 0.45. *)
Definition cfg_ex : config :=
  Config 640 0.25 0.45 640 480 ["person"%string; "car"%string].

(** One grid cell, three anchors, one class; every raw value zero. *)
Definition cell_zero : ndarray Q := NdArray [1; 1; 3; 6]%nat (replicate 18 0).

(** The same cell with raw objectness 2 and raw class score 3 at the
    first anchor. *)
Definition cell_hot : ndarray Q :=
  NdArray [1; 1; 3; 6]%nat
    [0; 0; 1; 1; 2; 3;  0; 0; 0; 0; 0; 0;  0; 0; 0; 0; 0; 0].

(** A raw accelerator output of shape [(1, 18, 1, 1)], all zero. *)
Definition output_zero : ndarray Q := NdArray [1; 18; 1; 1]%nat (replicate 18 0).

(** Two boxes [x1, y1, x2, y2] that overlap on most of their area. *)
Definition box_a : row4 := Row4 0 0 10 10.
Definition box_b : row4 := Row4 1 1 11 11.

(** A two-class segmentation output of shape [(1, 2, 1, 2)] and a
    frame of one row of two pixels. *)
Definition unet_output : ndarray Q := NdArray [1; 2; 1; 2]%nat [0.1; 0.9; 0.8; 0.2].
Definition unet_raw : ndarray Q := NdArray [2; 1; 2]%nat [0.1; 0.9; 0.8; 0.2].
Definition frame_ex : Mat := NdArray [1; 2; 3]%nat [10; 20; 30; 40; 50; 60]%Z.

(** A third box, apart from [box_a] and [box_b], and three scores. *)
(** The scenario of the specification: threshold 0.5, two boxes whose
    unpadded intersection over union is 0.8, here of side 0.00001, one
    shifted by a ninth of it. *)
Definition cfg_half : config :=
  Config 640 0.25 0.5 640 480 ["person"; "car"]%string.
Definition box_tiny_a : row4 := Row4 0 0 0.00001 0.00001.
Definition box_tiny_b : row4 := Row4 (1 # 900000) 0 (10 # 900000) 0.00001.

(** A mask output with three channels whose only pixel has its largest
    score in the third, and a frame of one pixel. *)
Definition unet_output_three : ndarray Q :=
  NdArray [1; 3; 1; 1]%nat [0.1; 0.2; 0.7].
Definition frame_one : Mat := NdArray [1; 1; 3]%nat [10; 20; 30]%Z.

Definition box_c : row4 := Row4 20 20 30 30.
Definition boxes_abc : list row4 := [box_a; box_b; box_c].
Definition scores_abc : list Q := [0.9; 0.6; 0.8].

(** One grid cell whose first two anchors both pass the thresholds,
    with the class scores 3 and 4, and what the pipeline returns for
    it: the box of the second anchor first. *)
Definition cell_pair : ndarray Q :=
  NdArray [1; 1; 3; 6]%nat
    [0; 0; 1; 1; 2; 3;  0; 0; 1; 1; 2; 4;  0; 0; 0; 0; 0; 0].
Definition scales_pair : list (ndarray Q) := [cell_pair; cell_zero; cell_zero].
Definition boxes_pair : list row4 :=
  [Row4 (-7040 # 20) (-7600 # 20) (-5760 # 20) (-5200 # 20);
   Row4 (-6800 # 20) (-6920 # 20) (-6000 # 20) (-5880 # 20)].
Definition classes_pair : list nat := [0; 0]%nat.
Definition scores_pair : list Q := [8; 6].

(** Segmentation outputs with one and with three channels. *)
Definition unet_one : ndarray Q := NdArray [1; 1; 2]%nat [0.1; 0.9].
Definition unet_three : ndarray Q := NdArray [3; 1; 1]%nat [0.1; 0.2; 0.7].

(** Three inference and three post-processing processes. *)
Definition rk_cfg_ex : rk_config := RkConfig 4 3 3 "0".

(** One inference process and two post-processing processes. *)
Definition rk_cfg_more_post : rk_config := RkConfig 4 1 2 "0".

(** A dataset whose crop shows the id it was asked for. *)
Definition crop_of_id (cls_id : Z) : Mat := NdArray [1]%nat [cls_id].

(** The raw output that [post_yolov5] lays out as [cell_hot]. *)
Definition output_hot : ndarray Q := NdArray [1; 18; 1; 1]%nat (data cell_hot).

(** * Properties *)

(** ** The entry-point loops *)

Section Entry_point_loops.
Context `{Cv2}.
Variable cfg : config.
Variable argsort : list Q → list nat.
Variable dets : Type.
Variable format_dets : list row4 → list nat → list Q → dets.
Variable get_crop_by_id : Z → Mat.
Variable hm_call : hm_state → option (Q * Q).

(** A loop whose body returns on every path that does not raise runs
    its body once. *)
Lemma while_true_returns {S R} (body : S → option R) fuel (s : S) :
  while_true (Datatypes.S fuel) (λ s, Return <$> body s) s
  = outcome_of (body s).
Proof. simpl. by destruct (body s). Qed.

(** C9: with any fuel left, each of [post_yolov5], [post_unet] and
    [post_resnet] is the straight-line function obtained by deleting
    its [while True]: same result, same exception. *)
Theorem entry_points_straight_line fuel :
  (∀ outputs frame,
     post_yolov5 cfg argsort dets format_dets (S fuel) outputs frame
     = outcome_of (post_yolov5_straight cfg argsort dets format_dets outputs frame))
  ∧ (∀ outputs frame,
       post_unet (S fuel) outputs frame
       = outcome_of (post_unet_straight outputs frame))
  ∧ (∀ outputs hm frame,
       post_resnet get_crop_by_id hm_call (S fuel) outputs hm frame
       = outcome_of (post_resnet_straight get_crop_by_id hm_call outputs hm frame)).
Proof.
  split_and!; intros.
  - apply while_true_returns.
  - apply while_true_returns.
  - apply (while_true_returns
             (post_resnet_body get_crop_by_id hm_call outputs)).
Qed.
End Entry_point_loops.

(** ** ResNet retrieval *)

Section Resnet_facts.
Variable get_crop_by_id : Z → Mat.

Local Open Scope R_scope.

Lemma py_sum_foldr (l : list R) (a : R) :
  foldl Rplus a l = a + foldr Rplus 0 l.
Proof.
  revert a; induction l as [|x l IH]; intros a; simpl; [lra|].
  rewrite IH. lra.
Qed.

Lemma foldr_Rplus_pos (l : list R) :
  Forall (λ v, 0 < v) l → l ≠ [] → 0 < foldr Rplus 0 l.
Proof.
  induction 1 as [|x l Hx Hl IH]; [done|]. intros _. simpl.
  destruct l as [|y l]; [simpl; lra|].
  assert (0 < foldr Rplus 0 (y :: l)) by (by apply IH). lra.
Qed.

(** With two or more positive summands, each is below the sum. *)
Lemma summand_lt_py_sum (l : list R) (e : R) :
  Forall (λ v, 0 < v) l → e ∈ l → (2 ≤ length l)%nat → e < py_sum l.
Proof.
  unfold py_sum. rewrite py_sum_foldr, Rplus_0_l.
  induction 1 as [|x l Hx Hl IH]; intros He Hlen; [inversion He|].
  simpl in *. apply elem_of_cons in He as [->|He].
  - assert (0 < foldr Rplus 0 l); [|lra].
    apply foldr_Rplus_pos; [done|]. by destruct l; simpl in *; [lia|].
  - destruct l as [|y l]; [inversion He|].
    destruct l as [|z l].
    + apply list_elem_of_singleton in He as ->. simpl. lra.
    + assert (e < foldr Rplus 0 (y :: z :: l)); [|lra].
      apply IH; [done|simpl; lia].
Qed.

Lemma py_int_R_unit_interval (x : R) : 0 < x < 1 → py_int_R x = 0%Z.
Proof.
  intros [??]. unfold py_int_R. destruct (Rle_dec 0 x); [|lra].
  symmetry. apply Int_part_spec. simpl. lra.
Qed.

Lemma insert_desc_elem (v x : R) (l : list R) :
  x ∈ insert_desc v l → x = v ∨ x ∈ l.
Proof.
  induction l as [|u l IH]; simpl.
  - intros ->%list_elem_of_singleton. by left.
  - destruct (Rle_dec u v).
    + intros [->|?]%elem_of_cons; auto.
    + intros [->|[->|?]%IH]%elem_of_cons; auto; right; by constructor.
Qed.

Lemma insert_desc_length (v : R) (l : list R) :
  length (insert_desc v l) = S (length l).
Proof.
  induction l as [|u l IH]; simpl; [done|].
  destruct (Rle_dec u v); simpl; by rewrite ?IH.
Qed.

Lemma sorted_desc_elem (x : R) (l : list R) : x ∈ sorted_desc l → x ∈ l.
Proof.
  induction l as [|v l IH]; simpl; [done|].
  intros [->|?]%insert_desc_elem; [left|right; auto].
Qed.

Lemma sorted_desc_length (l : list R) : length (sorted_desc l) = length l.
Proof.
  induction l as [|v l IH]; simpl; [done|].
  by rewrite insert_desc_length, IH.
Qed.

(** Every value [resnet_post_process] hands to the dataset as a class
    id is a softmax probability, and [int] of it is [0] as soon as
    there are two classes. *)
Lemma resnet_post_process_ids (sh : list nat) (output : list R)
    (rest : list (ndarray R)) :
  (2 ≤ length output)%nat →
  resnet_post_process get_crop_by_id (NdArray sh output :: rest)
  = Some (replicate (length output `min` 10) (get_crop_by_id 0)).
Proof.
  intros Hlen. unfold resnet_post_process. simpl. f_equal.
  set (es := exp <$> output).
  set (sm := (λ e, e / py_sum es) <$> es).
  assert (Hes : Forall (λ v, 0 < v) es).
  { apply Forall_fmap, Forall_true. intros v. apply exp_pos. }
  assert (Hsm : ∀ p, p ∈ sm → py_int_R p = 0%Z).
  { intros p (e & -> & He)%list_elem_of_fmap.
    apply py_int_R_unit_interval.
    assert (0 < e) by (by eapply Forall_forall in Hes).
    assert (e < py_sum es).
    { apply summand_lt_py_sum; [done..|]. unfold es. by rewrite length_fmap. }
    split.
    - apply Rdiv_lt_0_compat; lra.
    - apply Rmult_lt_reg_r with (py_sum es); [lra|].
      unfold Rdiv. rewrite Rmult_assoc, Rinv_l by lra. lra. }
  apply list_eq_same_length with (length output `min` 10)%nat.
  - by rewrite length_replicate.
  - rewrite length_fmap, length_take, sorted_desc_length.
    unfold sm, es. rewrite !length_fmap. lia.
  - intros i x y Hi Hx [-> _]%lookup_replicate.
    rewrite list_lookup_fmap in Hx.
    destruct (take 10 (sorted_desc sm) !! i) as [p|] eqn:Hp; [|done].
    simplify_eq/=. f_equal. apply Hsm, sorted_desc_elem.
    apply list_elem_of_lookup_2 in Hp. by eapply subseteq_take.
Qed.

(** C3 (the code at the failing input): for the logits [0, 1, 2] the
    most probable class is index 2, yet all three dataset lookups are
    made with class id 0. *)
Theorem resnet_post_process_looks_up_id_0 :
  resnet_post_process get_crop_by_id [NdArray [1; 3]%nat [0; 1; 2]]
  = Some [get_crop_by_id 0; get_crop_by_id 0; get_crop_by_id 0].
Proof. by rewrite resnet_post_process_ids by (simpl; lia). Qed.
End Resnet_facts.

(** ** Index arrays *)

Lemma filter_all {A} (P : A → Prop) `{∀ x, Decision (P x)} (l : list A) :
  Forall P l → filter P l = l.
Proof.
  induction 1 as [|x l Hx Hl IH]; [done|].
  by rewrite filter_cons_True, IH.
Qed.

Lemma filter_none {A} (P : A → Prop) `{∀ x, Decision (P x)} (l : list A) :
  Forall (λ x, ¬ P x) l → filter P l = [].
Proof.
  induction 1 as [|x l Hx Hl IH]; [done|].
  by rewrite filter_cons_False.
Qed.

Lemma filter_ext_elem {A} (P1 P2 : A → Prop) `{∀ x, Decision (P1 x)}
    `{∀ x, Decision (P2 x)} (l : list A) :
  (∀ x, x ∈ l → P1 x ↔ P2 x) → filter P1 l = filter P2 l.
Proof.
  induction l as [|x l IH]; intros HP; [done|].
  rewrite !filter_cons.
  assert (P1 x ↔ P2 x) by (apply HP; left).
  rewrite IH by (intros; apply HP; by right).
  repeat case_decide; tauto.
Qed.

Lemma elem_of_np_where (m : list bool) (i : nat) :
  i ∈ np_where m ↔ m !! i = Some true.
Proof.
  unfold np_where. rewrite list_elem_of_filter, elem_of_seq.
  split; [tauto|]. intros Hi. split; [done|].
  apply lookup_lt_Some in Hi. lia.
Qed.

Lemma np_where_snoc (m : list bool) (b : bool) :
  np_where (m ++ [b]) = np_where m ++ (if b then [length m] else []).
Proof.
  unfold np_where. rewrite length_app, Nat.add_1_r, seq_S, filter_app. simpl.
  f_equal.
  - apply filter_ext_elem. intros i [_ Hi]%elem_of_seq.
    by rewrite lookup_app_l by lia.
  - rewrite filter_cons, filter_nil.
    rewrite lookup_app_r, Nat.sub_diag by lia. simpl.
    destruct b; by case_decide.
Qed.

(** Selecting by [np.where] of a mask computed from the elements is
    filtering. *)
Lemma np_where_select {A} (f : A → bool) (l : list A) (d : A) :
  (λ k, nth k l d) <$> np_where (f <$> l) = filter (λ v, f v = true) l.
Proof.
  induction l as [|v l IH] using rev_ind; [done|].
  rewrite fmap_app. change (f <$> [v]) with [f v].
  rewrite np_where_snoc, fmap_app, filter_app, length_fmap.
  f_equal.
  - rewrite <- IH. apply list_fmap_ext. intros p k Hk.
    apply list_elem_of_lookup_2, elem_of_np_where, lookup_lt_Some in Hk.
    rewrite length_fmap in Hk. by rewrite app_nth1.
  - simpl. rewrite filter_cons, filter_nil.
    destruct (f v); case_decide; try done; simpl.
    by rewrite nth_middle.
Qed.

Lemma np_take_total {A} (a : list A) (idx : list nat) (d : A) :
  Forall (λ i, i < length a)%nat idx →
  np_take a idx = Some ((λ i, nth i a d) <$> idx).
Proof.
  intros Hidx. unfold np_take. apply mapM_Some.
  apply Forall2_fmap_r, Forall_Forall2_diag.
  eapply Forall_impl; [done|]. intros i Hi. simpl.
  apply lookup_lt_is_Some in Hi as [v Hv].
  by rewrite nth_lookup, Hv.
Qed.

Lemma np_take_lookup {A} (a : list A) (idx : list nat) (r : list A) :
  np_take a idx = Some r →
  length r = length idx
  ∧ ∀ p v, r !! p = Some v → ∃ i, idx !! p = Some i ∧ a !! i = Some v.
Proof.
  intros Hr%mapM_Some. split; [by erewrite <- Forall2_length|].
  intros p v Hv.
  destruct (Forall2_lookup_r _ _ _ _ _ Hr Hv) as (i & ? & ?). eauto.
Qed.

Lemma np_take_all {A} (a : list A) :
  np_take a (seq 0 (length a)) = Some a.
Proof.
  apply mapM_Some, Forall2_same_length_lookup.
  split; [by rewrite length_seq|].
  intros p i v [-> ?]%lookup_seq Hv. done.
Qed.

(** ** Non-maximum suppression *)

Lemma np_gt_not_le (v : npfloat) (t : Q) : np_gt v t = true → np_le v t = false.
Proof. destruct v; simpl; try done. by intros ->%negb_true_iff. Qed.

Lemma np_le_div_proper (a a' b b' t : Q) :
  a == a' → b == b' → np_le (np_div a b) t = np_le (np_div a' b') t.
Proof.
  intros Ha Hb. unfold np_div. rewrite Ha, Hb.
  destruct (Qeq_bool b' 0); [done|]. simpl. by rewrite Ha, Hb.
Qed.

(** The overlap test does not depend on which box is the reference. *)
Lemma box_ovr_sym (bi bj : row4) (t : Q) :
  np_le (box_ovr bi bj) t = np_le (box_ovr bj bi) t.
Proof.
  unfold box_ovr. cbv zeta.
  set (wi := c2 bi - c0 bi). set (hi := c3 bi - c1 bi).
  set (wj := c2 bj - c0 bj). set (hj := c3 bj - c1 bj).
  assert (Hinter :
    Qmax 0 (Qmin (c0 bi + wi) (c0 bj + wj) - Qmax (c0 bi) (c0 bj) + 0.00001)
    * Qmax 0 (Qmin (c1 bi + hi) (c1 bj + hj) - Qmax (c1 bi) (c1 bj) + 0.00001)
    == Qmax 0 (Qmin (c0 bj + wj) (c0 bi + wi) - Qmax (c0 bj) (c0 bi) + 0.00001)
       * Qmax 0 (Qmin (c1 bj + hj) (c1 bi + hi) - Qmax (c1 bj) (c1 bi) + 0.00001)).
  { by rewrite (Q.min_comm (c0 bi + wi)), (Q.max_comm (c0 bi)),
         (Q.min_comm (c1 bi + hi)), (Q.max_comm (c1 bi)). }
  apply np_le_div_proper; [done|]. rewrite Hinter. ring.
Qed.

Section Nms_facts.
Variable cfg : config.
Variable argsort : list Q → list nat.
Hypothesis argsort_spec : is_argsort argsort.

Implicit Types (boxes : list row4) (scores : list Q) (order : list nat).

Local Abbreviation stay := (stays cfg).
Local Abbreviation loop := (nms_keep cfg).

Local Instance stays_dec boxes i j : Decision (stay boxes i j).
Proof. unfold stays. apply _. Defined.

Lemma stays_box_ovr boxes i j bi bj :
  boxes !! i = Some bi → boxes !! j = Some bj →
  stay boxes i j ↔ np_le (box_ovr bi bj) (nms_thresh cfg) = true.
Proof.
  intros Hi Hj. unfold stays, ovr_at, box_ovr.
  rewrite !nth_lookup, !lookup_zip_with, !list_lookup_fmap, Hi, Hj.
  done.
Qed.

Lemma nms_loop_cons boxes i rest :
  loop boxes (i :: rest) = i :: loop boxes (filter (stay boxes i) rest).
Proof.
  unfold nms_keep. simp nms_loop. f_equal. f_equal.
  etrans; [|exact (np_where_select
    (λ j, np_le (ovr_at (c0 <$> boxes) (c1 <$> boxes)
                   (zip_with Qminus (c2 <$> boxes) (c0 <$> boxes))
                   (zip_with Qminus (c3 <$> boxes) (c1 <$> boxes))
                   (zip_with Qmult
                      (zip_with Qminus (c2 <$> boxes) (c0 <$> boxes))
                      (zip_with Qminus (c3 <$> boxes) (c1 <$> boxes))) i j)
            (nms_thresh cfg)) rest 0%nat)].
  apply list_fmap_ext. intros _ k _. by rewrite Nat.add_1_r.
Qed.

Lemma nms_loop_nil boxes : loop boxes [] = [].
Proof. unfold nms_keep. by simp nms_loop. Qed.

(** Induction along the iterations of the loop. *)
Lemma nms_loop_ind boxes (P : list nat → list nat → Prop) :
  P [] [] →
  (∀ i rest,
     P (filter (stay boxes i) rest) (loop boxes (filter (stay boxes i) rest)) →
     P (i :: rest) (i :: loop boxes (filter (stay boxes i) rest))) →
  ∀ order, P order (loop boxes order).
Proof.
  intros Hnil Hcons order.
  induction (Nat.lt_wf_0_projected (@length nat) order) as [order _ IH].
  destruct order as [|i rest].
  - by rewrite nms_loop_nil.
  - rewrite nms_loop_cons. apply Hcons, IH.
    simpl. pose proof (length_filter (stay boxes i) rest). lia.
Qed.

Lemma nms_loop_sublist boxes order : loop boxes order `sublist_of` order.
Proof.
  apply (nms_loop_ind boxes (λ o k, k `sublist_of` o)); [done|].
  intros i rest IH. apply sublist_skip. etrans; [done|apply sublist_filter].
Qed.

Lemma nms_loop_nonempty boxes order : order ≠ [] → loop boxes order ≠ [].
Proof. destruct order; [done|]. by rewrite nms_loop_cons. Qed.

(** Every kept box passed the overlap test against every box kept
    before it. *)
Lemma nms_loop_pairwise boxes order :
  StronglySorted (stay boxes) (loop boxes order).
Proof.
  apply (nms_loop_ind boxes (λ _ k, StronglySorted (stay boxes) k));
    [constructor|].
  intros i rest IH. constructor; [done|].
  apply Forall_forall. intros j Hj.
  eapply elem_of_sublist in Hj; [|apply nms_loop_sublist].
  by apply list_elem_of_filter in Hj as [? _].
Qed.

(** On an order in which no box suppresses a later one the loop
    keeps everything. *)
Lemma nms_loop_fixed boxes order :
  StronglySorted (stay boxes) order → loop boxes order = order.
Proof.
  induction 1 as [|i rest Hrest IH Hi]; [apply nms_loop_nil|].
  by rewrite nms_loop_cons, filter_all, IH.
Qed.
End Nms_facts.

Lemma StronglySorted_lookup {A} (R : relation A) (l : list A) p q a b :
  StronglySorted R l → (p < q)%nat →
  l !! p = Some a → l !! q = Some b → R a b.
Proof.
  intros Hl. revert p q.
  induction Hl as [|x l Hl IH Hx]; intros p q Hpq Ha Hb; [done|].
  destruct q as [|q]; [lia|]. destruct p as [|p]; simplify_eq/=.
  - eapply Forall_forall; [done|]. by eapply list_elem_of_lookup_2.
  - eapply (IH p q); [lia|done..].
Qed.

Lemma StronglySorted_pairwise {A} (R : relation A) (l : list A) :
  NoDup l → (∀ a b, a ∈ l → b ∈ l → a ≠ b → R a b) → StronglySorted R l.
Proof.
  induction 1 as [|x l Hx Hl IH]; intros HR; constructor.
  - apply IH. intros a b Ha Hb. apply HR; by right.
  - apply Forall_forall. intros b Hb. apply HR; [by left|by right|].
    by intros ->.
Qed.

Lemma zip_fmap_seq {A B} (a : list A) (b : list B) (da : A) (db : B) :
  length a = length b →
  (λ i, (nth i a da, nth i b db)) <$> seq 0 (length a) = zip a b.
Proof.
  intros Hlen. apply list_eq. intros i.
  rewrite list_lookup_fmap, lookup_zip_with.
  destruct (decide (i < length a)%nat) as [Hi|Hi].
  - rewrite lookup_seq_lt by done. simpl.
    destruct (lookup_lt_is_Some_2 a i Hi) as [u Hu].
    destruct (lookup_lt_is_Some_2 b i ltac:(lia)) as [v Hv].
    by rewrite !nth_lookup, Hu, Hv.
  - rewrite lookup_seq_ge, (lookup_ge_None_2 a) by lia. done.
Qed.

Lemma zip_fmap_same {A B C} (f : C → A) (g : C → B) (l : list C) :
  zip (f <$> l) (g <$> l) = (λ i, (f i, g i)) <$> l.
Proof. induction l; simpl; by f_equal. Qed.

Section Nms_boxes_facts.
Variable cfg : config.
Variable argsort : list Q → list nat.
Hypothesis argsort_spec : is_argsort argsort.

Implicit Types (boxes : list row4) (scores : list Q) (order : list nat).

Lemma order_perm scores :
  reverse (argsort scores) ≡ₚ seq 0 (length scores).
Proof. rewrite reverse_Permutation. apply argsort_spec. Qed.

Lemma order_in_range scores :
  Forall (λ i, i < length scores)%nat (reverse (argsort scores)).
Proof.
  rewrite order_perm. apply Forall_forall. by intros i [_ ?]%elem_of_seq.
Qed.

Lemma nms_boxes_loop boxes scores :
  length boxes = length scores →
  nms_boxes cfg argsort boxes scores
  = Some (nms_keep cfg boxes (reverse (argsort scores))).
Proof.
  intros Hlen. unfold nms_boxes. cbv zeta.
  rewrite option_guard_True; [done|].
  rewrite Hlen. apply order_in_range.
Qed.

(** What [nms_boxes] keeps: distinct valid indices, at least one when
    there is a box, pairwise passing the overlap test. *)
Lemma nms_boxes_keep boxes scores :
  length boxes = length scores →
  ∃ keep,
    nms_boxes cfg argsort boxes scores = Some keep
    ∧ NoDup keep
    ∧ Forall (λ i, i < length boxes)%nat keep
    ∧ (boxes ≠ [] → keep ≠ [])
    ∧ ∀ p q i j bi bj,
        (p < q)%nat → keep !! p = Some i → keep !! q = Some j →
        boxes !! i = Some bi → boxes !! j = Some bj →
        np_le (box_ovr bi bj) (nms_thresh cfg) = true.
Proof.
  intros Hlen. eexists. split; [by apply nms_boxes_loop|].
  pose proof (nms_loop_sublist cfg boxes (reverse (argsort scores))) as Hsub.
  split_and!.
  - eapply sublist_NoDup; [|done]. rewrite order_perm. apply NoDup_seq.
  - apply Forall_forall. intros i Hi.
    eapply elem_of_sublist in Hi; [|done].
    pose proof (order_in_range scores) as Hr.
    rewrite Hlen. by eapply Forall_forall in Hr.
  - intros Hne. apply nms_loop_nonempty. intros Hnil.
    pose proof (order_perm scores) as Hp. rewrite Hnil in Hp.
    apply Permutation_length in Hp. rewrite length_seq in Hp.
    destruct boxes; simpl in *; [done|lia].
  - intros p q i j bi bj Hpq Hi Hj Hbi Hbj.
    pose proof (nms_loop_pairwise cfg boxes (reverse (argsort scores))) as Hs.
    pose proof (StronglySorted_lookup _ _ _ _ _ _ Hs Hpq Hi Hj) as Hij.
    by eapply stays_box_ovr in Hij.
Qed.

(** C4, as the code has it: of two boxes whose overlap ratio, as
    [nms_boxes] computes it (the sides of the intersection padded by
    [0.00001] each), exceeds [nms_thresh], and whose scores differ,
    exactly the higher-scoring one is kept. *)
Theorem nms_two_overlapping_boxes (b0 b1 : row4) (s0 s1 : Q) :
  np_gt (box_ovr b0 b1) (nms_thresh cfg) = true →
  (s1 < s0 → nms_boxes cfg argsort [b0; b1] [s0; s1] = Some [0%nat])
  ∧ (s0 < s1 → nms_boxes cfg argsort [b0; b1] [s0; s1] = Some [1%nat]).
Proof.
  intros Hovr%np_gt_not_le.
  destruct (argsort_spec [s0; s1]) as [Hperm Hsorted]. simpl in Hperm.
  symmetry in Hperm. apply Permutation_length_2_inv in Hperm.
  assert (Hstep : ∀ i j bi bj,
    [b0; b1] !! i = Some bi → [b0; b1] !! j = Some bj →
    np_le (box_ovr bi bj) (nms_thresh cfg) = false →
    reverse (argsort [s0; s1]) = [i; j] →
    nms_boxes cfg argsort [b0; b1] [s0; s1] = Some [i]).
  { intros i j bi bj Hi Hj Hij Horder.
    rewrite nms_boxes_loop by done. rewrite Horder. f_equal.
    rewrite nms_loop_cons, filter_cons_False, filter_nil.
    - by rewrite nms_loop_nil.
    - rewrite stays_box_ovr by done. by rewrite Hij. }
  split; intros Hlt.
  - apply (Hstep 0 1 b0 b1)%nat; [done..|].
    destruct Hperm as [Hp|Hp]; rewrite Hp; [|done].
    rewrite Hp in Hsorted. apply StronglySorted_cons in Hsorted as [Hle _].
    apply Forall_cons in Hle as [Hle _]. simpl in Hle.
    by apply Qle_not_lt in Hle.
  - apply (Hstep 1 0 b1 b0)%nat; [done..|by rewrite <- box_ovr_sym|].
    destruct Hperm as [Hp|Hp]; rewrite Hp; [done|].
    rewrite Hp in Hsorted. apply StronglySorted_cons in Hsorted as [Hle _].
    apply Forall_cons in Hle as [Hle _]. simpl in Hle.
    by apply Qle_not_lt in Hle.
Qed.

(** C5: suppression applied to the boxes it kept keeps every one of
    them again: the second result is the first up to the order in
    which [argsort] lists ties. *)
Theorem nms_boxes_idempotent boxes scores :
  length boxes = length scores →
  ∃ keep kb ks,
    nms_boxes cfg argsort boxes scores = Some keep
    ∧ np_take boxes keep = Some kb
    ∧ np_take scores keep = Some ks
    ∧ ∃ keep2 kb2 ks2,
        nms_boxes cfg argsort kb ks = Some keep2
        ∧ np_take kb keep2 = Some kb2
        ∧ np_take ks keep2 = Some ks2
        ∧ keep2 ≡ₚ seq 0 (length kb)
        ∧ zip kb2 ks2 ≡ₚ zip kb ks.
Proof.
  intros Hlen.
  destruct (nms_boxes_keep boxes scores Hlen)
    as (keep & Hkeep & Hnd & Hrange & _ & Hpair).
  pose (d := Row4 0 0 0 0).
  pose proof (np_take_total boxes keep d Hrange) as Hkb.
  pose proof (np_take_total scores keep 0 ltac:(by rewrite <- Hlen)) as Hks.
  set (kb := (λ i, nth i boxes d) <$> keep) in *.
  set (ks := (λ i, nth i scores 0) <$> keep) in *.
  exists keep, kb, ks. split_and!; [done..|].
  assert (Hlen2 : length kb = length ks) by (unfold kb, ks; by rewrite !length_fmap).
  assert (Hfix : nms_boxes cfg argsort kb ks = Some (reverse (argsort ks))).
  { rewrite nms_boxes_loop by done. f_equal.
    apply (nms_loop_fixed cfg kb), StronglySorted_pairwise.
    { rewrite order_perm. apply NoDup_seq. }
    intros a b Ha Hb Hab. rewrite order_perm in Ha, Hb.
    apply elem_of_seq in Ha as [_ Ha], Hb as [_ Hb]. rewrite <- Hlen2 in Ha, Hb.
    destruct (lookup_lt_is_Some_2 kb a Ha) as [ba Hba].
    destruct (lookup_lt_is_Some_2 kb b Hb) as [bb Hbb].
    apply (stays_box_ovr cfg kb a b ba bb); [done..|].
    destruct (np_take_lookup _ _ _ Hkb) as [_ Hlk].
    destruct (Hlk _ _ Hba) as (i & Hi & Hbi).
    destruct (Hlk _ _ Hbb) as (j & Hj & Hbj).
    destruct (decide (a < b)%nat).
    - by eapply (Hpair a b).
    - rewrite box_ovr_sym. eapply (Hpair b a); [lia|done..]. }
  pose proof (order_perm ks) as Hperm. rewrite <- Hlen2 in Hperm.
  assert (Hr2 : Forall (λ i, i < length kb)%nat (reverse (argsort ks))).
  { rewrite Hlen2. apply order_in_range. }
  exists (reverse (argsort ks)),
         ((λ i, nth i kb d) <$> reverse (argsort ks)),
         ((λ i, nth i ks 0) <$> reverse (argsort ks)).
  split_and!; [done|by apply np_take_total|
               apply np_take_total; by rewrite <- Hlen2|done|].
  rewrite zip_fmap_same, Hperm. by rewrite zip_fmap_seq.
Qed.
End Nms_boxes_facts.

(** ** Reshaping *)

Lemma chunk_length {A} (k n : nat) (d : list A) : length (chunk k n d) = n.
Proof. unfold chunk. by rewrite length_fmap, length_seq. Qed.

Lemma chunk_lookup {A} (k n : nat) (d : list A) (r : nat) :
  (r < n)%nat → chunk k n d !! r = Some (take k (drop (r * k) d)).
Proof.
  intros Hr. unfold chunk. by rewrite list_lookup_fmap, lookup_seq_lt.
Qed.

Lemma chunk_lookup_Some {A} (k n : nat) (d : list A) (r : nat) row :
  chunk k n d !! r = Some row → (r < n)%nat ∧ row = take k (drop (r * k) d).
Proof.
  intros Hrow. pose proof (lookup_lt_Some _ _ _ Hrow) as Hr.
  rewrite chunk_length in Hr. rewrite chunk_lookup in Hrow by done.
  by simplify_eq.
Qed.

Lemma chunk_row_length {A} (k n : nat) (d : list A) (r : nat) row :
  (n * k ≤ length d)%nat → chunk k n d !! r = Some row → length row = k.
Proof.
  intros Hd [Hr ->]%chunk_lookup_Some. rewrite length_take, length_drop. nia.
Qed.

Lemma np_reshape_flat {A} (a : ndarray A) :
  np_reshape a [None] = Some (NdArray [length (data a)] (data a)).
Proof.
  unfold np_reshape. simpl. do 3 f_equal.
  exact (Nat.div_1_r (length (data a))).
Qed.

Lemma np_reshape_rows {A} (a : ndarray A) (k : nat) :
  np_reshape a [None; Some k]
  = if decide (0 < k ∧ length (data a) mod k = 0)%nat
    then Some (NdArray [(length (data a) / k)%nat; k] (data a)) else None.
Proof.
  unfold np_reshape. simpl. rewrite Nat.mul_1_r.
  case_decide; [by rewrite option_guard_True|by rewrite option_guard_False].
Qed.

Lemma np_reshape_full {A} (a : ndarray A) (s : list nat) :
  np_reshape a (Some <$> s)
  = if decide (size_of s = length (data a)) then Some (NdArray s (data a))
    else None.
Proof.
  unfold np_reshape.
  assert (Hs : omap id (Some <$> s) = s).
  { induction s; simpl; by f_equal. }
  assert (Hn : filter (λ o, o = None) (Some <$> s) = []).
  { apply filter_none, Forall_fmap, Forall_true. done. }
  assert (Hd : default 0%nat <$> (Some <$> s) = s).
  { rewrite <- list_fmap_compose. apply list_fmap_id. }
  rewrite Hs, Hn, Hd. simpl.
  case_decide; [by rewrite option_guard_True|by rewrite option_guard_False].
Qed.

Lemma nd_rows_2d {A} (n k : nat) (d : list A) :
  nd_rows (NdArray [n; k] d) = chunk k n d.
Proof. unfold nd_rows. simpl. by rewrite Nat.mul_1_r. Qed.

(** ** Filtering *)

Lemma np_max_elem (row : list Q) (m : Q) : np_max row = Some m → m ∈ row.
Proof.
  destruct row as [|v r]; [done|]. intros [= <-].
  revert v. induction r as [|u r IH]; intros v; simpl; [left|].
  pose proof (IH (Qmax v u)) as [Heq|?]%elem_of_cons; [|by do 2 right].
  rewrite Heq. unfold Qmax, GenericMinMax.gmax.
  destruct (v ?= u); [left|right; left|left].
Qed.

Lemma np_max_is_Some (row : list Q) : row ≠ [] → is_Some (np_max row).
Proof. destruct row; [done|]. intros _. by eexists. Qed.

Lemma np_argmax_is_Some (row : list Q) : row ≠ [] → is_Some (np_argmax row).
Proof. destruct row; [done|]. intros _. by eexists. Qed.

Lemma mapM_lookup_Some {A B} (f : A → option B) (l : list A) (k : list B) i y :
  mapM f l = Some k → k !! i = Some y → ∃ x, l !! i = Some x ∧ f x = Some y.
Proof.
  intros Hk%mapM_Some Hy.
  destruct (Forall2_lookup_r _ _ _ _ _ Hk Hy) as (x & ? & ?). eauto.
Qed.

Lemma mapM_total {A B} (f : A → option B) (l : list A) :
  Forall (λ x, is_Some (f x)) l → is_Some (mapM f l).
Proof. intros Hl. by apply mapM_is_Some. Qed.

Lemma np_where_fmap_lookup {A} (f : A → bool) (l : list A) (idx : list nat) p i :
  idx = np_where (f <$> l) → idx !! p = Some i →
  ∃ v, l !! i = Some v ∧ f v = true.
Proof.
  intros -> Hi. apply list_elem_of_lookup_2, elem_of_np_where in Hi.
  rewrite list_lookup_fmap in Hi. destruct (l !! i) as [v|]; simplify_eq/=.
  eauto.
Qed.

Lemma np_where_in_range (m : list bool) :
  Forall (λ i, i < length m)%nat (np_where m).
Proof.
  apply Forall_forall. intros i Hi%elem_of_np_where. by eapply lookup_lt_Some.
Qed.

Section Filter_facts.
Variable cfg : config.

Lemma filter_boxes_entries boxes confs probs bs cs ss :
  filter_boxes cfg boxes confs probs = Some (bs, cs, ss) →
  length bs = length ss ∧ length cs = length ss
  ∧ ∃ k, last (shape probs) = Some k
    ∧ ∀ p s, ss !! p = Some s →
        ∃ n conf row m cl,
          data confs !! n = Some conf
          ∧ row = take k (drop (n * k) (data probs))
          ∧ np_max row = Some m ∧ np_argmax row = Some cl
          ∧ obj_thresh cfg <= conf ∧ obj_thresh cfg <= m
          ∧ s = m * conf
          ∧ cs !! p = Some cl
          ∧ bs !! p = Some (row4_of_list (take 4 (drop (n * 4) (data boxes)))).
Proof.
  unfold filter_boxes. intros Hf.
  rewrite np_reshape_flat, np_reshape_rows in Hf.
  destruct (decide (0 < 4 ∧ length (data boxes) mod 4 = 0)%nat) as [[_ Hb4]|];
    [|done].
  cbn [fmap option_fmap option_map mbind option_bind data] in Hf.
  apply bind_Some in Hf as (k & Hk & Hf).
  rewrite np_reshape_rows in Hf.
  destruct (decide (0 < k ∧ length (data probs) mod k = 0)%nat) as [[Hk0 Hpk]|];
    [|done].
  cbn [fmap option_fmap option_map mbind option_bind data] in Hf.
  rewrite !nd_rows_2d in Hf.
  apply bind_Some in Hf as (boxes1 & Hboxes1 & Hf).
  apply bind_Some in Hf as (confs1 & Hconfs1 & Hf).
  apply bind_Some in Hf as (probs1 & Hprobs1 & Hf).
  apply bind_Some in Hf as (cms & Hcms & Hf).
  apply bind_Some in Hf as (classes & Hclasses & Hf).
  apply bind_Some in Hf as (boxes2 & Hboxes2 & Hf).
  apply bind_Some in Hf as (classes2 & Hclasses2 & Hf).
  apply bind_Some in Hf as (scores & Hscores & Hf).
  simplify_eq.
  set (pos1 := np_where (Qle_bool (obj_thresh cfg) <$> data confs)) in *.
  set (pos2 := np_where (Qle_bool (obj_thresh cfg) <$> cms)) in *.
  apply mapM_Some in Hboxes1, Hconfs1, Hprobs1, Hcms, Hclasses,
    Hboxes2, Hclasses2, Hscores.
  pose proof (Forall2_length _ _ _ Hboxes2).
  pose proof (Forall2_length _ _ _ Hclasses2).
  pose proof (Forall2_length _ _ _ Hscores).
  split_and!; [congruence..|]. exists k. split; [done|].
  intros p s Hs.
  destruct (Forall2_lookup_r _ _ _ _ _ Hscores Hs) as (q & Hq & Hzs).
  apply lookup_zip_with_Some in Hzs as (m & conf & -> & Hm & Hconf).
  destruct (np_where_fmap_lookup _ _ _ _ _ eq_refl Hq) as (m' & Hm' & Hmle).
  destruct (Forall2_lookup_r _ _ _ _ _ Hconfs1 Hconf) as (n & Hn & Hcn).
  destruct (np_where_fmap_lookup _ _ _ _ _ eq_refl Hn) as (c' & Hc' & Hcle).
  destruct (Forall2_lookup_r _ _ _ _ _ Hcms Hm) as (row & Hrow & Hmax).
  destruct (Forall2_lookup_l _ _ _ _ _ Hclasses Hrow) as (cl & Hcl & Hargmax).
  destruct (Forall2_lookup_r _ _ _ _ _ Hprobs1 Hrow) as (n' & Hn' & Hrown).
  apply chunk_lookup_Some in Hrown as [_ Hrown].
  destruct (Forall2_lookup_l _ _ _ _ _ Hclasses2 Hq) as (cl' & Hcl' & Hcl2).
  destruct (Forall2_lookup_l _ _ _ _ _ Hboxes2 Hq) as (b & Hb & Hb1).
  destruct (Forall2_lookup_r _ _ _ _ _ Hboxes1 Hb1) as (n'' & Hn'' & Hbn).
  rewrite list_lookup_fmap in Hbn.
  destruct (chunk 4 _ _ !! n'') as [brow|] eqn:Hbrow; [|done].
  apply chunk_lookup_Some in Hbrow as [_ ->].
  simplify_eq/=.
  exists n, conf, (take k (drop (n * k) (data probs))), m, cl.
  split_and!; try done; by apply Qle_bool_iff.
Qed.

(** Nothing passes the first threshold, nothing is returned. *)
Lemma filter_boxes_below_thresh boxes confs probs bs cs ss :
  filter_boxes cfg boxes confs probs = Some (bs, cs, ss) →
  Forall (λ c, c < obj_thresh cfg) (data confs) →
  bs = [] ∧ cs = [] ∧ ss = [].
Proof.
  intros Hf Hlow.
  destruct (filter_boxes_entries _ _ _ _ _ _ Hf) as (Hlb & Hlc & k & _ & Hent).
  destruct ss as [|s ss].
  { by destruct bs, cs. }
  destruct (Hent 0%nat s eq_refl)
    as (n & conf & row & m & cl & Hn & _ & _ & _ & Hle & _).
  apply list_elem_of_lookup_2 in Hn.
  eapply Forall_forall in Hlow; [|done].
  by apply Qle_not_lt in Hle.
Qed.

(** C2 (amended): an entry that [filter_boxes] returns has an
    objectness of at least [obj_thresh] and a maximum class
    probability of at least [obj_thresh]; its score is their product
    and its class the first index of that maximum. *)
Theorem filter_boxes_thresholds boxes confs probs bs cs ss :
  filter_boxes cfg boxes confs probs = Some (bs, cs, ss) →
  length bs = length ss ∧ length cs = length ss
  ∧ ∃ k, last (shape probs) = Some k
    ∧ ∀ p score, ss !! p = Some score →
        ∃ n objectness class_probs max_class_prob cl,
          data confs !! n = Some objectness
          ∧ class_probs = take k (drop (n * k) (data probs))
          ∧ np_max class_probs = Some max_class_prob
          ∧ np_argmax class_probs = Some cl
          ∧ obj_thresh cfg <= objectness
          ∧ obj_thresh cfg <= max_class_prob
          ∧ score = max_class_prob * objectness
          ∧ cs !! p = Some cl
          ∧ bs !! p = Some (row4_of_list (take 4 (drop (n * 4) (data boxes)))).
Proof. apply filter_boxes_entries. Qed.
End Filter_facts.

(** ** Arrays in C order *)

Lemma size_of_snoc (s : list nat) (d : nat) :
  size_of (s ++ [d]) = (size_of s * d)%nat.
Proof. induction s as [|x s IH]; simpl; [lia|]. rewrite IH. lia. Qed.

Lemma length_bind_uniform {A B} (f : A → list B) (k : nat) (l : list A) :
  Forall (λ x, length (f x) = k) l → length (l ≫= f) = (length l * k)%nat.
Proof.
  induction 1 as [|x l Hx Hl IH]; [done|].
  rewrite bind_cons, length_app, IH, Hx. simpl. lia.
Qed.

Lemma lookup_bind_uniform {A B} (f : A → list B) (k : nat) (l : list A) q c :
  Forall (λ x, length (f x) = k) l → (c < k)%nat →
  (l ≫= f) !! (q * k + c)%nat = l !! q ≫= λ x, f x !! c.
Proof.
  intros Hl Hc. revert q. induction Hl as [|x l Hx Hl IH]; intros q; [done|].
  rewrite bind_cons. destruct q as [|q]; simpl.
  - by rewrite lookup_app_l by lia.
  - rewrite lookup_app_r by lia. rewrite <- IH. f_equal. lia.
Qed.

Lemma chunk_Forall_length {A} (k n : nat) (d : list A) :
  (n * k ≤ length d)%nat → Forall (λ r, length r = k) (chunk k n d).
Proof.
  intros Hd. apply Forall_lookup. intros r row Hrow.
  by eapply chunk_row_length.
Qed.

Lemma chunk_row_lookup {A} (k n : nat) (d : list A) q c :
  (q < n)%nat → (c < k)%nat →
  chunk k n d !! q ≫= (λ row, row !! c) = d !! (q * k + c)%nat.
Proof.
  intros Hq Hc. rewrite chunk_lookup by done. simpl.
  by rewrite lookup_take_lt, lookup_drop by done.
Qed.

(** Cutting an array into the slices along its last axis. *)
Lemma nd_rows_snoc {A} (a : ndarray A) (s : list nat) (d : nat) :
  shape a = s ++ [d] → nd_rows a = chunk d (size_of s) (data a).
Proof.
  intros Hs. unfold nd_rows. by rewrite Hs, last_snoc, removelast_last.
Qed.

Lemma ndarray_wf_snoc {A} (a : ndarray A) (s : list nat) (d : nat) :
  ndarray_wf a → shape a = s ++ [d] →
  length (data a) = (size_of s * d)%nat.
Proof. unfold ndarray_wf. intros -> ->. apply size_of_snoc. Qed.

(** ** The numpy operations on well-formed arrays *)

Lemma np_index_last_spec (a : ndarray Q) (s : list nat) (d i : nat) :
  shape a = s ++ [d] → (i < d)%nat →
  np_index_last i a
  = Some (NdArray s ((λ row, nth i row 0) <$> chunk d (size_of s) (data a))).
Proof.
  intros Hs Hi. unfold np_index_last.
  rewrite (nd_rows_snoc _ _ _ Hs), Hs, last_snoc, removelast_last.
  cbn [mbind option_bind]. by rewrite option_guard_True.
Qed.

Lemma np_slice_last_spec {A} (a : ndarray A) (s : list nat) (d lo h : nat)
    (hi : option nat) :
  shape a = s ++ [d] → (lo ≤ h ≤ d)%nat → default d hi = h →
  np_slice_last lo hi a
  = Some (NdArray (s ++ [(h - lo)%nat])
            (chunk d (size_of s) (data a) ≫= λ row, take (h - lo) (drop lo row))).
Proof.
  intros Hs Hlo Hhi. unfold np_slice_last.
  rewrite (nd_rows_snoc _ _ _ Hs), Hs, last_snoc, removelast_last.
  cbn [mbind option_bind]. rewrite Hhi.
  by rewrite (Nat.min_l h d), (Nat.min_l lo h) by lia.
Qed.

Lemma np_slice_last_wf {A} (a : ndarray A) (s : list nat) (d lo h : nat) :
  ndarray_wf a → shape a = s ++ [d] → (lo ≤ h ≤ d)%nat →
  ndarray_wf (NdArray (s ++ [(h - lo)%nat])
    (chunk d (size_of s) (data a) ≫= λ row, take (h - lo) (drop lo row))).
Proof.
  intros Hwf Hs Hlo. pose proof (ndarray_wf_snoc _ _ _ Hwf Hs) as Hlen.
  unfold ndarray_wf. simpl. rewrite size_of_snoc.
  rewrite (length_bind_uniform _ (h - lo)), chunk_length; [done|].
  eapply Forall_impl; [apply chunk_Forall_length; lia|].
  intros row Hrow. simpl in Hrow. rewrite length_take, length_drop. lia.
Qed.

Lemma np_tile_spec {A} (a : ndarray A) (s : list nat) (d reps : nat) :
  shape a = s ++ [d] →
  np_tile a reps
  = Some (NdArray (s ++ [(d * reps)%nat])
            (chunk d (size_of s) (data a) ≫= λ row, mjoin (replicate reps row))).
Proof.
  intros Hs. unfold np_tile.
  by rewrite (nd_rows_snoc _ _ _ Hs), Hs, last_snoc, removelast_last.
Qed.

Lemma length_join_replicate {A} (n : nat) (row : list A) :
  length (mjoin (replicate n row)) = (length row * n)%nat.
Proof. induction n as [|n IH]; simpl; [lia|]. rewrite length_app, IH. lia. Qed.

Lemma repeat_rows_length {A} (d n reps : nat) (dat : list A) :
  length dat = (n * d)%nat →
  length (chunk d n dat ≫= λ row, mjoin (replicate reps row))
  = (n * (d * reps))%nat.
Proof.
  intros Hlen.
  rewrite (length_bind_uniform _ (d * reps)), chunk_length; [done|].
  eapply Forall_impl; [apply chunk_Forall_length; lia|].
  intros row Hrow. simpl in Hrow. by rewrite length_join_replicate, Hrow.
Qed.

Lemma np_repeat_axis_m2_spec {A} (a : ndarray A) (s : list nat) (m d reps : nat) :
  shape a = s ++ [m; d] →
  np_repeat_axis_m2 reps a
  = Some (NdArray (s ++ [(m * reps)%nat; d])
            (chunk d (size_of (s ++ [m])) (data a)
               ≫= λ row, mjoin (replicate reps row))).
Proof.
  intros Hs. unfold np_repeat_axis_m2.
  assert (Hs' : shape a = (s ++ [m]) ++ [d]) by (by rewrite <- app_assoc).
  rewrite (nd_rows_snoc _ _ _ Hs'), Hs', last_snoc, !removelast_last, last_snoc.
  done.
Qed.

Lemma np_concatenate_last_spec {A} (a b : ndarray A) (s : list nat) (da db : nat) :
  shape a = s ++ [da] → shape b = s ++ [db] →
  np_concatenate_last a b
  = Some (NdArray (s ++ [(da + db)%nat])
            (mjoin (zip_with app (chunk da (size_of s) (data a))
                                 (chunk db (size_of s) (data b))))).
Proof.
  intros Ha Hb. unfold np_concatenate_last.
  rewrite (nd_rows_snoc _ _ _ Ha), (nd_rows_snoc _ _ _ Hb), Ha, Hb.
  rewrite !last_snoc, !removelast_last. cbn [mbind option_bind].
  by rewrite option_guard_True.
Qed.

Lemma mjoin_bind_id {A} (l : list (list A)) : mjoin l = l ≫= id.
Proof. induction l as [|x l IH]; [done|]. by rewrite bind_cons, <- IH. Qed.

Lemma zip_chunks_length {A} (da db n : nat) (a b : list A) :
  length a = (n * da)%nat → length b = (n * db)%nat →
  length (mjoin (zip_with app (chunk da n a) (chunk db n b)))
  = (n * (da + db))%nat.
Proof.
  intros Ha Hb.
  rewrite mjoin_bind_id.
  rewrite (length_bind_uniform _ (da + db)).
  - by rewrite length_zip_with, !chunk_length, Nat.min_id.
  - apply Forall_lookup. intros r row Hrow.
    apply lookup_zip_with_Some in Hrow as (ra & rb & -> & Hra & Hrb).
    unfold id. rewrite length_app.
    rewrite (chunk_row_length da n a r ra), (chunk_row_length db n b r rb);
      [done|lia|done|lia|done].
Qed.

Lemma zip_chunks_lookup {A} (da db n : nat) (a b : list A) q c :
  length a = (n * da)%nat → length b = (n * db)%nat →
  (q < n)%nat → (c < da + db)%nat →
  mjoin (zip_with app (chunk da n a) (chunk db n b)) !! (q * (da + db) + c)%nat
  = if decide (c < da)%nat then a !! (q * da + c)%nat
    else b !! (q * db + (c - da))%nat.
Proof.
  intros Ha Hb Hq Hc.
  rewrite mjoin_bind_id.
  rewrite (lookup_bind_uniform _ (da + db)); [| |done].
  - rewrite lookup_zip_with, !chunk_lookup by done. simpl. unfold id.
    case_decide.
    + rewrite lookup_app_l by (rewrite length_take, length_drop; nia).
      by rewrite lookup_take_lt, lookup_drop.
    + rewrite lookup_app_r by (rewrite length_take, length_drop; nia).
      rewrite length_take, length_drop.
      replace (da `min` (length a - q * da))%nat with da by nia.
      by rewrite lookup_take_lt, lookup_drop by lia.
  - apply Forall_lookup. intros r row Hrow.
    apply lookup_zip_with_Some in Hrow as (ra & rb & -> & Hra & Hrb).
    unfold id. rewrite length_app.
    rewrite (chunk_row_length da n a r ra), (chunk_row_length db n b r rb);
      [done|lia|done|lia|done].
Qed.

(** ** Decoding *)

Lemma lookup_join_replicate {A} (reps : nat) (row : list A) r c :
  (r < reps)%nat → (c < length row)%nat →
  mjoin (replicate reps row) !! (r * length row + c)%nat = row !! c.
Proof.
  intros Hr Hc. rewrite mjoin_bind_id.
  rewrite (lookup_bind_uniform _ (length row)); [| |done].
  - by rewrite lookup_replicate_2.
  - by apply Forall_replicate.
Qed.

(** Laying every slice out [reps] times ([tile] and [repeat]). *)
Lemma repeat_rows_lookup {A} (d n reps : nat) (dat : list A) q r c :
  (n * d ≤ length dat)%nat → (q < n)%nat → (r < reps)%nat → (c < d)%nat →
  (chunk d n dat ≫= λ row, mjoin (replicate reps row))
    !! ((q * reps + r) * d + c)%nat
  = dat !! (q * d + c)%nat.
Proof.
  intros Hlen Hq Hr Hc.
  replace ((q * reps + r) * d + c)%nat with (q * (d * reps) + (r * d + c))%nat
    by lia.
  rewrite (lookup_bind_uniform _ (d * reps)); [| |nia].
  - rewrite chunk_lookup by done. simpl.
    assert (Hrow : length (take d (drop (q * d) dat)) = d).
    { rewrite length_take, length_drop. nia. }
    rewrite <- (lookup_drop dat).
    rewrite <- (lookup_take_lt (drop (q * d) dat) d c) by done.
    set (row := take d (drop (q * d) dat)) in *.
    replace (r * d + c)%nat with (r * length row + c)%nat by (by rewrite Hrow).
    apply lookup_join_replicate; lia.
  - eapply Forall_impl; [by apply chunk_Forall_length|].
    intros row Hrow. simpl in Hrow. by rewrite length_join_replicate, Hrow.
Qed.

Lemma process_grid_spec (g : nat) :
  (0 < g)%nat →
  ∃ grid,
    process_grid g g = Some (NdArray [g; g; 3; 2]%nat grid)
    ∧ length grid = (g * g * 3 * 2)%nat
    ∧ ∀ i j a, (i < g)%nat → (j < g)%nat → (a < 3)%nat →
        grid !! (((i * g + j) * 3 + a) * 2)%nat = Some (Z.of_nat j)
        ∧ grid !! (((i * g + j) * 3 + a) * 2 + 1)%nat = Some (Z.of_nat i).
Proof.
  intros Hg. unfold process_grid.
  change (np_arange g) with (NdArray [g] (Z.of_nat <$> seq 0 g)).
  set (ar := Z.of_nat <$> seq 0 g).
  assert (Har : length ar = g) by (unfold ar; by rewrite length_fmap, length_seq).
  set (colflat := chunk g 1 ar ≫= λ row, mjoin (replicate g row)).
  set (rowflat := chunk 1 g ar ≫= λ row, mjoin (replicate g row)).
  assert (Hcl : length colflat = (g * g)%nat).
  { unfold colflat. rewrite (repeat_rows_length g 1 g) by lia. lia. }
  assert (Hrl : length rowflat = (g * g)%nat).
  { unfold rowflat. rewrite (repeat_rows_length 1 g g) by lia. lia. }
  assert (Hcol : np_tile (NdArray [g] ar) g ≫= (λ t, np_reshape t [None; Some g])
                 = Some (NdArray [g; g] colflat)).
  { rewrite (np_tile_spec _ [] g g) by done.
    cbn [mbind option_bind data app size_of foldr].
    rewrite np_reshape_rows. cbn [data]. fold colflat. rewrite Hcl.
    rewrite decide_True by (split; [done|apply Nat.Div0.mod_mul]).
    by rewrite Nat.div_mul by lia. }
  assert (Hrow : np_reshape (NdArray [g] ar) [None; Some 1%nat]
                   ≫= (λ t, np_tile t g)
                 = Some (NdArray [g; g] rowflat)).
  { rewrite np_reshape_rows. cbn [data]. rewrite Har.
    rewrite decide_True by (split; [lia|apply Nat.mod_1_r]).
    rewrite Nat.div_1_r. cbn [mbind option_bind].
    rewrite (np_tile_spec _ [g] 1 g) by done.
    cbn [data app size_of foldr]. rewrite Nat.mul_1_r, Nat.mul_1_l. done. }
  assert (Hrep : ∀ flat : list Z, length flat = (g * g)%nat →
    np_reshape (NdArray [g; g] flat) [Some g; Some g; Some 1%nat; Some 1%nat]
      ≫= np_repeat_axis_m2 3
    = Some (NdArray [g; g; 3; 1]%nat
              (chunk 1 (g * g) flat ≫= λ row, mjoin (replicate 3 row)))).
  { intros flat Hflat.
    rewrite (np_reshape_full _ [g; g; 1; 1]%nat). cbn [data].
    rewrite decide_True by (simpl; lia). cbn [mbind option_bind].
    rewrite (np_repeat_axis_m2_spec _ [g; g] 1 1 3) by done.
    cbn [data].
    replace (size_of ([g; g] ++ [1%nat])) with (g * g)%nat by (simpl; lia).
    done. }
  rewrite Hcol. cbn [mbind option_bind]. rewrite Hrow. cbn [mbind option_bind].
  rewrite !Hrep by done. cbn [mbind option_bind].
  set (col3 := chunk 1 (g * g) colflat ≫= λ row, mjoin (replicate 3 row)).
  set (row3 := chunk 1 (g * g) rowflat ≫= λ row, mjoin (replicate 3 row)).
  assert (Hc3 : length col3 = (g * g * 3 * 1)%nat).
  { unfold col3. rewrite (repeat_rows_length 1 (g * g) 3) by lia. lia. }
  assert (Hr3 : length row3 = (g * g * 3 * 1)%nat).
  { unfold row3. rewrite (repeat_rows_length 1 (g * g) 3) by lia. lia. }
  rewrite (np_concatenate_last_spec _ _ [g; g; 3]%nat 1 1) by done.
  cbn [data].
  assert (Hsz : size_of [g; g; 3%nat] = (g * g * 3)%nat) by (simpl; lia).
  rewrite Hsz. eexists. split_and!; [done| |].
  - rewrite (zip_chunks_length 1 1 (g * g * 3)) by done. lia.
  - intros i j a Hi Hj Ha.
    assert (Hq : ((i * g + j) * 3 + a < g * g * 3)%nat) by nia.
    assert (Hcol3 : col3 !! ((i * g + j) * 3 + a)%nat = Some (Z.of_nat j)).
    { unfold col3.
      replace ((i * g + j) * 3 + a)%nat with (((i * g + j) * 3 + a) * 1 + 0)%nat
        by lia.
      rewrite repeat_rows_lookup by (lia || nia).
      unfold colflat.
      replace ((i * g + j) * 1 + 0)%nat with ((0 * g + i) * g + j)%nat by lia.
      rewrite repeat_rows_lookup by lia.
      unfold ar. rewrite list_lookup_fmap, lookup_seq_lt by lia. done. }
    assert (Hrow3 : row3 !! ((i * g + j) * 3 + a)%nat = Some (Z.of_nat i)).
    { unfold row3.
      replace ((i * g + j) * 3 + a)%nat with (((i * g + j) * 3 + a) * 1 + 0)%nat
        by lia.
      rewrite repeat_rows_lookup by (lia || nia).
      unfold rowflat.
      replace ((i * g + j) * 1 + 0)%nat with ((i * g + j) * 1 + 0)%nat by lia.
      rewrite repeat_rows_lookup by lia.
      unfold ar. rewrite list_lookup_fmap, lookup_seq_lt by lia.
      simpl. do 2 f_equal. lia. }
    split.
    + replace (((i * g + j) * 3 + a) * 2)%nat
        with (((i * g + j) * 3 + a) * (1 + 1) + 0)%nat by lia.
      rewrite zip_chunks_lookup by (done || lia).
      rewrite decide_True by lia. rewrite <- Hcol3. f_equal. lia.
    + replace (((i * g + j) * 3 + a) * 2 + 1)%nat
        with (((i * g + j) * 3 + a) * (1 + 1) + 1)%nat by lia.
      rewrite zip_chunks_lookup by (done || lia).
      rewrite decide_False by lia. rewrite <- Hrow3. f_equal. lia.
Qed.

Lemma lookup_nth {A} (l : list A) (i : nat) (d : A) :
  (i < length l)%nat → l !! i = Some (nth i l d).
Proof.
  intros Hi. destruct (lookup_lt_is_Some_2 l i Hi) as [v Hv].
  by rewrite nth_lookup, Hv.
Qed.

(** [a[..., lo:lo+w]] element by element. *)
Lemma slice_rows_lookup {A} (d n lo w : nat) (dat : list A) q c :
  (n * d ≤ length dat)%nat → (q < n)%nat → (c < w)%nat → (lo + w ≤ d)%nat →
  (chunk d n dat ≫= λ row, take w (drop lo row)) !! (q * w + c)%nat
  = dat !! (q * d + lo + c)%nat.
Proof.
  intros Hlen Hq Hc Hlo.
  rewrite (lookup_bind_uniform _ w); [| |done].
  - rewrite chunk_lookup by done. simpl.
    rewrite lookup_take_lt, lookup_drop, lookup_take_lt, lookup_drop by lia.
    f_equal. lia.
  - eapply Forall_impl; [by apply chunk_Forall_length|].
    intros row Hrow. simpl in Hrow. rewrite length_take, length_drop. lia.
Qed.

Lemma slice_rows_length {A} (d n lo w : nat) (dat : list A) :
  (n * d ≤ length dat)%nat → (lo + w ≤ d)%nat →
  length (chunk d n dat ≫= λ row, take w (drop lo row)) = (n * w)%nat.
Proof.
  intros Hlen Hlo. rewrite (length_bind_uniform _ w), chunk_length; [done|].
  eapply Forall_impl; [by apply chunk_Forall_length|].
  intros row Hrow. simpl in Hrow. rewrite length_take, length_drop. lia.
Qed.

Section Process_facts.
Variable cfg : config.

Lemma process_spec input mask anchors g k aw0 ah0 aw1 ah1 aw2 ah2 :
  scale_tensor g k input →
  mapM (λ i, anchors !! i) mask = Some [[aw0; ah0]; [aw1; ah1]; [aw2; ah2]] →
  ∃ box,
    process cfg input mask anchors
    = Some (box,
            NdArray [g; g; 3; 1]%nat
              (sigmoid <$> ((λ row, nth 4 row 0) <$> chunk k (g * g * 3) (data input))),
            NdArray [g; g; 3; k - 5]%nat
              (sigmoid <$> (chunk k (g * g * 3) (data input)
                              ≫= λ row, take (k - 5) (drop 5 row))))
    ∧ shape box = [g; g; 3; 4]%nat
    ∧ length (data box) = (g * g * 3 * 4)%nat
    ∧ ∀ i j a, (i < g)%nat → (j < g)%nat → (a < 3)%nat →
        let n := ((i * g + j) * 3 + a)%nat in
        let raw c := nth (n * k + c) (data input) 0 in
        let stride := inject_Z (Z.quot (net_size cfg) (Z.of_nat g)) in
        data box !! (n * 4)%nat
          = Some ((sigmoid (raw 0%nat) * 2 - 0.5 + inject_Z (Z.of_nat j)) * stride)
        ∧ data box !! (n * 4 + 1)%nat
          = Some ((sigmoid (raw 1%nat) * 2 - 0.5 + inject_Z (Z.of_nat i)) * stride)
        ∧ data box !! (n * 4 + 2)%nat
          = Some ((sigmoid (raw 2%nat) * 2) ^ 2 * nth a [aw0; aw1; aw2] 0)
        ∧ data box !! (n * 4 + 3)%nat
          = Some ((sigmoid (raw 3%nat) * 2) ^ 2 * nth a [ah0; ah1; ah2] 0).
Proof.
  intros (Hshape & Hg & Hk & Hwf) Hsel.
  assert (Hs : shape input = [g; g; 3%nat] ++ [k]) by done.
  assert (Hsz : size_of [g; g; 3%nat] = (g * g * 3)%nat) by (simpl; lia).
  pose proof (ndarray_wf_snoc _ _ _ Hwf Hs) as Hlen. rewrite Hsz in Hlen.
  destruct (process_grid_spec g Hg) as (grid & Hgrid & Hgl & Hgrid_at).
  unfold process. rewrite Hsel. cbn [mbind option_bind].
  rewrite Hshape. cbn [lookup list_lookup mbind option_bind].
  rewrite (np_index_last_spec input _ _ 4 Hs) by lia.
  rewrite (np_slice_last_spec input _ k 5 k None Hs) by (done || lia).
  rewrite (np_slice_last_spec input _ k 0 2 (Some 2%nat) Hs) by (done || lia).
  rewrite (np_slice_last_spec input _ k 2 4 (Some 4%nat) Hs) by (done || lia).
  rewrite Hsz, Hgrid.
  cbn [fmap option_fmap option_map mbind option_bind].
  set (cells := chunk k (g * g * 3) (data input)).
  unfold np_iadd, np_map at 1. cbn [shape data].
  rewrite option_guard_True by reflexivity. cbn [mbind option_bind].
  unfold py_int_div. rewrite option_guard_True by lia. cbn [mbind option_bind].
  unfold np_array2. cbn [head default length].
  rewrite option_guard_True by (repeat constructor). cbn [mbind option_bind].
  unfold np_mul_trailing, np_map. cbn [shape data].
  rewrite option_guard_True by reflexivity. cbn [mbind option_bind].
  unfold np_expand_dims_last. cbn [shape data app].
  change (2 - 0)%nat with 2%nat. change (4 - 2)%nat with 2%nat.
  set (N := (g * g * 3)%nat) in *.
  set (xy0 := cells ≫= λ row, take 2 (drop 0 row)).
  set (wh0 := cells ≫= λ row, take 2 (drop 2 row)).
  assert (Hxy0 : length xy0 = (N * 2)%nat).
  { apply slice_rows_length; lia. }
  assert (Hwh0 : length wh0 = (N * 2)%nat).
  { apply slice_rows_length; lia. }
  change (mjoin [[aw0; ah0]; [aw1; ah1]; [aw2; ah2]])
    with [aw0; ah0; aw1; ah1; aw2; ah2].
  rewrite length_fmap, Hwh0. cbn [length].
  replace ((N * 2) `div` 6)%nat with (g * g)%nat
    by (apply Nat.div_unique_exact; unfold N; lia).
  set (anch := mjoin (replicate (g * g) [aw0; ah0; aw1; ah1; aw2; ah2])).
  assert (Hanch : length anch = (N * 2)%nat).
  { unfold anch. rewrite length_join_replicate. simpl. lia. }
  set (xy := (λ v, v * inject_Z (net_size cfg `quot` Z.of_nat g)) <$> _).
  set (wh := zip_with Qmult _ anch).
  assert (Hxy : length xy = (N * 2)%nat).
  { unfold xy. rewrite length_fmap, length_zip_with, length_fmap. lia. }
  assert (Hwh : length wh = (N * 2)%nat).
  { unfold wh. rewrite length_zip_with, length_fmap. lia. }
  rewrite (np_concatenate_last_spec _ _ [g; g; 3]%nat 2 2) by done.
  cbn [mbind option_bind data]. rewrite Hsz. fold N.
  eexists. split_and!; [done|done| |].
  { cbn [data]. rewrite (zip_chunks_length 2 2 N) by done. lia. }
  cbn [data]. intros i j a Hi Hj Ha.
  set (n := ((i * g + j) * 3 + a)%nat).
  assert (Hn : (n < N)%nat) by (unfold n, N; nia).
  assert (Hxy_at : ∀ c z, (c < 2)%nat → grid !! (n * 2 + c)%nat = Some z →
    xy !! (n * 2 + c)%nat
    = Some ((sigmoid (nth (n * k + c) (data input) 0) * 2 - 0.5 + inject_Z z)
            * inject_Z (net_size cfg `quot` Z.of_nat g))).
  { intros c z Hc Hz. unfold xy.
    rewrite list_lookup_fmap, lookup_zip_with, list_lookup_fmap.
    unfold xy0, cells. rewrite slice_rows_lookup by lia.
    rewrite Nat.add_0_r, (lookup_nth _ _ 0) by nia.
    by rewrite Hz. }
  assert (Hwh_at : ∀ c, (c < 2)%nat →
    wh !! (n * 2 + c)%nat
    = Some ((sigmoid (nth (n * k + 2 + c) (data input) 0) * 2) ^ 2
            * nth (a * 2 + c) [aw0; ah0; aw1; ah1; aw2; ah2] 0)).
  { intros c Hc.
    assert (Hd : data input !! (n * k + 2 + c)%nat
                 = Some (nth (n * k + 2 + c) (data input) 0))
      by (apply lookup_nth; nia).
    assert (Han : anch !! (n * 2 + c)%nat
                  = Some (nth (a * 2 + c) [aw0; ah0; aw1; ah1; aw2; ah2] 0)).
    { unfold anch.
      replace (n * 2 + c)%nat
        with ((i * g + j) * length [aw0; ah0; aw1; ah1; aw2; ah2] + (a * 2 + c))%nat
        by (unfold n; simpl; lia).
      rewrite lookup_join_replicate by (simpl; nia).
      apply lookup_nth. simpl. lia. }
    unfold wh. rewrite lookup_zip_with, list_lookup_fmap.
    unfold wh0, cells. rewrite slice_rows_lookup by lia.
    by rewrite Hd, Han. }
  destruct (Hgrid_at i j a Hi Hj Ha) as [Hgc Hgr]. fold n in Hgc, Hgr.
  split_and!.
  - replace (n * 4)%nat with (n * (2 + 2) + 0)%nat by lia.
    rewrite zip_chunks_lookup by (done || lia). rewrite decide_True by lia.
    apply Hxy_at; [lia|]. by rewrite Nat.add_0_r.
  - replace (n * 4 + 1)%nat with (n * (2 + 2) + 1)%nat by lia.
    rewrite zip_chunks_lookup by (done || lia). rewrite decide_True by lia.
    by apply Hxy_at; [lia|].
  - replace (n * 4 + 2)%nat with (n * (2 + 2) + 2)%nat by lia.
    rewrite zip_chunks_lookup by (done || lia). rewrite decide_False by lia.
    change (2 - 2)%nat with 0%nat. rewrite (Hwh_at 0%nat) by lia.
    rewrite !Nat.add_0_r.
    by destruct a as [|[|[|a]]]; [..|lia].
  - replace (n * 4 + 3)%nat with (n * (2 + 2) + 3)%nat by lia.
    rewrite zip_chunks_lookup by (done || lia). rewrite decide_False by lia.
    change (3 - 2)%nat with 1%nat. rewrite (Hwh_at 1%nat) by lia.
    replace (n * k + 2 + 1)%nat with (n * k + 3)%nat by lia.
    by destruct a as [|[|[|a]]]; [..|lia].
Qed.
Lemma at4_nth (a : ndarray Q) (d0 d1 d2 d3 i j c e : nat) :
  shape a = [d0; d1; d2; d3] →
  at4 a i j c e = nth (((i * d1 + j) * d2 + c) * d3 + e) (data a) 0.
Proof. intros Hs. unfold at4. by rewrite Hs. Qed.

(** C1 (amended): on a square grid, [process] decodes the centre as
    [(sigmoid(raw_xy) * 2 - 0.5 + cell offset) * int(net_size / grid_h)],
    the size as [(sigmoid(raw_wh) * 2) ^ 2 * anchor], the objectness as
    [sigmoid(raw_obj)] and the class probabilities as
    [sigmoid(raw_class)], where [sigmoid] is the identity. *)
Theorem process_decodes input mask anchors g k aw0 ah0 aw1 ah1 aw2 ah2 :
  scale_tensor g k input →
  mapM (λ i, anchors !! i) mask = Some [[aw0; ah0]; [aw1; ah1]; [aw2; ah2]] →
  (∀ x, sigmoid x = x)
  ∧ ∃ box box_confidence box_class_probs,
      process cfg input mask anchors
      = Some (box, box_confidence, box_class_probs)
      ∧ ∀ i j a, (i < g)%nat → (j < g)%nat → (a < 3)%nat →
          let stride := inject_Z (Z.quot (net_size cfg) (Z.of_nat g)) in
          at4 box i j a 0
          = (sigmoid (at4 input i j a 0) * 2 - 0.5 + inject_Z (Z.of_nat j)) * stride
          ∧ at4 box i j a 1
            = (sigmoid (at4 input i j a 1) * 2 - 0.5 + inject_Z (Z.of_nat i)) * stride
          ∧ at4 box i j a 2
            = (sigmoid (at4 input i j a 2) * 2) ^ 2 * nth a [aw0; aw1; aw2] 0
          ∧ at4 box i j a 3
            = (sigmoid (at4 input i j a 3) * 2) ^ 2 * nth a [ah0; ah1; ah2] 0
          ∧ at4 box_confidence i j a 0 = sigmoid (at4 input i j a 4)
          ∧ ∀ c, (c < k - 5)%nat →
              at4 box_class_probs i j a c = sigmoid (at4 input i j a (5 + c)).
Proof.
  intros Hin Hsel. split; [done|].
  destruct (process_spec _ _ _ _ _ _ _ _ _ _ _ Hin Hsel)
    as (box & Hp & Hbs & Hbl & Hbox).
  destruct Hin as (Hshape & Hg & Hk & Hwf).
  assert (Hlen : length (data input) = (g * g * 3 * k)%nat).
  { red in Hwf. rewrite Hwf, Hshape. simpl. lia. }
  eexists _, _, _. split; [done|]. intros i j a Hi Hj Ha stride.
  destruct (Hbox i j a Hi Hj Ha) as (H0 & H1 & H2 & H3).
  set (n := ((i * g + j) * 3 + a)%nat) in *.
  assert (Hn : (n < g * g * 3)%nat) by (unfold n; nia).
  cbv zeta in H0, H1, H2, H3.
  rewrite !(at4_nth box _ _ _ _ _ _ _ _ Hbs).
  rewrite !(at4_nth input _ _ _ _ _ _ _ _ Hshape). fold n.
  rewrite (at4_nth _ g g 3 1)%nat by done. fold n.
  replace (n * 4 + 0)%nat with (n * 4)%nat by lia.
  split_and!.
  - by apply nth_lookup_Some.
  - by apply nth_lookup_Some.
  - by apply nth_lookup_Some.
  - by apply nth_lookup_Some.
  - cbn [data]. apply nth_lookup_Some.
    rewrite !list_lookup_fmap, Nat.mul_1_r, Nat.add_0_r, chunk_lookup by done.
    simpl. f_equal. f_equal. rewrite !nth_lookup.
    by rewrite lookup_take_lt, lookup_drop by lia.
  - intros c Hc. rewrite (at4_nth _ g g 3 (k - 5))%nat by done. fold n.
    rewrite (at4_nth input _ _ _ _ _ _ _ _ Hshape). fold n.
    cbn [data]. rewrite !nth_lookup, list_lookup_fmap.
    rewrite slice_rows_lookup by lia.
    rewrite Nat.add_assoc. by destruct (data input !! _).
Qed.
End Process_facts.

(** ** The detection pipeline *)

Section Filter_total.
Variable cfg : config.

Lemma filter_boxes_total boxes confs probs n kc :
  length (data boxes) = (n * 4)%nat →
  length (data confs) = n →
  last (shape probs) = Some kc → (0 < kc)%nat →
  length (data probs) = (n * kc)%nat →
  is_Some (filter_boxes cfg boxes confs probs).
Proof.
  intros Hb Hc Hk Hkc Hp. unfold filter_boxes.
  rewrite np_reshape_flat, np_reshape_rows, Hb.
  rewrite decide_True by (split; [lia|apply Nat.Div0.mod_mul]).
  rewrite Nat.div_mul by lia.
  cbn [fmap option_fmap option_map mbind option_bind data].
  rewrite Hk. cbn [mbind option_bind].
  rewrite np_reshape_rows, Hp.
  rewrite decide_True by (split; [lia|apply Nat.Div0.mod_mul]).
  rewrite Nat.div_mul by lia.
  cbn [fmap option_fmap option_map mbind option_bind data].
  rewrite !nd_rows_2d.
  set (pos1 := np_where (Qle_bool (obj_thresh cfg) <$> data confs)).
  assert (Hpos1 : Forall (λ i, i < n)%nat pos1).
  { pose proof (np_where_in_range (Qle_bool (obj_thresh cfg) <$> data confs)) as Hr.
    by rewrite length_fmap, Hc in Hr. }
  rewrite (np_take_total _ pos1 (Row4 0 0 0 0))
    by (by rewrite length_fmap, chunk_length).
  rewrite (np_take_total _ pos1 0) by (by rewrite Hc).
  rewrite (np_take_total _ pos1 []) by (by rewrite chunk_length).
  cbn [mbind option_bind].
  set (probs1 := (λ i, nth i (chunk kc n (data probs)) []) <$> pos1).
  assert (Hrows : Forall (λ row, row ≠ []) probs1).
  { apply Forall_fmap. eapply Forall_impl; [exact Hpos1|]. intros i Hi. simpl.
    simpl in Hi. rewrite nth_lookup, chunk_lookup by done. simpl.
    intros Hnil. apply (f_equal length) in Hnil.
    rewrite length_take, length_drop in Hnil. simpl in Hnil.
    assert (i * kc + kc ≤ n * kc)%nat by nia. lia. }
  destruct (mapM_total np_max probs1) as [cms Hcms].
  { eapply Forall_impl; [exact Hrows|]. apply np_max_is_Some. }
  destruct (mapM_total np_argmax probs1) as [cls Hcls].
  { eapply Forall_impl; [exact Hrows|]. apply np_argmax_is_Some. }
  rewrite Hcms, Hcls. cbn [mbind option_bind].
  pose proof (length_mapM _ _ _ Hcms) as Hlcms.
  pose proof (length_mapM _ _ _ Hcls) as Hlcls.
  unfold probs1 in Hlcms, Hlcls. rewrite length_fmap in Hlcms, Hlcls.
  set (pos2 := np_where (Qle_bool (obj_thresh cfg) <$> cms)).
  assert (Hpos2 : Forall (λ i, i < length pos1)%nat pos2).
  { pose proof (np_where_in_range (Qle_bool (obj_thresh cfg) <$> cms)) as Hr.
    by rewrite length_fmap, <- Hlcms in Hr. }
  rewrite (np_take_total _ pos2 (Row4 0 0 0 0)) by (by rewrite length_fmap).
  rewrite (np_take_total _ pos2 0%nat) by (by rewrite <- Hlcls).
  rewrite (np_take_total _ pos2 0)
    by (by rewrite length_zip_with, length_fmap, <- Hlcms, Nat.min_id).
  by eexists.
Qed.
End Filter_total.

Lemma sigmoid_fmap (l : list Q) : sigmoid <$> l = l.
Proof. apply list_fmap_id. Qed.

(** The slice of a row-wise built array that belongs to row [q]. *)
Lemma bind_uniform_row {A B} (f : A → list B) (k : nat) (l : list A) q x :
  Forall (λ x, length (f x) = k) l → l !! q = Some x →
  take k (drop (q * k) (l ≫= f)) = f x.
Proof.
  intros Hl. revert q. induction Hl as [|y l Hy Hl IH]; intros q Hq; [done|].
  rewrite bind_cons. destruct q as [|q].
  - injection Hq as ->. rewrite Nat.mul_0_l, drop_0.
    by rewrite take_app_length'.
  - replace (S q * k)%nat with (k + q * k)%nat by lia.
    rewrite drop_app_add' by done. by apply IH.
Qed.

Lemma masks_select (mask : list nat) :
  mask ∈ masks →
  ∃ aw0 ah0 aw1 ah1 aw2 ah2,
    mapM (λ i, anchors !! i) mask = Some [[aw0; ah0]; [aw1; ah1]; [aw2; ah2]].
Proof.
  unfold masks. rewrite !elem_of_cons, elem_of_nil.
  intros [->|[->|[->|[]]]]; by eexists _, _, _, _, _, _.
Qed.

Section Scale_facts.
Variable cfg : config.

Lemma decode_filter_scale_total input mask g k :
  scale_tensor g k input → (6 ≤ k)%nat → mask ∈ masks →
  is_Some (decode_filter_scale cfg input mask).
Proof.
  intros Hin Hk (aw0 & ah0 & aw1 & ah1 & aw2 & ah2 & Hsel)%masks_select.
  destruct (process_spec cfg _ _ _ _ _ _ _ _ _ _ _ Hin Hsel)
    as (box & Hp & Hbs & Hbl & _).
  destruct Hin as (Hshape & Hg & _ & Hwf).
  assert (Hlen : length (data input) = (g * g * 3 * k)%nat).
  { red in Hwf. rewrite Hwf, Hshape. simpl. lia. }
  unfold decode_filter_scale. rewrite Hp. cbn [mbind option_bind].
  apply (filter_boxes_total cfg _ _ _ (g * g * 3) (k - 5)); cbn [data shape].
  - done.
  - by rewrite !length_fmap, chunk_length.
  - done.
  - lia.
  - rewrite length_fmap. apply slice_rows_length; lia.
Qed.

(** Every entry that survives the filter of one scale is one anchor
    of one grid cell of the raw tensor. *)
Lemma decode_filter_scale_entries input mask g k b c s :
  scale_tensor g k input → mask ∈ masks →
  decode_filter_scale cfg input mask = Some (b, c, s) →
  length b = length s ∧ length c = length s
  ∧ ∀ p score, s !! p = Some score →
      ∃ n cell objectness class_prob,
        chunk k (g * g * 3) (data input) !! n = Some cell
        ∧ objectness = sigmoid (nth 4 cell 0)
        ∧ np_max (sigmoid <$> drop 5 cell) = Some class_prob
        ∧ obj_thresh cfg <= objectness
        ∧ obj_thresh cfg <= class_prob
        ∧ score = class_prob * objectness.
Proof.
  intros Hin (aw0 & ah0 & aw1 & ah1 & aw2 & ah2 & Hsel)%masks_select.
  destruct (process_spec cfg _ _ _ _ _ _ _ _ _ _ _ Hin Hsel)
    as (box & Hp & _).
  destruct Hin as (Hshape & Hg & Hk & Hwf).
  assert (Hlen : length (data input) = (g * g * 3 * k)%nat).
  { red in Hwf. rewrite Hwf, Hshape. simpl. lia. }
  unfold decode_filter_scale. rewrite Hp. cbn [mbind option_bind].
  intros (Hlb & Hlc & kc & Hkc & Hent)%filter_boxes_entries.
  cbn [shape data] in Hkc, Hent. simplify_eq/=.
  split_and!; [done..|]. intros p score Hscore.
  destruct (Hent p score Hscore)
    as (n & conf & row & m & cl & Hn & -> & Hmax & _ & Hle1 & Hle2 & -> & _).
  rewrite !list_lookup_fmap in Hn.
  destruct (chunk k (g * g * 3) (data input) !! n) as [cell|] eqn:Hcell;
    [|done].
  simplify_eq/=.
  exists n, cell, (sigmoid (nth 4 cell 0)), m. split_and!; try done.
  rewrite sigmoid_fmap in Hmax |- *.
  erewrite bind_uniform_row in Hmax; [| |done].
  - rewrite take_ge in Hmax; [done|].
    rewrite length_drop, (chunk_row_length k (g * g * 3) (data input) n cell);
      [lia|lia|done].
  - eapply Forall_impl; [apply chunk_Forall_length; lia|].
    intros r Hr. simpl in Hr. rewrite length_take, length_drop. lia.
Qed.

(** When no objectness of the tensor reaches the threshold the scale
    contributes nothing. *)
Lemma decode_filter_scale_below input mask g k :
  scale_tensor g k input → (6 ≤ k)%nat → mask ∈ masks →
  (∀ i j a, (i < g)%nat → (j < g)%nat → (a < 3)%nat →
     at4 input i j a 4 < obj_thresh cfg) →
  decode_filter_scale cfg input mask = Some ([], [], []).
Proof.
  intros Hin Hk Hmask Hlow.
  destruct (decode_filter_scale_total _ _ _ _ Hin Hk Hmask) as [[[b c] s] Hf].
  destruct (decode_filter_scale_entries _ _ _ _ _ _ _ Hin Hmask Hf)
    as (Hlb & Hlc & Hent).
  destruct s as [|score s]; [by destruct b, c|].
  destruct (Hent 0%nat score eq_refl)
    as (n & cell & objectness & _ & Hcell & -> & _ & Hle & _).
  destruct Hin as (Hshape & Hg & _ & Hwf).
  assert (Hlen : length (data input) = (g * g * 3 * k)%nat).
  { red in Hwf. rewrite Hwf, Hshape. simpl. lia. }
  apply chunk_lookup_Some in Hcell as [Hn ->].
  exfalso. apply (Qlt_not_le _ _ (Hlow (n / 3 / g) ((n / 3) mod g) (n mod 3)
    ltac:(apply Nat.Div0.div_lt_upper_bound, Nat.Div0.div_lt_upper_bound; lia)
    ltac:(apply Nat.mod_upper_bound; lia)
    ltac:(apply Nat.mod_upper_bound; lia)))%nat.
  rewrite (at4_nth _ _ _ _ _ _ _ _ _ Hshape).
  replace (((n / 3 / g * g + (n / 3) mod g) * 3 + n mod 3))%nat with n.
  - unfold sigmoid in Hle.
    rewrite nth_lookup, lookup_take_lt, lookup_drop in Hle by lia.
    by rewrite nth_lookup.
  - pose proof (Nat.div_mod_eq n 3). pose proof (Nat.div_mod_eq (n / 3) g).
    lia.
Qed.
End Scale_facts.

Section Suppress_facts.
Variable cfg : config.
Variable argsort : list Q → list nat.
Hypothesis argsort_spec : is_argsort argsort.

Lemma np_take_subseteq {A} (a : list A) (idx : list nat) (r : list A) :
  np_take a idx = Some r → r ⊆ a.
Proof.
  intros [_ Hr]%np_take_lookup x [p Hp]%list_elem_of_lookup_1.
  destruct (Hr p x Hp) as (i & _ & Hi). by eapply list_elem_of_lookup_2.
Qed.

Lemma suppress_class_spec boxes classes scores cl :
  length boxes = length classes → length scores = length classes →
  cl ∈ classes →
  ∃ nb nc ns,
    suppress_class cfg argsort boxes classes scores cl = Some (nb, nc, ns)
    ∧ length nb = length ns ∧ length nc = length ns
    ∧ (0 < length ns)%nat ∧ ns ⊆ scores.
Proof.
  intros Hlb Hls Hcl. unfold suppress_class.
  set (inds := np_where ((λ c', bool_decide (c' = cl)) <$> classes)).
  assert (Hinds : Forall (λ i, i < length classes)%nat inds).
  { pose proof (np_where_in_range ((λ c', bool_decide (c' = cl)) <$> classes)) as Hr.
    by rewrite length_fmap in Hr. }
  assert (Hne : inds ≠ []).
  { apply list_elem_of_lookup_1 in Hcl as [i Hi].
    assert (i ∈ inds) as Hin; [|by intros Heq; rewrite Heq in Hin; inversion Hin].
    apply elem_of_np_where. rewrite list_lookup_fmap, Hi. simpl.
    by rewrite bool_decide_eq_true_2. }
  pose proof (np_take_total boxes inds (Row4 0 0 0 0) ltac:(by rewrite Hlb)) as Hb.
  pose proof (np_take_total classes inds 0%nat Hinds) as Hc.
  pose proof (np_take_total scores inds 0 ltac:(by rewrite Hls)) as Hs.
  rewrite Hb, Hc, Hs. cbn [mbind option_bind].
  set (b := (λ i, nth i boxes (Row4 0 0 0 0)) <$> inds) in *.
  set (c := (λ i, nth i classes 0%nat) <$> inds) in *.
  set (s := (λ i, nth i scores 0) <$> inds) in *.
  assert (Hbs : length b = length s) by (unfold b, s; by rewrite !length_fmap).
  destruct (nms_boxes_keep cfg argsort argsort_spec b s Hbs)
    as (keep & Hkeep & _ & Hrange & Hkne & _).
  rewrite Hkeep. cbn [mbind option_bind].
  pose proof (np_take_total b keep (Row4 0 0 0 0) Hrange) as Hnb.
  assert (Hbc : length b = length c) by (unfold b, c; by rewrite !length_fmap).
  pose proof (np_take_total c keep 0%nat ltac:(by rewrite <- Hbc)) as Hnc.
  pose proof (np_take_total s keep 0 ltac:(by rewrite <- Hbs)) as Hns.
  rewrite Hnb, Hnc, Hns. cbn [mbind option_bind].
  eexists _, _, _. split; [done|]. rewrite !length_fmap.
  split_and!; [done..| |].
  - assert (keep ≠ []) as Hk; [|by destruct keep; simpl; [|lia]].
    apply Hkne. unfold b. by destruct inds.
  - etrans; [by eapply np_take_subseteq|]. by eapply np_take_subseteq.
Qed.

Lemma mjoin_triples_length {A B C} (kept : list (list A * list B * list C)) :
  Forall (λ r, length r.1.1 = length r.2 ∧ length r.1.2 = length r.2) kept →
  length (mjoin (kept.*1.*1)) = length (mjoin (kept.*2))
  ∧ length (mjoin (kept.*1.*2)) = length (mjoin (kept.*2)).
Proof.
  induction 1 as [|[[a b] c] kept [Ha Hb] _ [IH1 IH2]]; [done|].
  csimpl in *. rewrite !length_app. lia.
Qed.

Lemma suppress_spec boxes classes scores :
  length boxes = length classes → length scores = length classes →
  (classes = [] ∧
   suppress cfg argsort boxes classes scores = Some (PyNone, PyNone, PyNone))
  ∨ (classes ≠ [] ∧
     ∃ nb nc ns,
       suppress cfg argsort boxes classes scores
       = Some (PySome nb, PySome nc, PySome ns)
       ∧ length nb = length nc ∧ length nc = length ns
       ∧ (0 < length ns)%nat ∧ ns ⊆ scores).
Proof.
  intros Hlb Hls. unfold suppress.
  destruct classes as [|c0 classes']; [left; by split|right; split; [done|]].
  set (classes := c0 :: classes') in *.
  set (elems := elements (list_to_set classes : gset nat)).
  assert (Helems : ∀ cl, cl ∈ elems → cl ∈ classes).
  { intros cl. unfold elems. by rewrite elem_of_elements, elem_of_list_to_set. }
  assert (Hc0 : c0 ∈ elems).
  { unfold elems. rewrite elem_of_elements, elem_of_list_to_set. left. }
  destruct (mapM_total (suppress_class cfg argsort boxes classes scores) elems)
    as [kept Hkept].
  { apply Forall_forall. intros cl Hcl%Helems.
    destruct (suppress_class_spec _ _ _ _ Hlb Hls Hcl) as (? & ? & ? & -> & _).
    by eexists. }
  rewrite Hkept. cbn [mbind option_bind].
  apply mapM_Some in Hkept.
  assert (Hall : Forall (λ r, length r.1.1 = length r.2
                              ∧ length r.1.2 = length r.2
                              ∧ (0 < length r.2)%nat ∧ r.2 ⊆ scores) kept).
  { apply Forall_lookup. intros p r Hr.
    destruct (Forall2_lookup_r _ _ _ _ _ Hkept Hr) as (cl & Hcl & Hr').
    apply list_elem_of_lookup_2, Helems in Hcl.
    destruct (suppress_class_spec _ _ _ _ Hlb Hls Hcl)
      as (nb & nc & ns & Hsc & ? & ? & ? & ?).
    rewrite Hsc in Hr'. by simplify_eq/=. }
  destruct kept as [|[[nb0 nc0] ns0] kept'].
  { apply Forall2_length in Hkept. apply list_elem_of_lookup_1 in Hc0 as [??].
    destruct elems; simpl in *; [done|lia]. }
  rewrite bool_decide_eq_false_2 by (by intros [? _]).
  unfold np_concatenate. rewrite !option_guard_True by done.
  cbn [mbind option_bind].
  eexists _, _, _. split; [done|].
  destruct (mjoin_triples_length ((nb0, nc0, ns0) :: kept')) as [H1 H2].
  { eapply Forall_impl; [done|]. intros r (? & ? & _). by split. }
  split_and!; [congruence|done| |].
  - apply Forall_cons in Hall as [(_ & _ & Hpos & _) _]. simpl in *.
    rewrite length_app. lia.
  - intros x (ns & Hx & Hns)%list_elem_of_join.
    apply list_elem_of_fmap in Hns as (r & -> & Hr).
    eapply Forall_forall in Hall as (_ & _ & _ & Hsub); [|done]. by apply Hsub.
Qed.
End Suppress_facts.

Section Decode_filter_facts.
Variable cfg : config.

Lemma decode_filter_inv input_data fb fc fs :
  decode_filter cfg input_data = Some (fb, fc, fs) →
  ∃ per_scale,
    mapM (λ '(input, mask), decode_filter_scale cfg input mask)
         (zip input_data masks) = Some per_scale
    ∧ fb = xywh2xyxy (mjoin (per_scale.*1.*1))
    ∧ fc = mjoin (per_scale.*1.*2)
    ∧ fs = mjoin (per_scale.*2).
Proof.
  unfold decode_filter, np_concatenate. intros Hd.
  apply bind_Some in Hd as (per_scale & Hps & Hd).
  exists per_scale. split; [done|].
  destruct (decide (per_scale = [])) as [->|Hne]; [done|].
  rewrite !option_guard_True in Hd by (by destruct per_scale).
  cbn [mbind option_bind] in Hd. by simplify_eq.
Qed.

Lemma decode_filter_of_scales input_data per_scale :
  mapM (λ '(input, mask), decode_filter_scale cfg input mask)
       (zip input_data masks) = Some per_scale →
  per_scale ≠ [] →
  decode_filter cfg input_data
  = Some (xywh2xyxy (mjoin (per_scale.*1.*1)), mjoin (per_scale.*1.*2),
          mjoin (per_scale.*2)).
Proof.
  intros Hps Hne. unfold decode_filter, np_concatenate. rewrite Hps.
  cbn [mbind option_bind].
  by rewrite !option_guard_True by (by destruct per_scale).
Qed.

Lemma zip_masks_elem (input_data : list (ndarray Q)) input mask :
  (input, mask) ∈ zip input_data masks → input ∈ input_data ∧ mask ∈ masks.
Proof.
  intros [p Hp]%list_elem_of_lookup_1.
  apply lookup_zip_with_Some in Hp as (? & ? & ? & ? & ?). simplify_eq.
  split; by eapply list_elem_of_lookup_2.
Qed.

Lemma decode_filter_scales_total input_data :
  Forall (λ t, ∃ g k, scale_tensor g k t ∧ (6 ≤ k)%nat) input_data →
  ∃ per_scale,
    mapM (λ '(input, mask), decode_filter_scale cfg input mask)
         (zip input_data masks) = Some per_scale
    ∧ length per_scale = length input_data `min` 3.
Proof.
  intros Hin.
  destruct (mapM_total (λ '(input, mask), decode_filter_scale cfg input mask)
              (zip input_data masks)) as [per_scale Hps].
  { apply Forall_forall. intros [input mask] [Hi Hm]%zip_masks_elem.
    eapply Forall_forall in Hin as (g & k & Hs & Hk); [|done].
    by eapply decode_filter_scale_total. }
  exists per_scale. split; [done|].
  apply length_mapM in Hps. rewrite <- Hps, length_zip_with. done.
Qed.

(** Each scale yields as many boxes as classes as scores. *)
Lemma decode_filter_scales_lengths input_data per_scale :
  Forall (λ t, ∃ g k, scale_tensor g k t) input_data →
  mapM (λ '(input, mask), decode_filter_scale cfg input mask)
       (zip input_data masks) = Some per_scale →
  Forall (λ r, length r.1.1 = length r.2 ∧ length r.1.2 = length r.2) per_scale.
Proof.
  intros Hin Hps%mapM_Some. apply Forall_lookup. intros p [[b c] s] Hr.
  destruct (Forall2_lookup_r _ _ _ _ _ Hps Hr) as ([input mask] & Him & Hf).
  apply list_elem_of_lookup_2, zip_masks_elem in Him as [Hi Hm].
  eapply Forall_forall in Hin as (g & k & Hs); [|done].
  destruct (decode_filter_scale_entries _ _ _ _ _ _ _ _ Hs Hm Hf) as (? & ? & _).
  done.
Qed.

Lemma mjoin_nil {A} (l : list (list A)) : mjoin l = [] ↔ Forall (λ r, r = []) l.
Proof.
  induction l as [|x l IH]; simpl; [by split|].
  rewrite Forall_cons, <- IH. split.
  - by intros [??]%app_eq_nil.
  - by intros [-> ->].
Qed.
End Decode_filter_facts.

Section Pipeline_theorems.
Context `{Cv2}.
Variable cfg : config.
Variable argsort : list Q → list nat.
Variable dets : Type.
Variable format_dets : list row4 → list nat → list Q → dets.
Hypothesis argsort_spec : is_argsort argsort.

Lemma suppress_no_class boxes scores :
  suppress cfg argsort boxes [] scores = Some (PyNone, PyNone, PyNone).
Proof. done. Qed.

(** C6: when no class group is left after filtering (for instance
    because no objectness of any scale reaches [obj_thresh]),
    [yolov5_post_process] returns [(None, None, None)], and
    [post_yolov5] hands back the frame it was given, nothing drawn on
    it, with no detections. *)
Theorem no_detections fuel outputs frame input_data :
  yolov5_inputs outputs = Some input_data →
  (∃ boxes scores, decode_filter cfg input_data = Some (boxes, [], scores))
  ∨ (length input_data = 3%nat
     ∧ Forall (λ t, ∃ g k,
                 scale_tensor g k t ∧ (6 ≤ k)%nat
                 ∧ ∀ i j a, (i < g)%nat → (j < g)%nat → (a < 3)%nat →
                     at4 t i j a 4 < obj_thresh cfg) input_data) →
  yolov5_post_process cfg argsort input_data = Some (PyNone, PyNone, PyNone)
  ∧ post_yolov5 cfg argsort dets format_dets (S fuel) outputs frame
    = Returns (frame, PyNone).
Proof.
  intros Hin Hcase.
  assert (Hnone : yolov5_post_process cfg argsort input_data
                  = Some (PyNone, PyNone, PyNone)).
  { unfold yolov5_post_process.
    destruct Hcase as [(boxes & scores & ->)|[Hlen Hlow]]; [done|].
    destruct (decode_filter_scales_total cfg input_data) as (per_scale & Hps & Hl).
    { eapply Forall_impl; [done|]. intros t (g & k & ? & ? & _). eauto. }
    assert (Hempty : Forall (λ r, r = ([], [], [])) per_scale).
    { apply mapM_Some in Hps. apply Forall_lookup. intros p r Hr.
      destruct (Forall2_lookup_r _ _ _ _ _ Hps Hr) as ([input mask] & Him & Hf).
      apply list_elem_of_lookup_2, zip_masks_elem in Him as [Hi Hm].
      eapply Forall_forall in Hlow as (g & k & Hs & Hk & Hlt); [|done].
      rewrite (decode_filter_scale_below cfg _ _ _ _ Hs Hk Hm Hlt) in Hf.
      by simplify_eq. }
    rewrite (decode_filter_of_scales cfg _ _ Hps)
      by (destruct per_scale; simpl in *; [lia|done]).
    cbn [mbind option_bind].
    assert (mjoin (per_scale.*1.*2) = []) as ->; [|done].
    apply mjoin_nil, Forall_fmap, Forall_fmap.
    eapply Forall_impl; [done|]. by intros r ->. }
  split; [done|].
  unfold post_yolov5. rewrite while_true_returns.
  unfold post_yolov5_body. rewrite Hin. cbn [mbind option_bind].
  by rewrite Hnone.
Qed.

(** C7 (amended): every score [yolov5_post_process] returns is the
    product of the objectness of one anchor of one grid cell and of
    the maximum of its class probabilities, both taken from the raw
    tensor as they are (sigmoid being the identity), both at least
    [obj_thresh]. *)
Theorem detection_scores input_data boxes classes scores :
  Forall (λ t, ∃ g k, scale_tensor g k t) input_data →
  yolov5_post_process cfg argsort input_data
  = Some (PySome boxes, PySome classes, PySome scores) →
  ∀ score, score ∈ scores →
    ∃ input g k n cell objectness class_prob,
      input ∈ input_data ∧ scale_tensor g k input
      ∧ chunk k (g * g * 3) (data input) !! n = Some cell
      ∧ objectness = sigmoid (nth 4 cell 0)
      ∧ np_max (sigmoid <$> drop 5 cell) = Some class_prob
      ∧ score = class_prob * objectness
      ∧ obj_thresh cfg <= objectness
      ∧ obj_thresh cfg <= class_prob.
Proof.
  intros Hin Hy score Hscore. unfold yolov5_post_process in Hy.
  apply bind_Some in Hy as ([[fb fc] fs] & Hd & Hsup).
  destruct (decode_filter_inv cfg _ _ _ _ Hd) as (per_scale & Hps & -> & -> & ->).
  pose proof (decode_filter_scales_lengths cfg _ _ Hin Hps) as Hlens.
  destruct (mjoin_triples_length _ Hlens) as [Hl1 Hl2].
  assert (Hfs : score ∈ mjoin (per_scale.*2)).
  { unfold suppress in Hsup. apply bind_Some in Hsup as (kept & Hkept & Hsup).
    case_bool_decide; [done|]. unfold np_concatenate in Hsup.
    repeat case_guard; simplify_eq/=.
    apply list_elem_of_join in Hscore as (ns & Hs & Hns).
    apply list_elem_of_fmap in Hns as ([[nb nc] ns'] & -> & Hr).
    apply list_elem_of_lookup_1 in Hr as [p Hr].
    destruct (mapM_lookup_Some _ _ _ _ _ Hkept Hr) as (cl & _ & Hcl).
    unfold suppress_class in Hcl.
    apply bind_Some in Hcl as (b & _ & Hcl).
    apply bind_Some in Hcl as (c & _ & Hcl).
    apply bind_Some in Hcl as (s & Hs1 & Hcl).
    apply bind_Some in Hcl as (keep & _ & Hcl).
    apply bind_Some in Hcl as (nb' & _ & Hcl).
    apply bind_Some in Hcl as (nc' & _ & Hcl).
    apply bind_Some in Hcl as (ns'' & Hs2 & Hcl).
    simplify_eq/=.
    by eapply np_take_subseteq, np_take_subseteq. }
  apply list_elem_of_join in Hfs as (s & Hs & Hsin).
  apply list_elem_of_fmap in Hsin as ([[b c] s'] & -> & Hr).
  apply list_elem_of_lookup_1 in Hr as [q Hr].
  destruct (mapM_lookup_Some _ _ _ _ _ Hps Hr) as ([input mask] & Him & Hf).
  apply list_elem_of_lookup_2, zip_masks_elem in Him as [Hi Hm].
  pose proof Hin as Hin'.
  eapply Forall_forall in Hin' as (g & k & Hst); [|done].
  destruct (decode_filter_scale_entries _ _ _ _ _ _ _ _ Hst Hm Hf) as (_ & _ & Hent).
  apply list_elem_of_lookup_1 in Hs as [p Hp]. simpl in Hp.
  destruct (Hent p score Hp) as (n & cell & o & m & ? & ? & ? & ? & ? & ?).
  exists input, g, k, n, cell, o, m. by split_and!.
Qed.

(** C10: on three well-shaped tensors [yolov5_post_process] returns,
    and what it returns is either three [None]s, exactly when the
    filter leaves no entry at any scale, or three arrays of one common
    strictly positive length. *)
Theorem yolov5_post_process_result input_data :
  length input_data = 3%nat →
  Forall (λ t, ∃ g k, scale_tensor g k t ∧ (6 ≤ k)%nat) input_data →
  ∃ per_scale,
    mapM (λ '(input, mask), decode_filter_scale cfg input mask)
         (zip input_data masks) = Some per_scale
    ∧ ((Forall (λ r, r = ([], [], [])) per_scale
        ∧ yolov5_post_process cfg argsort input_data
          = Some (PyNone, PyNone, PyNone))
       ∨ (Exists (λ r, r.2 ≠ []) per_scale
          ∧ ∃ boxes classes scores,
              yolov5_post_process cfg argsort input_data
              = Some (PySome boxes, PySome classes, PySome scores)
              ∧ length boxes = length classes
              ∧ length classes = length scores
              ∧ (0 < length scores)%nat)).
Proof.
  intros Hlen Hin.
  destruct (decode_filter_scales_total cfg input_data Hin) as (per_scale & Hps & Hl).
  exists per_scale. split; [done|].
  assert (Hin' : Forall (λ t, ∃ g k, scale_tensor g k t) input_data).
  { eapply Forall_impl; [done|]. intros t (g & k & ? & _). eauto. }
  pose proof (decode_filter_scales_lengths cfg _ _ Hin' Hps) as Hlens.
  destruct (mjoin_triples_length _ Hlens) as [Hl1 Hl2].
  unfold yolov5_post_process.
  rewrite (decode_filter_of_scales cfg _ _ Hps)
    by (destruct per_scale; simpl in *; [lia|done]).
  cbn [mbind option_bind].
  destruct (suppress_spec cfg argsort argsort_spec
              (xywh2xyxy (mjoin (per_scale.*1.*1))) (mjoin (per_scale.*1.*2))
              (mjoin (per_scale.*2)))
    as [[Hnil Hs]|[Hne (nb & nc & ns & Hs & ? & ? & ? & _)]].
  { unfold xywh2xyxy. rewrite length_fmap. congruence. }
  { congruence. }
  - left. split; [|done].
    apply mjoin_nil in Hnil. apply Forall_lookup. intros p [[b c] s] Hr.
    eapply Forall_lookup in Hlens as [Hb Hc]; [|done]. simpl in *.
    assert (c = []) as ->.
    { rewrite !Forall_fmap in Hnil. eapply Forall_lookup in Hnil; [|done]. done. }
    by destruct b, s.
  - right. split; [|by eexists _, _, _].
    apply not_Forall_Exists; [apply _|]. intros Hall. apply Hne.
    apply mjoin_nil. rewrite !Forall_fmap. apply Forall_lookup.
    intros p [[b c] s] Hr. simpl.
    eapply Forall_lookup in Hlens as [Hb Hc]; [|done].
    eapply Forall_lookup in Hall; [|done]. simpl in *.
    subst. by destruct c.
Qed.
End Pipeline_theorems.

(** ** UNet masks *)

Lemma take_drop_nested {A} (l : list A) (a b n m : nat) :
  (b + n ≤ m)%nat →
  take n (drop (a + b) l) = take n (drop b (take m (drop a l))).
Proof.
  intros Hb. apply list_eq. intros i.
  rewrite !lookup_take, !lookup_drop. case_decide; [|done].
  rewrite lookup_take_lt, lookup_drop by lia. f_equal. lia.
Qed.

Lemma np_argmax_lt (row : list Q) (cls : nat) :
  np_argmax row = Some cls → (cls < length row)%nat.
Proof.
  destruct row as [|v r]; [done|]. intros [= <-]. simpl.
  assert (Hgen : ∀ l best besti cur, (besti < cur)%nat →
            (argmax_from best besti cur l < cur + length l)%nat).
  { induction l as [|u l IH]; intros best besti cur Hlt; simpl; [lia|].
    destruct (Qle_bool u best).
    - pose proof (IH best besti (S cur) ltac:(lia)). lia.
    - pose proof (IH u cur (S cur) ltac:(lia)). lia. }
  pose proof (Hgen r v 0 1 ltac:(lia))%nat. lia.
Qed.

Lemma Qmax_keep (best v : Q) : Qle_bool v best = true → Qmax best v = best.
Proof.
  intros Hle%Qle_bool_iff. unfold Qmax, GenericMinMax.gmax.
  destruct (best ?= v) eqn:Hc; try done.
  apply Qlt_alt in Hc. by apply Qlt_not_le in Hc.
Qed.

Lemma Qmax_take (best v : Q) : Qle_bool v best = false → Qmax best v = v.
Proof.
  intros Hle. unfold Qmax, GenericMinMax.gmax.
  destruct (best ?= v) eqn:Hc; try done.
  - apply Qeq_alt in Hc. assert (Qle_bool v best = true); [|congruence].
    apply Qle_bool_iff. rewrite Hc. apply Qle_refl.
  - apply Qgt_alt in Hc. assert (Qle_bool v best = true); [|congruence].
    apply Qle_bool_iff. by apply Qlt_le_weak.
Qed.

(** The scan of [np.argmax], started after the prefix [pre] of the
    row with the best value so far at [besti]. *)
Lemma argmax_from_spec (l pre : list Q) (best : Q) (besti : nat) :
  (besti < length pre)%nat →
  nth besti pre 0 = best →
  (∀ c, (c < besti)%nat → nth c pre 0 < best) →
  (∀ x, x ∈ pre → x <= best) →
  let idx := argmax_from best besti (length pre) l in
  let m := foldl Qmax best l in
  nth idx (pre ++ l) 0 = m
  ∧ (∀ c, (c < idx)%nat → nth c (pre ++ l) 0 < m)
  ∧ (∀ x, x ∈ pre ++ l → x <= m).
Proof.
  revert pre best besti.
  induction l as [|v r IH]; intros pre best besti Hlt Hbest Hfirst Hall; cbn zeta.
  { simpl. rewrite app_nil_r. by split_and!. }
  cbn [argmax_from foldl].
  replace (pre ++ v :: r) with ((pre ++ [v]) ++ r) by (by rewrite <- app_assoc).
  replace (S (length pre)) with (length (pre ++ [v]))
    by (rewrite length_app; simpl; lia).
  destruct (Qle_bool v best) eqn:Hle.
  - rewrite Qmax_keep by done.
    apply IH.
    + rewrite length_app. simpl. lia.
    + by rewrite app_nth1.
    + intros c Hc. rewrite app_nth1 by lia. by apply Hfirst.
    + intros x [Hx|Hx%list_elem_of_singleton]%elem_of_app; [by apply Hall|].
      subst. by apply Qle_bool_iff.
  - rewrite Qmax_take by done.
    assert (Hv : best < v).
    { apply Qnot_le_lt. intros Hn%Qle_bool_iff. congruence. }
    apply IH.
    + rewrite length_app. simpl. lia.
    + by rewrite nth_middle.
    + intros c Hc. rewrite app_nth1 by done.
      eapply Qle_lt_trans; [|done]. apply Hall.
      apply list_elem_of_lookup. exists c.
      destruct (lookup_lt_is_Some_2 pre c Hc) as [x Hx].
      by rewrite nth_lookup, Hx.
    + intros x [Hx|Hx%list_elem_of_singleton]%elem_of_app.
      * apply Qlt_le_weak. eapply Qle_lt_trans; [by apply Hall|done].
      * subst. apply Qle_refl.
Qed.

(** [np.argmax] points at the first entry that equals [np.max]. *)
Lemma np_argmax_spec (row : list Q) (idx : nat) (m : Q) :
  np_argmax row = Some idx → np_max row = Some m →
  nth idx row 0 = m
  ∧ (∀ c, (c < idx)%nat → nth c row 0 < m)
  ∧ (∀ x, x ∈ row → x <= m).
Proof.
  destruct row as [|v r]; [done|]. intros [= <-] [= <-].
  apply (argmax_from_spec r [v] v 0).
  - simpl. lia.
  - done.
  - intros c Hc. lia.
  - intros x ->%list_elem_of_singleton. apply Qle_refl.
Qed.

(** [np.argmax] returns the first index of the largest value, and
    nothing else is one. *)
Lemma first_largest_unique (row : list Q) (i j : nat) :
  first_largest row i → first_largest row j → i = j.
Proof.
  intros (Hi & Hmi & Hfi) (Hj & Hmj & Hfj).
  destruct (lt_eq_lt_dec i j) as [[Hlt| ->]|Hlt]; [|done|].
  - pose proof (Hfj i Hlt) as Hs. pose proof (Hmi j Hj) as Hl.
    by apply Qlt_not_le in Hs.
  - pose proof (Hfi j Hlt) as Hs. pose proof (Hmj i Hi) as Hl.
    by apply Qlt_not_le in Hs.
Qed.

Lemma np_argmax_first_largest (row : list Q) (idx : nat) :
  np_argmax row = Some idx ↔ first_largest row idx.
Proof.
  assert (Hfwd : ∀ i, np_argmax row = Some i → first_largest row i).
  { intros i Harg. pose proof (np_argmax_lt _ _ Harg) as Hlt.
    destruct (np_max_is_Some row) as [m Hm]; [by intros ->; simpl in Hlt; lia|].
    destruct (np_argmax_spec _ _ _ Harg Hm) as (Hat & Hfirst & Hall).
    split; [done|]. rewrite Hat. split; [|done].
    intros k Hk. apply Hall. apply list_elem_of_lookup. exists k.
    destruct (lookup_lt_is_Some_2 row k Hk) as [x Hx].
    by rewrite nth_lookup, Hx. }
  split; [apply Hfwd|]. intros Hfl.
  destruct (np_argmax_is_Some row) as [i Hi].
  { destruct Hfl as [Hlt _]. intros ->. simpl in Hlt. lia. }
  rewrite Hi. f_equal. eapply first_largest_unique; [by apply Hfwd|done].
Qed.

Section Unet_facts.
Context `{Cv2}.

Lemma transpose_120_row (dat : list Q) (c h w i j : nat) :
  (i < h)%nat → (j < w)%nat →
  take c (drop ((i * w + j) * c)
            (i ← seq 0 h; j ← seq 0 w;
             (λ k, nth ((k * h + i) * w + j)%nat dat 0) <$> seq 0 c))
  = (λ k, nth ((k * h + i) * w + j)%nat dat 0) <$> seq 0 c.
Proof.
  intros Hi Hj.
  replace ((i * w + j) * c)%nat with (i * (w * c) + j * c)%nat by lia.
  rewrite (take_drop_nested _ _ _ _ (w * c)) by nia.
  erewrite (bind_uniform_row _ (w * c) (seq 0 h) i i).
  - erewrite (bind_uniform_row _ c (seq 0 w) j j); [done| |].
    + apply Forall_forall. intros ??. by rewrite length_fmap, length_seq.
    + by apply lookup_seq_lt.
  - apply Forall_forall. intros ??.
    rewrite (length_bind_uniform _ c), length_seq; [done|].
    apply Forall_forall. intros ??. by rewrite length_fmap, length_seq.
  - by apply lookup_seq_lt.
Qed.

Lemma get_mask_spec raw_mask c h w pred_mask :
  shape raw_mask = [c; h; w] →
  get_mask raw_mask = Some pred_mask →
  shape pred_mask = [h; w; 3]%nat
  ∧ ∀ i j, (i < h)%nat → (j < w)%nat →
      ∃ cls,
        np_argmax (pixel_scores raw_mask c i j) = Some cls
        ∧ [[0; 0; 0]; [255; 255; 255]]%Z !! cls
          = Some (take 3 (drop ((i * w + j) * 3) (data pred_mask))).
Proof.
  intros Hshape. unfold get_mask, np_transpose_120. rewrite Hshape.
  cbn [mbind option_bind].
  unfold reverse_one_hot, np_argmax_last. cbn [shape last mbind option_bind].
  rewrite (nd_rows_snoc _ [h; w] c) by done. cbn [data removelast].
  intros Hm. apply bind_Some in Hm as (cm & Hcm & Hm).
  case_guard; [|done]. cbn [mbind option_bind] in Hcm.
  apply fmap_Some in Hcm as (classes & Hcls & ->).
  unfold colour_code_segmentation in Hm. cbn [head default length] in Hm.
  rewrite option_guard_True in Hm by (repeat constructor).
  cbn [mbind option_bind shape data] in Hm.
  apply bind_Some in Hm as (cc & Hcc & Hm).
  apply fmap_Some in Hcc as (flat & Hflat & ->).
  apply fmap_Some in Hflat as (rgbs & Hrgbs & ->).
  injection Hm as <-. split; [done|]. intros i j Hi Hj.
  assert (Hq : (i * w + j < size_of [h; w])%nat) by (simpl; nia).
  pose proof (chunk_lookup c _
    (i ← seq 0 h; j ← seq 0 w;
     (λ k, nth ((k * h + i) * w + j)%nat (data raw_mask) 0) <$> seq 0 c)
    _ Hq) as Hrow.
  rewrite transpose_120_row in Hrow by done.
  apply mapM_Some in Hcls, Hrgbs.
  destruct (Forall2_lookup_l _ _ _ _ _ Hcls Hrow) as (cls & Hcl & Hargmax).
  destruct (Forall2_lookup_l _ _ _ _ _ Hrgbs Hcl) as (rgb & Hrgb & Htable).
  exists cls. split.
  - unfold pixel_scores. rewrite <- Hargmax. f_equal.
    apply list_fmap_ext. intros ? ch ?. unfold at3. by rewrite Hshape.
  - rewrite Htable. f_equal. unfold astype_uint8, np_map. cbn [data].
    rewrite <- fmap_drop, <- fmap_take, mjoin_bind_id.
    erewrite (bind_uniform_row _ 3 rgbs); [| |done].
    + unfold id. by destruct cls as [|[|cls]]; simplify_eq/=.
    + apply Forall_lookup. intros p r Hr.
      destruct (Forall2_lookup_r _ _ _ _ _ Hrgbs Hr) as (cl' & _ & Hcl').
      unfold id. by destruct cl' as [|[|cl']]; simplify_eq/=.
Qed.

Lemma get_mask_wf raw_mask c h w pred_mask :
  shape raw_mask = [c; h; w] →
  get_mask raw_mask = Some pred_mask →
  ndarray_wf pred_mask.
Proof.
  intros Hshape. unfold get_mask, np_transpose_120. rewrite Hshape.
  cbn [mbind option_bind].
  unfold reverse_one_hot, np_argmax_last. cbn [shape last mbind option_bind].
  rewrite (nd_rows_snoc _ [h; w] c) by done. cbn [data removelast].
  intros Hm. apply bind_Some in Hm as (cm & Hcm & Hm).
  case_guard; [|done]. cbn [mbind option_bind] in Hcm.
  apply fmap_Some in Hcm as (classes & Hcls & ->).
  unfold colour_code_segmentation in Hm. cbn [head default length] in Hm.
  rewrite option_guard_True in Hm by (repeat constructor).
  cbn [mbind option_bind shape data] in Hm.
  apply bind_Some in Hm as (cc & Hcc & Hm).
  apply fmap_Some in Hcc as (flat & Hflat & ->).
  apply fmap_Some in Hflat as (rgbs & Hrgbs & ->).
  injection Hm as <-. red. unfold astype_uint8, np_map. cbn [shape data].
  rewrite length_fmap, mjoin_bind_id, (length_bind_uniform _ 3).
  - apply length_mapM in Hcls, Hrgbs. rewrite chunk_length in Hcls.
    rewrite <- Hrgbs, <- Hcls. simpl. lia.
  - apply mapM_Some in Hrgbs. apply Forall_lookup. intros p r Hr.
    destruct (Forall2_lookup_r _ _ _ _ _ Hrgbs Hr) as (cl' & _ & Hcl').
    unfold id. by destruct cl' as [|[|cl']]; simplify_eq/=.
Qed.

Lemma get_mask_total raw_mask c h w :
  shape raw_mask = [c; h; w] → (1 ≤ c ≤ 2)%nat → is_Some (get_mask raw_mask).
Proof.
  intros Hshape Hc. unfold get_mask, np_transpose_120. rewrite Hshape.
  cbn [mbind option_bind].
  unfold reverse_one_hot, np_argmax_last. cbn [shape last mbind option_bind].
  rewrite (nd_rows_snoc _ [h; w] c) by done. cbn [data removelast].
  rewrite option_guard_True by lia. cbn [mbind option_bind].
  set (tdata := (i ← seq 0 h; j ← seq 0 w; _)).
  assert (Htl : length tdata = (size_of [h; w] * c)%nat).
  { unfold tdata. rewrite (length_bind_uniform _ (w * c)), length_seq.
    - simpl. lia.
    - apply Forall_forall. intros ??.
      rewrite (length_bind_uniform _ c), length_seq; [done|].
      apply Forall_forall. intros ??. by rewrite length_fmap, length_seq. }
  destruct (mapM_total np_argmax (chunk c (size_of [h; w]) tdata))
    as [classes Hcls].
  { eapply Forall_impl; [apply chunk_Forall_length; lia|].
    intros row Hrow. apply np_argmax_is_Some. intros ->. simpl in *. lia. }
  rewrite Hcls. cbn [fmap option_fmap option_map mbind option_bind].
  unfold colour_code_segmentation. cbn [head default length].
  rewrite option_guard_True by (repeat constructor).
  cbn [mbind option_bind shape data].
  destruct (mapM_total (λ cl, [[0; 0; 0]; [255; 255; 255]]%Z !! cl) classes)
    as [rgbs Hrgbs]; [|by rewrite Hrgbs].
  apply mapM_Some in Hcls. apply Forall_lookup. intros p cls Hp.
  destruct (Forall2_lookup_r _ _ _ _ _ Hcls Hp) as (row & Hrow & Harg).
  apply np_argmax_lt in Harg.
  rewrite (chunk_row_length c (size_of [h; w]) tdata p row) in Harg;
    [|lia|done].
  apply lookup_lt_is_Some. simpl. lia.
Qed.

(** [get_mask] returns as soon as no pixel has its largest score in a
    channel without a row in the colour table. *)
Lemma get_mask_returns raw_mask c h w :
  shape raw_mask = [c; h; w] → (0 < c)%nat →
  (∀ i j cls, (i < h)%nat → (j < w)%nat →
     np_argmax (pixel_scores raw_mask c i j) = Some cls → (cls < 2)%nat) →
  is_Some (get_mask raw_mask).
Proof.
  intros Hshape Hc Hpix. unfold get_mask, np_transpose_120. rewrite Hshape.
  cbn [mbind option_bind].
  unfold reverse_one_hot, np_argmax_last. cbn [shape last mbind option_bind].
  rewrite (nd_rows_snoc _ [h; w] c) by done. cbn [data removelast].
  rewrite option_guard_True by lia. cbn [mbind option_bind].
  set (tdata := (i ← seq 0 h; j ← seq 0 w; _)).
  assert (Htl : length tdata = (size_of [h; w] * c)%nat).
  { unfold tdata. rewrite (length_bind_uniform _ (w * c)), length_seq.
    - simpl. lia.
    - apply Forall_forall. intros ??.
      rewrite (length_bind_uniform _ c), length_seq; [done|].
      apply Forall_forall. intros ??. by rewrite length_fmap, length_seq. }
  destruct (mapM_total np_argmax (chunk c (size_of [h; w]) tdata))
    as [classes Hcls].
  { eapply Forall_impl; [apply chunk_Forall_length; lia|].
    intros row Hrow. apply np_argmax_is_Some. intros ->. simpl in *. lia. }
  rewrite Hcls. cbn [fmap option_fmap option_map mbind option_bind].
  unfold colour_code_segmentation. cbn [head default length].
  rewrite option_guard_True by (repeat constructor).
  cbn [mbind option_bind shape data].
  destruct (mapM_total (λ cl, [[0; 0; 0]; [255; 255; 255]]%Z !! cl) classes)
    as [rgbs Hrgbs]; [|by rewrite Hrgbs].
  apply mapM_Some in Hcls. apply Forall_lookup. intros p cls Hp.
  destruct (Forall2_lookup_r _ _ _ _ _ Hcls Hp) as (row & Hrow & Harg).
  assert (Hq : (p < size_of [h; w])%nat).
  { apply lookup_lt_Some in Hrow. by rewrite chunk_length in Hrow. }
  assert (Hw : (0 < w)%nat) by (simpl in Hq; nia).
  assert (Hi : (p / w < h)%nat).
  { apply Nat.Div0.div_lt_upper_bound. simpl in Hq. lia. }
  assert (Hj : (p mod w < w)%nat) by (apply Nat.mod_upper_bound; lia).
  assert (Hp' : p = (p / w * w + p mod w)%nat).
  { rewrite (Nat.div_mod_eq p w) at 1. lia. }
  rewrite (chunk_lookup c _ tdata _ Hq) in Hrow. injection Hrow as <-.
  rewrite Hp' in Harg. unfold tdata in Harg.
  rewrite transpose_120_row in Harg by done.
  apply lookup_lt_is_Some. simpl.
  apply (Hpix (p / w)%nat (p mod w)%nat cls Hi Hj).
  unfold pixel_scores. rewrite <- Harg. f_equal.
  apply list_fmap_ext. intros ? ch ?. unfold at3. by rewrite Hshape.
Qed.

(** C8, as the code has it: [post_unet] takes [outputs[0][0]], of
    shape channels × height × width.  When every pixel has its first
    largest score in channel 0 or 1 (always so with one or two
    channels), the mask has one pixel of three values for each pixel
    of the tensor, pixel [(i, j)] being the row of the fixed two-row
    table at the first largest of the pixel's channel scores, nothing
    thresholded and nothing dropped, and the outcome is that of
    [addWeighted(frame, 0.7, mask, 1.0 - 0.7, 0.0)], the second weight
    being what the float subtraction gives.  When a pixel has its first
    largest score in a later channel, [post_unet] raises. *)
Theorem post_unet_blends_argmax_mask fuel out rest frame raw_mask c h w :
  np_index_first0 out = Some raw_mask →
  shape raw_mask = [c; h; w] →
  (0 < c)%nat →
  ((∀ i j cls, (i < h)%nat → (j < w)%nat →
      first_largest (pixel_scores raw_mask c i j) cls → (cls < 2)%nat) →
   ∃ pred_mask,
     get_mask raw_mask = Some pred_mask
     ∧ shape pred_mask = [h; w; 3]%nat ∧ ndarray_wf pred_mask
     ∧ (∀ i j, (i < h)%nat → (j < w)%nat →
          ∃ cls,
            first_largest (pixel_scores raw_mask c i j) cls
            ∧ [[0; 0; 0]; [255; 255; 255]]%Z !! cls
              = Some (take 3 (drop ((i * w + j) * 3) (data pred_mask))))
     ∧ post_unet (S fuel) (out :: rest) frame
       = outcome_of (cv2_addWeighted frame 0.7 pred_mask
                       (py_float_sub 1.0 0.7) 0.0))
  ∧ ((∃ i j cls, (i < h)%nat ∧ (j < w)%nat
        ∧ first_largest (pixel_scores raw_mask c i j) cls ∧ (2 ≤ cls)%nat) →
     post_unet (S fuel) (out :: rest) frame = Raises).
Proof.
  intros Hraw Hshape Hc.
  assert (Hpost : post_unet (S fuel) (out :: rest) frame
                  = outcome_of (pred_mask ← get_mask raw_mask;
                                cv2_addWeighted frame 0.7 pred_mask
                                  (py_float_sub 1.0 0.7) 0.0)).
  { unfold post_unet. rewrite while_true_returns.
    unfold post_unet_body. cbn [lookup list_lookup mbind option_bind].
    rewrite Hraw. cbn [mbind option_bind].
    destruct (get_mask raw_mask) as [pm|]; [|done]. cbn [mbind option_bind].
    by destruct (cv2_addWeighted _ _ _ _ _). }
  split.
  - intros Hpix.
    destruct (get_mask_returns raw_mask c h w Hshape Hc) as [pm Hpm].
    { intros i j cls Hi Hj Harg%np_argmax_first_largest. by eapply Hpix. }
    exists pm. split; [done|].
    destruct (get_mask_spec raw_mask c h w pm Hshape Hpm) as [Hs Hcol].
    split; [done|]. split; [by eapply get_mask_wf|]. split.
    + intros i j Hi Hj. destruct (Hcol i j Hi Hj) as (cls & Harg & Htab).
      exists cls. split; [by apply np_argmax_first_largest|done].
    + by rewrite Hpost, Hpm.
  - intros (i & j & cls & Hi & Hj & Hfl & Hcls).
    rewrite Hpost.
    destruct (get_mask raw_mask) as [pm|] eqn:Hpm; [exfalso|done].
    destruct (get_mask_spec raw_mask c h w pm Hshape Hpm) as [_ Hcol].
    destruct (Hcol i j Hi Hj) as (cls' & Harg%np_argmax_first_largest & Htab).
    assert (cls' = cls) as -> by (by eapply first_largest_unique).
    by destruct cls as [|[|cls]]; [lia..|].
Qed.
End Unet_facts.

(** ** A concrete [argsort] *)

Lemma argsort_merge_spec : is_argsort argsort_merge.
Proof.
  intros s. unfold argsort_merge. split; [apply merge_sort_Permutation|].
  assert (Htrans : Transitive (score_le s)).
  { intros i j k. unfold score_le. rewrite !Qle_bool_iff. apply Qle_trans. }
  assert (Htotal : Total (score_le s)).
  { intros i j. unfold score_le. rewrite !Qle_bool_iff.
    destruct (Qlt_le_dec (nth j s 0) (nth i s 0)); [right|left]; [|done].
    by apply Qlt_le_weak. }
  pose proof (StronglySorted_merge_sort (score_le s) (seq 0 (length s))) as Hs.
  induction Hs as [|i l _ IH Hi]; constructor; [done|].
  eapply Forall_impl; [done|]. intros j. unfold score_le.
  by rewrite Qle_bool_iff.
Qed.

(** ** The claims at concrete inputs *)

(** C1 as stated fails: for a raw objectness of [0] the logistic
    function gives [1/2], the code gives [0]. *)
Lemma process_objectness_not_logistic :
  ∃ box box_confidence box_class_probs,
    process cfg_ex cell_zero [0; 1; 2]%nat anchors
    = Some (box, box_confidence, box_class_probs)
    ∧ Q2R (at4 box_confidence 0 0 0 0)
      ≠ logistic (Q2R (at4 cell_zero 0 0 0 4)).
Proof.
  eexists _, _, _. split; [vm_compute; reflexivity|].
  assert (Hconf : at4 (NdArray [1; 1; 3; 1]%nat [0; 0; 0]) 0 0 0 0 = 0)
    by reflexivity.
  assert (Hraw : at4 cell_zero 0 0 0 4 = 0) by reflexivity.
  rewrite Hconf, Hraw. unfold logistic.
  rewrite RMicromega.Q2R_0, Ropp_0, exp_0. lra.
Qed.

Lemma process_decodes_witness :
  scale_tensor 1 6 cell_hot
  ∧ mapM (λ i, anchors !! i) [0; 1; 2]%nat
    = Some [[10; 13]; [16; 30]; [33; 23]]
  ∧ ∃ box box_confidence box_class_probs,
      process cfg_ex cell_hot [0; 1; 2]%nat anchors
      = Some (box, box_confidence, box_class_probs)
      ∧ at4 box_confidence 0 0 0 0 = sigmoid (at4 cell_hot 0 0 0 4).
Proof.
  assert (H1 : scale_tensor 1 6 cell_hot).
  { split; [reflexivity|]. split; [lia|]. split; [lia|reflexivity]. }
  assert (H2 : mapM (λ i, anchors !! i) [0; 1; 2]%nat
               = Some [[10; 13]; [16; 30]; [33; 23]]) by reflexivity.
  split; [exact H1|]. split; [exact H2|].
  destruct (process_decodes cfg_ex _ _ _ _ _ _ _ _ _ _ _ H1 H2)
    as [_ (box & conf & probs & Hp & Hat)].
  exists box, conf, probs. split; [exact Hp|].
  destruct (Hat 0 0 0 ltac:(lia) ltac:(lia) ltac:(lia))%nat
    as (_ & _ & _ & _ & H5 & _).
  exact H5.
Defined.

(** C2 as stated fails: with [obj_thresh = 0.25], an entry of
    objectness [0.3] and class probability [0.3] is returned although
    the product [0.09] is below the threshold. *)
Lemma filter_boxes_returns_low_product :
  ∃ bs cs score,
    filter_boxes cfg_ex (NdArray [1; 4]%nat [0; 0; 1; 1])
      (NdArray [1]%nat [0.3]) (NdArray [1; 1]%nat [0.3])
    = Some (bs, cs, [score])
    ∧ score == 0.3 * 0.3
    ∧ score < obj_thresh cfg_ex.
Proof.
  eexists _, _, _. split; [vm_compute; reflexivity|]. split; reflexivity.
Qed.

Lemma filter_boxes_thresholds_witness :
  filter_boxes cfg_ex (NdArray [1; 4]%nat [0; 0; 1; 1])
    (NdArray [1]%nat [0.3]) (NdArray [1; 1]%nat [0.3])
  = Some ([Row4 0 0 1 1], [0%nat], [0.09])
  ∧ length [Row4 0 0 1 1] = length [0.09].
Proof.
  assert (Hf : filter_boxes cfg_ex (NdArray [1; 4]%nat [0; 0; 1; 1])
                 (NdArray [1]%nat [0.3]) (NdArray [1; 1]%nat [0.3])
               = Some ([Row4 0 0 1 1], [0%nat], [0.09]))
    by (vm_compute; reflexivity).
  split; [exact Hf|].
  exact (proj1 (filter_boxes_thresholds cfg_ex _ _ _ _ _ _ Hf)).
Defined.

Lemma nms_two_overlapping_boxes_witness :
  np_gt (box_ovr box_a box_b) (nms_thresh cfg_ex) = true
  ∧ 0.6 < 0.9
  ∧ nms_boxes cfg_ex argsort_merge [box_a; box_b] [0.9; 0.6] = Some [0%nat].
Proof.
  assert (Hovr : np_gt (box_ovr box_a box_b) (nms_thresh cfg_ex) = true)
    by (vm_compute; reflexivity).
  assert (Hlt : 0.6 < 0.9) by reflexivity.
  split; [exact Hovr|]. split; [exact Hlt|].
  exact (proj1 (nms_two_overlapping_boxes cfg_ex argsort_merge
                  argsort_merge_spec box_a box_b 0.9 0.6 Hovr) Hlt).
Defined.

(** C4 as stated fails: two boxes of side [0.00001] whose intersection
    over union is [0.8], above the threshold [0.5], with scores [0.9]
    and [0.6], are both kept.  The padding makes the intersection
    larger than the two areas together, the ratio is negative, and the
    test [ovr <= nms_thresh] passes. *)
Lemma nms_boxes_keeps_two_tiny_boxes :
  spec_iou box_tiny_a box_tiny_b == 0.8
  ∧ nms_thresh cfg_half = 0.5
  ∧ 0.6 < 0.9
  ∧ np_le (box_ovr box_tiny_a box_tiny_b) (nms_thresh cfg_half) = true
  ∧ nms_boxes cfg_half argsort_merge [box_tiny_a; box_tiny_b] [0.9; 0.6]
    = Some [0; 1]%nat.
Proof. by vm_compute. Qed.

Lemma nms_boxes_idempotent_witness :
  length [box_a; box_b] = length [0.9; 0.6]
  ∧ ∃ keep kb ks,
      nms_boxes cfg_ex argsort_merge [box_a; box_b] [0.9; 0.6] = Some keep
      ∧ np_take [box_a; box_b] keep = Some kb
      ∧ np_take [0.9; 0.6] keep = Some ks
      ∧ ∃ keep2 kb2 ks2,
          nms_boxes cfg_ex argsort_merge kb ks = Some keep2
          ∧ np_take kb keep2 = Some kb2
          ∧ np_take ks keep2 = Some ks2
          ∧ keep2 ≡ₚ seq 0 (length kb)
          ∧ zip kb2 ks2 ≡ₚ zip kb ks.
Proof.
  assert (Hlen : length [box_a; box_b] = length [0.9; 0.6]) by reflexivity.
  split; [exact Hlen|].
  exact (nms_boxes_idempotent cfg_ex argsort_merge argsort_merge_spec
           [box_a; box_b] [0.9; 0.6] Hlen).
Defined.

Lemma no_detections_witness :
  yolov5_inputs [output_zero; output_zero; output_zero]
  = Some [cell_zero; cell_zero; cell_zero]
  ∧ decode_filter cfg_ex [cell_zero; cell_zero; cell_zero] = Some ([], [], [])
  ∧ yolov5_post_process cfg_ex argsort_merge [cell_zero; cell_zero; cell_zero]
    = Some (PyNone, PyNone, PyNone)
  ∧ @post_yolov5 cv2_trace cfg_ex argsort_merge unit (λ _ _ _, ()) 1
      [output_zero; output_zero; output_zero] frame_ex
    = Returns (frame_ex, PyNone).
Proof.
  assert (Hin : yolov5_inputs [output_zero; output_zero; output_zero]
                = Some [cell_zero; cell_zero; cell_zero])
    by (vm_compute; reflexivity).
  assert (Hd : decode_filter cfg_ex [cell_zero; cell_zero; cell_zero]
               = Some ([], [], [])) by (vm_compute; reflexivity).
  split; [exact Hin|]. split; [exact Hd|].
  exact (@no_detections cv2_trace cfg_ex argsort_merge unit (λ _ _ _, ()) 0
           _ frame_ex _ Hin (or_introl (ex_intro _ [] (ex_intro _ [] Hd)))).
Defined.

(** C7 as stated fails: raw objectness 2 and raw class score 3 pass
    both thresholds and give the score 6, which is no product of two
    numbers of [[0, 1]]. *)
Lemma detection_score_above_one :
  ∃ boxes classes score,
    yolov5_post_process cfg_ex argsort_merge [cell_hot; cell_zero; cell_zero]
    = Some (PySome boxes, PySome classes, PySome [score])
    ∧ ¬ ∃ objectness class_prob,
          0 <= objectness <= 1 ∧ 0 <= class_prob <= 1
          ∧ score == objectness * class_prob.
Proof.
  eexists _, _, _. split; [vm_compute; reflexivity|].
  intros (o & p & [Ho0 Ho1] & [Hp0 Hp1] & Heq).
  assert (o * p <= 1) by nra.
  rewrite <- Heq in *. by apply (Qle_not_lt _ _ H).
Qed.

Lemma detection_scores_witness :
  Forall (λ t, ∃ g k, scale_tensor g k t) [cell_hot; cell_zero; cell_zero]
  ∧ yolov5_post_process cfg_ex argsort_merge [cell_hot; cell_zero; cell_zero]
    = Some (PySome [Row4 (-6800 # 20) (-6920 # 20) (-6000 # 20) (-5880 # 20)],
            PySome [0%nat], PySome [6])
  ∧ ∃ objectness class_prob,
      6 = class_prob * objectness
      ∧ obj_thresh cfg_ex <= objectness
      ∧ obj_thresh cfg_ex <= class_prob.
Proof.
  assert (Hin : Forall (λ t, ∃ g k, scale_tensor g k t)
                  [cell_hot; cell_zero; cell_zero]).
  { repeat constructor; exists 1%nat, 6%nat;
      (split; [reflexivity|]; split; [lia|]; split; [lia|reflexivity]). }
  assert (Hy : yolov5_post_process cfg_ex argsort_merge
                 [cell_hot; cell_zero; cell_zero]
               = Some (PySome [Row4 (-6800 # 20) (-6920 # 20)
                                    (-6000 # 20) (-5880 # 20)],
                       PySome [0%nat], PySome [6]))
    by (vm_compute; reflexivity).
  split; [exact Hin|]. split; [exact Hy|].
  destruct (detection_scores cfg_ex argsort_merge _ _ _ _ Hin Hy 6
              ltac:(constructor))
    as (_ & _ & _ & _ & _ & o & p & _ & _ & _ & _ & _ & Hs & Ho & Hp).
  exists o, p. split; [exact Hs|]. split; [exact Ho|exact Hp].
Defined.

(** C8 as stated fails: on a tensor of three channels whose pixel has
    its largest score in the third, [post_unet] raises; and the weight
    of the mask, the double [1.0 - 0.7], is not the double [0.3]. *)
Lemma post_unet_third_channel_raises :
  np_index_first0 unet_output_three = Some unet_three
  ∧ shape unet_three = [3; 1; 1]%nat
  ∧ first_largest (pixel_scores unet_three 3 0 0) 2
  ∧ @post_unet cv2_trace 1 [unet_output_three] frame_one = Raises
  ∧ ¬ @py_float_sub cv2_trace 1.0 0.7 == binary64 0.3.
Proof.
  split; [done|]. split; [done|]. split.
  { by apply np_argmax_first_largest. }
  split; [done|]. by vm_compute.
Qed.

Lemma post_unet_blends_argmax_mask_witness :
  np_index_first0 unet_output = Some unet_raw
  ∧ shape unet_raw = [2; 1; 2]%nat
  ∧ (0 < 2)%nat
  ∧ (∀ i j cls, (i < 1)%nat → (j < 2)%nat →
       first_largest (pixel_scores unet_raw 2 i j) cls → (cls < 2)%nat)
  ∧ (∃ pred_mask,
       get_mask unet_raw = Some pred_mask
       ∧ shape pred_mask = [1; 2; 3]%nat ∧ ndarray_wf pred_mask
       ∧ (∀ i j, (i < 1)%nat → (j < 2)%nat →
            ∃ cls,
              first_largest (pixel_scores unet_raw 2 i j) cls
              ∧ [[0; 0; 0]; [255; 255; 255]]%Z !! cls
                = Some (take 3 (drop ((i * 2 + j) * 3) (data pred_mask))))
       ∧ @post_unet cv2_trace 1 [unet_output] frame_ex
         = outcome_of (@cv2_addWeighted cv2_trace frame_ex 0.7 pred_mask
                         (@py_float_sub cv2_trace 1.0 0.7) 0.0))
  ∧ np_index_first0 unet_output_three = Some unet_three
  ∧ shape unet_three = [3; 1; 1]%nat
  ∧ (∃ i j cls, (i < 1)%nat ∧ (j < 1)%nat
       ∧ first_largest (pixel_scores unet_three 3 i j) cls ∧ (2 ≤ cls)%nat)
  ∧ @post_unet cv2_trace 1 [unet_output_three] frame_one = Raises.
Proof.
  assert (H1 : np_index_first0 unet_output = Some unet_raw) by reflexivity.
  assert (H2 : shape unet_raw = [2; 1; 2]%nat) by reflexivity.
  assert (H3 : (0 < 2)%nat) by lia.
  assert (H4 : ∀ i j cls, (i < 1)%nat → (j < 2)%nat →
            first_largest (pixel_scores unet_raw 2 i j) cls → (cls < 2)%nat).
  { intros i j cls _ _ [Hlt _]. exact Hlt. }
  assert (H5 : np_index_first0 unet_output_three = Some unet_three)
    by reflexivity.
  assert (H6 : shape unet_three = [3; 1; 1]%nat) by reflexivity.
  assert (H7 : (0 < 3)%nat) by lia.
  assert (H8 : ∃ i j cls, (i < 1)%nat ∧ (j < 1)%nat
            ∧ first_largest (pixel_scores unet_three 3 i j) cls
            ∧ (2 ≤ cls)%nat).
  { exists 0%nat, 0%nat, 2%nat. split; [lia|]. split; [lia|].
    split; [|lia]. apply np_argmax_first_largest. reflexivity. }
  split; [exact H1|]. split; [exact H2|]. split; [exact H3|].
  split; [exact H4|]. split.
  { exact (proj1 (@post_unet_blends_argmax_mask cv2_trace 0 unet_output []
                    frame_ex unet_raw 2 1 2 H1 H2 H3) H4). }
  split; [exact H5|]. split; [exact H6|]. split; [exact H8|].
  exact (proj2 (@post_unet_blends_argmax_mask cv2_trace 0 unet_output_three []
                  frame_one unet_three 3 1 1 H5 H6 H7) H8).
Defined.

Lemma yolov5_post_process_result_witness :
  length [cell_hot; cell_zero; cell_zero] = 3%nat
  ∧ Forall (λ t, ∃ g k, scale_tensor g k t ∧ (6 ≤ k)%nat)
      [cell_hot; cell_zero; cell_zero]
  ∧ ∃ per_scale,
      mapM (λ '(input, mask), decode_filter_scale cfg_ex input mask)
           (zip [cell_hot; cell_zero; cell_zero] masks) = Some per_scale
      ∧ ((Forall (λ r, r = ([], [], [])) per_scale
          ∧ yolov5_post_process cfg_ex argsort_merge
              [cell_hot; cell_zero; cell_zero]
            = Some (PyNone, PyNone, PyNone))
         ∨ (Exists (λ r, r.2 ≠ []) per_scale
            ∧ ∃ boxes classes scores,
                yolov5_post_process cfg_ex argsort_merge
                  [cell_hot; cell_zero; cell_zero]
                = Some (PySome boxes, PySome classes, PySome scores)
                ∧ length boxes = length classes
                ∧ length classes = length scores
                ∧ (0 < length scores)%nat)).
Proof.
  assert (Hlen : length [cell_hot; cell_zero; cell_zero] = 3%nat) by reflexivity.
  assert (Hin : Forall (λ t, ∃ g k, scale_tensor g k t ∧ (6 ≤ k)%nat)
                  [cell_hot; cell_zero; cell_zero]).
  { repeat constructor; exists 1%nat, 6%nat;
      (split; [|lia]; split; [reflexivity|]; split; [lia|];
       split; [lia|reflexivity]). }
  split; [exact Hlen|]. split; [exact Hin|].
  exact (yolov5_post_process_result cfg_ex argsort_merge argsort_merge_spec
           _ Hlen Hin).
Defined.

(** * Further properties of the code *)

(** ** Non-maximum suppression: what is kept and what is dropped *)

Lemma StronglySorted_sublist {A} (R : relation A) (l k : list A) :
  k `sublist_of` l → StronglySorted R l → StronglySorted R k.
Proof.
  induction 1 as [|x k l Hkl IH|x k l Hkl IH]; intros Hl; [done|..].
  - apply StronglySorted_cons in Hl as [Hx Hl]. constructor; [by apply IH|].
    apply Forall_forall. intros y Hy.
    eapply Forall_forall in Hx; [done|]. by eapply elem_of_sublist.
  - apply StronglySorted_cons in Hl as [_ Hl]. by apply IH.
Qed.

Lemma StronglySorted_snoc {A} (R : relation A) (l : list A) (x : A) :
  StronglySorted R l → Forall (λ y, R y x) l → StronglySorted R (l ++ [x]).
Proof.
  induction 1 as [|y l Hl IH Hy]; intros Hx; simpl.
  - repeat constructor.
  - apply Forall_cons in Hx as [Hyx Hx]. constructor; [by apply IH|].
    apply Forall_app. split; [done|]. by constructor.
Qed.

Lemma StronglySorted_reverse {A} (R : relation A) (l : list A) :
  StronglySorted R l → StronglySorted (flip R) (reverse l).
Proof.
  induction 1 as [|x l Hl IH Hx]; [constructor|].
  rewrite reverse_cons. apply StronglySorted_snoc; [done|].
  by apply Forall_reverse.
Qed.

Section Nms_kept_dropped.
Variable cfg : config.
Variable argsort : list Q → list nat.
Hypothesis argsort_spec : is_argsort argsort.

Implicit Types (boxes : list row4) (scores : list Q) (order keep : list nat).

Local Instance stays_decision boxes i j : Decision (stays cfg boxes i j).
Proof. unfold stays. apply _. Defined.

(** A run of [nms_boxes] that does not raise read every index of
    [order] in [boxes] and returns what the loop keeps. *)
Lemma nms_boxes_inv boxes scores keep :
  nms_boxes cfg argsort boxes scores = Some keep →
  Forall (λ i, i < length boxes)%nat (reverse (argsort scores))
  ∧ keep = nms_keep cfg boxes (reverse (argsort scores)).
Proof.
  unfold nms_boxes. cbv zeta. intros Hk.
  case_guard; [|done]. split; [done|]. by injection Hk as <-.
Qed.

(** [order] lists the scores in descending order. *)
Lemma order_descending scores :
  StronglySorted (λ a b, nth b scores 0 <= nth a scores 0)
    (reverse (argsort scores)).
Proof.
  destruct (argsort_spec scores) as [_ Hs].
  by apply StronglySorted_reverse in Hs.
Qed.

(** A box the loop drops was dropped by a box it keeps, listed
    earlier in [order]. *)
Lemma nms_loop_dropped boxes (R : relation nat) order :
  StronglySorted R order →
  ∀ j, j ∈ order → j ∉ nms_keep cfg boxes order →
    ∃ i, i ∈ nms_keep cfg boxes order ∧ R i j ∧ ¬ stays cfg boxes i j.
Proof.
  apply (nms_loop_ind cfg boxes (λ o k,
    StronglySorted R o → ∀ j, j ∈ o → j ∉ k →
      ∃ i, i ∈ k ∧ R i j ∧ ¬ stays cfg boxes i j)).
  { intros _ j Hj. inversion Hj. }
  intros i rest IH Hs j Hj Hnk.
  apply StronglySorted_cons in Hs as [Hi Hs].
  apply not_elem_of_cons in Hnk as [Hji Hnk].
  apply elem_of_cons in Hj as [->|Hj]; [done|].
  destruct (decide (stays cfg boxes i j)) as [Hst|Hst].
  - destruct (IH (StronglySorted_sublist _ _ _ (sublist_filter _ _) Hs) j)
      as (i' & Hi' & HR & Hn); [by apply list_elem_of_filter|done|].
    exists i'. split; [by right|done].
  - exists i. split; [left|]. split; [|done].
    by eapply Forall_forall in Hi.
Qed.

(** The kept boxes of one run of [nms_boxes], pairwise. *)
Lemma nms_boxes_kept_pairwise boxes scores keep :
  nms_boxes cfg argsort boxes scores = Some keep →
  NoDup keep
  ∧ Forall (λ i, i < length boxes)%nat keep
  ∧ (scores ≠ [] → keep ≠ [])
  ∧ ∀ i j bi bj, i ∈ keep → j ∈ keep → i ≠ j →
      boxes !! i = Some bi → boxes !! j = Some bj →
      np_le (box_ovr bi bj) (nms_thresh cfg) = true.
Proof.
  intros [Hrange ->]%nms_boxes_inv.
  pose proof (nms_loop_sublist cfg boxes (reverse (argsort scores))) as Hsub.
  pose proof (order_perm argsort argsort_spec scores) as Hperm.
  split_and!.
  - eapply sublist_NoDup; [|exact Hsub]. rewrite Hperm. apply NoDup_seq.
  - apply Forall_forall. intros i Hi. rewrite Forall_forall in Hrange.
    apply Hrange. by eapply elem_of_sublist.
  - intros Hne. apply nms_loop_nonempty. intros Hnil. rewrite Hnil in Hperm.
    apply Permutation_length in Hperm. rewrite length_seq in Hperm.
    by destruct scores.
  - intros i j bi bj Hi Hj Hij Hbi Hbj.
    apply list_elem_of_lookup_1 in Hi as [p Hp], Hj as [q Hq].
    pose proof (nms_loop_pairwise cfg boxes (reverse (argsort scores))) as Hs.
    destruct (Nat.lt_trichotomy p q) as [Hpq|[->|Hpq]].
    + pose proof (StronglySorted_lookup _ _ _ _ _ _ Hs Hpq Hp Hq) as Hst.
      by eapply stays_box_ovr in Hst.
    + congruence.
    + pose proof (StronglySorted_lookup _ _ _ _ _ _ Hs Hpq Hq Hp) as Hst.
      rewrite box_ovr_sym. by eapply stays_box_ovr in Hst.
Qed.

(** The first kept index holds a maximal score. *)
Lemma nms_boxes_best boxes scores keep :
  nms_boxes cfg argsort boxes scores = Some keep → scores ≠ [] →
  ∃ i rest, keep = i :: rest ∧ ∀ s, s ∈ scores → s <= nth i scores 0.
Proof.
  intros [Hrange ->]%nms_boxes_inv Hne.
  pose proof (order_descending scores) as Hdesc.
  pose proof (order_perm argsort argsort_spec scores) as Hperm.
  destruct (reverse (argsort scores)) as [|i rest] eqn:Horder.
  { apply Permutation_length in Hperm. rewrite length_seq in Hperm.
    by destruct scores. }
  rewrite nms_loop_cons. eexists _, _. split; [done|].
  intros s [p Hp]%list_elem_of_lookup_1.
  assert (Hin : p ∈ i :: rest).
  { rewrite Hperm. apply elem_of_seq. apply lookup_lt_Some in Hp. lia. }
  replace s with (nth p scores 0) by (by rewrite nth_lookup, Hp).
  apply StronglySorted_cons in Hdesc as [Hi _].
  apply elem_of_cons in Hin as [->|Hin]; [apply Qle_refl|].
  by eapply Forall_forall in Hi.
Qed.

(** X1: after suppression no two boxes are left that overlap by more
    than [nms_thresh]: the kept indices are distinct, valid, and any
    two of the kept boxes pass the overlap test of the loop. *)
Theorem nms_boxes_survivors_disjoint boxes scores keep :
  nms_boxes cfg argsort boxes scores = Some keep →
  NoDup keep
  ∧ ∀ i j, i ∈ keep → j ∈ keep → i ≠ j →
      ∃ bi bj,
        boxes !! i = Some bi ∧ boxes !! j = Some bj
        ∧ np_le (box_ovr bi bj) (nms_thresh cfg) = true.
Proof.
  intros (Hnd & Hrange & _ & Hpair)%nms_boxes_kept_pairwise.
  split; [done|]. intros i j Hi Hj Hij. rewrite Forall_forall in Hrange.
  destruct (lookup_lt_is_Some_2 boxes i (Hrange i Hi)) as [bi Hbi].
  destruct (lookup_lt_is_Some_2 boxes j (Hrange j Hj)) as [bj Hbj].
  exists bi, bj. split_and!; [done..|].
  exact (Hpair i j bi bj Hi Hj Hij Hbi Hbj).
Qed.

(** X2: the best-scoring box always survives: the first kept index
    holds a maximal score, and the kept indices are listed by
    descending score. *)
Theorem nms_boxes_keeps_best boxes scores keep :
  nms_boxes cfg argsort boxes scores = Some keep → scores ≠ [] →
  (∃ i rest, keep = i :: rest ∧ ∀ s, s ∈ scores → s <= nth i scores 0)
  ∧ StronglySorted (λ a b, nth b scores 0 <= nth a scores 0) keep.
Proof.
  intros Hk Hne. split; [by apply (nms_boxes_best boxes)|].
  apply nms_boxes_inv in Hk as [_ ->].
  eapply StronglySorted_sublist; [apply nms_loop_sublist|].
  apply order_descending.
Qed.

(** X3: nothing is dropped without a reason: a box that is not kept
    fails the overlap test against a kept box whose score is at least
    its own. *)
Theorem nms_boxes_dropped_overlaps_kept boxes scores keep j :
  nms_boxes cfg argsort boxes scores = Some keep →
  (j < length scores)%nat → j ∉ keep →
  ∃ i bi bj,
    i ∈ keep ∧ boxes !! i = Some bi ∧ boxes !! j = Some bj
    ∧ nth j scores 0 <= nth i scores 0
    ∧ np_le (box_ovr bi bj) (nms_thresh cfg) = false.
Proof.
  intros [Hrange ->]%nms_boxes_inv Hj Hnk.
  pose proof (order_perm argsort argsort_spec scores) as Hperm.
  assert (Hjo : j ∈ reverse (argsort scores)).
  { rewrite Hperm. apply elem_of_seq. lia. }
  destruct (nms_loop_dropped boxes _ _ (order_descending scores) j Hjo Hnk)
    as (i & Hi & Hle & Hst).
  assert (Hbi : is_Some (boxes !! i)).
  { apply lookup_lt_is_Some. rewrite Forall_forall in Hrange.
    apply Hrange. eapply elem_of_sublist; [done|apply nms_loop_sublist]. }
  assert (Hbj : is_Some (boxes !! j)).
  { apply lookup_lt_is_Some. by eapply Forall_forall in Hrange. }
  destruct Hbi as [bi Hbi], Hbj as [bj Hbj]. exists i, bi, bj.
  split_and!; [done..|].
  rewrite (stays_box_ovr cfg boxes i j bi bj) in Hst by done.
  by destruct (np_le (box_ovr bi bj) (nms_thresh cfg)).
Qed.

(** X4: boxes that pairwise pass the overlap test are all kept. *)
Theorem nms_boxes_keeps_separate_boxes boxes scores :
  length boxes = length scores →
  (∀ i j bi bj, i ≠ j → boxes !! i = Some bi → boxes !! j = Some bj →
     np_le (box_ovr bi bj) (nms_thresh cfg) = true) →
  ∃ keep,
    nms_boxes cfg argsort boxes scores = Some keep
    ∧ keep ≡ₚ seq 0 (length boxes).
Proof.
  intros Hlen Hsep. exists (reverse (argsort scores)).
  pose proof (order_perm argsort argsort_spec scores) as Hperm.
  split; [|by rewrite Hlen].
  rewrite nms_boxes_loop by done. f_equal.
  apply nms_loop_fixed, StronglySorted_pairwise.
  { rewrite Hperm. apply NoDup_seq. }
  intros a b Ha Hb Hab. rewrite Hperm in Ha, Hb.
  apply elem_of_seq in Ha as [_ Ha], Hb as [_ Hb]. rewrite <- Hlen in Ha, Hb.
  destruct (lookup_lt_is_Some_2 boxes a Ha) as [ba Hba].
  destruct (lookup_lt_is_Some_2 boxes b Hb) as [bb Hbb].
  apply (stays_box_ovr cfg boxes a b ba bb); [done..|]. by eapply Hsep.
Qed.

(** X5: [nms_boxes] raises ([IndexError]) exactly when there are more
    scores than boxes; on no boxes and no scores it keeps nothing. *)
Theorem nms_boxes_raises_iff boxes scores :
  (nms_boxes cfg argsort boxes scores = None
   ↔ (length boxes < length scores)%nat)
  ∧ nms_boxes cfg argsort [] [] = Some [].
Proof.
  pose proof (order_perm argsort argsort_spec scores) as Hperm.
  split.
  - unfold nms_boxes. cbv zeta. case_guard as Hg; split; try done.
    + intros Hlt. exfalso.
      assert (Hin : length boxes ∈ reverse (argsort scores)).
      { rewrite Hperm. apply elem_of_seq. lia. }
      eapply Forall_forall in Hg; [|done]. lia.
    + intros _. destruct (decide (length boxes < length scores)%nat); [done|].
      exfalso. apply Hg. apply Forall_forall. intros i Hi.
      rewrite Hperm in Hi. apply elem_of_seq in Hi. lia.
  - pose proof (order_perm argsort argsort_spec []) as Hp. simpl in Hp.
    apply Permutation_nil_r in Hp.
    unfold nms_boxes. cbv zeta. rewrite Hp.
    rewrite option_guard_True by constructor. simpl.
    by simp nms_loop.
Qed.
End Nms_kept_dropped.

(** ** Suppression per class *)

Lemma np_where_NoDup (m : list bool) : NoDup (np_where m).
Proof. unfold np_where. apply NoDup_filter, NoDup_seq. Qed.

(** Indexing twice is indexing by the indexed indices. *)
Lemma np_take_compose {A} (a b c : list A) (i1 i2 : list nat) :
  np_take a i1 = Some b → np_take b i2 = Some c →
  ∃ idx, np_take i1 i2 = Some idx ∧ np_take a idx = Some c.
Proof.
  unfold np_take. intros Hb%mapM_Some Hc%mapM_Some.
  assert (Hidx : is_Some (mapM (λ i, i1 !! i) i2)).
  { apply mapM_is_Some, Forall_forall. intros i [p Hp]%list_elem_of_lookup_1.
    destruct (Forall2_lookup_l _ _ _ _ _ Hc Hp) as (x & _ & Hx).
    apply lookup_lt_Some in Hx. rewrite <- (Forall2_length _ _ _ Hb) in Hx.
    by apply lookup_lt_is_Some. }
  destruct Hidx as [idx Hidx]. exists idx. split; [done|].
  apply mapM_Some in Hidx. apply mapM_Some.
  apply Forall2_same_length_lookup. split.
  { rewrite <- (Forall2_length _ _ _ Hidx). by apply Forall2_length in Hc. }
  intros p n x Hn Hx.
  destruct (Forall2_lookup_r _ _ _ _ _ Hidx Hn) as (i & Hi & Hin).
  destruct (Forall2_lookup_l _ _ _ _ _ Hc Hi) as (x' & Hx' & Hbx).
  destruct (Forall2_lookup_l _ _ _ _ _ Hb Hin) as (x'' & Hx'' & Hax).
  congruence.
Qed.

Lemma np_take_NoDup {A} (a r : list A) (idx : list nat) :
  NoDup a → NoDup idx → np_take a idx = Some r → NoDup r.
Proof.
  intros Ha Hidx [_ Hr]%np_take_lookup. apply NoDup_alt. intros p q x Hp Hq.
  destruct (Hr _ _ Hp) as (i & Hi & Hai). destruct (Hr _ _ Hq) as (j & Hj & Haj).
  assert (i = j) as -> by exact (proj1 (NoDup_alt a) Ha i j x Hai Haj).
  exact (proj1 (NoDup_alt idx) Hidx p q j Hi Hj).
Qed.

Lemma np_take_app {A} (a r1 r2 : list A) (i1 i2 : list nat) :
  np_take a i1 = Some r1 → np_take a i2 = Some r2 →
  np_take a (i1 ++ i2) = Some (r1 ++ r2).
Proof.
  unfold np_take. rewrite !mapM_Some. apply Forall2_app.
Qed.

(** In a concatenation of groups that carry pairwise different keys,
    two elements with one key sit in one group. *)
Lemma mjoin_pairwise {A B} (key : A → B) (R : relation A)
    (groups : list (list A)) (keys : list B) :
  NoDup keys →
  Forall2 (λ g k, Forall (λ x, key x = k) g
                  ∧ ∀ p q x y, p ≠ q → g !! p = Some x → g !! q = Some y → R x y)
          groups keys →
  ∀ p q x y, p ≠ q → mjoin groups !! p = Some x → mjoin groups !! q = Some y →
    key x = key y → R x y.
Proof.
  intros Hnd Hg. induction Hg as [|g k groups keys [Hk Hg] Hgs IH];
    intros p q x y Hpq Hx Hy Hkey; [done|].
  apply NoDup_cons in Hnd as [Hnk Hnd].
  assert (Hrest : ∀ z, z ∈ mjoin groups → key z ∈ keys).
  { intros z (g' & Hz & [n Hn]%list_elem_of_lookup_1)%list_elem_of_join.
    destruct (Forall2_lookup_l _ _ _ _ _ Hgs Hn) as (k' & Hk' & Hkg & _).
    eapply Forall_forall in Hkg; [|done]. rewrite Hkg.
    by eapply list_elem_of_lookup_2. }
  simpl in Hx, Hy.
  apply lookup_app_Some in Hx as [Hx|[Hpl Hx]],
    Hy as [Hy|[Hql Hy]].
  - by eapply Hg.
  - exfalso. apply Hnk. eapply Forall_forall in Hk; [|by eapply list_elem_of_lookup_2].
    rewrite <- Hk, Hkey. by eapply Hrest, list_elem_of_lookup_2.
  - exfalso. apply Hnk. eapply Forall_forall in Hk; [|by eapply list_elem_of_lookup_2].
    rewrite <- Hk, <- Hkey. by eapply Hrest, list_elem_of_lookup_2.
  - eapply (IH Hnd (p - length g)%nat (q - length g)%nat); [lia|done..].
Qed.

(** Three arrays concatenated group by group line up entry by entry
    when they do so in every group. *)
Lemma zip3_mjoin {A B C} (kept : list (list A * list B * list C)) :
  Forall (λ r, length r.1.1 = length r.2 ∧ length r.1.2 = length r.2) kept →
  zip (zip (mjoin (kept.*1.*1)) (mjoin (kept.*1.*2))) (mjoin (kept.*2))
  = mjoin ((λ r, zip (zip r.1.1 r.1.2) r.2) <$> kept).
Proof.
  induction 1 as [|[[a b] c] kept [Ha Hb] _ IH]; [done|].
  csimpl in *. rewrite <- IH.
  rewrite !zip_with_app; [done|..].
  - rewrite length_zip_with. lia.
  - congruence.
Qed.

Section Suppress_kept.
Variable cfg : config.
Variable argsort : list Q → list nat.
Hypothesis argsort_spec : is_argsort argsort.

(** What the loop body of [yolov5_post_process] contributes for the
    class [cl]: the detections at a duplicate-free list [idx] of
    positions of that class, at least one when the class occurs, no
    two of them overlapping by more than the threshold. *)
Lemma suppress_class_group boxes classes scores cl nb nc ns :
  suppress_class cfg argsort boxes classes scores cl = Some (nb, nc, ns) →
  ∃ idx,
    NoDup idx
    ∧ Forall (λ i, classes !! i = Some cl) idx
    ∧ np_take boxes idx = Some nb
    ∧ np_take classes idx = Some nc
    ∧ np_take scores idx = Some ns
    ∧ (cl ∈ classes → idx ≠ [])
    ∧ (∀ p q bp bq, p ≠ q → nb !! p = Some bp → nb !! q = Some bq →
         np_le (box_ovr bp bq) (nms_thresh cfg) = true)
    ∧ ∀ i s, classes !! i = Some cl → scores !! i = Some s →
        ∃ s', head ns = Some s' ∧ s <= s'.
Proof.
  unfold suppress_class. intros Hs.
  set (inds := np_where ((λ c', bool_decide (c' = cl)) <$> classes)) in *.
  apply bind_Some in Hs as (b & Hb & Hs).
  apply bind_Some in Hs as (c & Hc & Hs).
  apply bind_Some in Hs as (s & Hsc & Hs).
  apply bind_Some in Hs as (keep & Hkeep & Hs).
  apply bind_Some in Hs as (nb' & Hnb & Hs).
  apply bind_Some in Hs as (nc' & Hnc & Hs).
  apply bind_Some in Hs as (ns' & Hns & Hs).
  simplify_eq.
  destruct (nms_boxes_kept_pairwise cfg argsort argsort_spec _ _ _ Hkeep)
    as (Hnd & Hrange & Hne & Hpair).
  destruct (np_take_compose _ _ _ _ _ Hb Hnb) as (idx & Hidx & Hib).
  destruct (np_take_compose _ _ _ _ _ Hc Hnc) as (idx' & Hidx' & Hic).
  destruct (np_take_compose _ _ _ _ _ Hsc Hns) as (idx'' & Hidx'' & His).
  simplify_eq. exists idx. split_and!; try done.
  - eapply np_take_NoDup; [apply np_where_NoDup|done..].
  - apply Forall_forall. intros i Hi.
    eapply np_take_subseteq in Hi; [|done].
    apply elem_of_np_where in Hi. rewrite list_lookup_fmap in Hi.
    destruct (classes !! i) as [c'|]; simplify_eq/=.
    by apply bool_decide_eq_true_1 in Hi as ->.
  - intros [i Hi]%list_elem_of_lookup_1 Hnil.
    assert (Hin : i ∈ inds).
    { apply elem_of_np_where. rewrite list_lookup_fmap, Hi. simpl.
      by rewrite bool_decide_eq_true_2. }
    assert (Hsne : s ≠ []).
    { apply np_take_lookup in Hsc as [Hl _]. intros ->.
      destruct inds; [inversion Hin|done]. }
    specialize (Hne Hsne).
    apply np_take_lookup in Hidx as [Hl _]. subst idx.
    by destruct keep.
  - intros p q bp bq Hpq Hp Hq.
    destruct (np_take_lookup _ _ _ Hnb) as [_ Hlk].
    destruct (Hlk _ _ Hp) as (i & Hi & Hbi).
    destruct (Hlk _ _ Hq) as (j & Hj & Hbj).
    apply (Hpair i j); [by eapply list_elem_of_lookup_2..| |done|done].
    intros ->. apply Hpq. exact (proj1 (NoDup_alt keep) Hnd p q j Hi Hj).
  - intros i s0 Hi Hs0.
    assert (Hin : i ∈ inds).
    { apply elem_of_np_where. rewrite list_lookup_fmap, Hi. simpl.
      by rewrite bool_decide_eq_true_2. }
    apply list_elem_of_lookup_1 in Hin as [n Hn].
    pose proof Hsc as Hsc'. apply mapM_Some in Hsc'.
    destruct (Forall2_lookup_l _ _ _ _ _ Hsc' Hn) as (y & Hy & Hiy).
    assert (y = s0) as -> by congruence.
    destruct (nms_boxes_best cfg argsort argsort_spec _ _ _ Hkeep)
      as (i0 & rest & -> & Hbest).
    { intros ->. done. }
    pose proof Hns as Hns'. apply mapM_Some in Hns'.
    destruct (Forall2_lookup_l _ _ _ _ _ Hns' (eq_refl : (i0 :: rest) !! 0%nat = Some i0))
      as (s' & Hs' & Hi0).
    exists s'. split; [by destruct ns|].
    replace s' with (nth i0 s 0) by (by rewrite nth_lookup, Hi0).
    apply Hbest. by eapply list_elem_of_lookup_2.
Qed.

(** Lines 188-208 when they return arrays: the arrays are the
    concatenation, over the classes present, of what each class
    contributes. *)
Lemma suppress_inv boxes classes scores nb nc ns :
  suppress cfg argsort boxes classes scores
  = Some (PySome nb, PySome nc, PySome ns) →
  ∃ kept,
    mapM (suppress_class cfg argsort boxes classes scores)
         (elements (list_to_set classes : gset nat)) = Some kept
    ∧ nb = mjoin (kept.*1.*1) ∧ nc = mjoin (kept.*1.*2) ∧ ns = mjoin (kept.*2).
Proof.
  unfold suppress. intros Hs. apply bind_Some in Hs as (kept & Hkept & Hs).
  exists kept. split; [done|]. case_bool_decide; [done|].
  unfold np_concatenate in Hs. repeat case_guard; by simplify_eq/=.
Qed.

(** The detections [suppress] returns are the filtered detections at
    a duplicate-free list of positions, every class present among
    them; two returned detections of one class pass the overlap test. *)
Lemma suppress_selection boxes classes scores nb nc ns :
  suppress cfg argsort boxes classes scores
  = Some (PySome nb, PySome nc, PySome ns) →
  (∃ idx, NoDup idx
          ∧ np_take boxes idx = Some nb
          ∧ np_take classes idx = Some nc
          ∧ np_take scores idx = Some ns)
  ∧ (∀ c, c ∈ nc ↔ c ∈ classes)
  ∧ (∀ p q c bp bq, p ≠ q →
       nc !! p = Some c → nc !! q = Some c →
       nb !! p = Some bp → nb !! q = Some bq →
       np_le (box_ovr bp bq) (nms_thresh cfg) = true)
  ∧ ∀ c i s, classes !! i = Some c → scores !! i = Some s →
      ∃ p s', nc !! p = Some c ∧ ns !! p = Some s' ∧ s <= s'.
Proof.
  intros (kept & Hkept & -> & -> & ->)%suppress_inv.
  set (elems := elements (list_to_set classes : gset nat)) in *.
  assert (Helems : ∀ cl, cl ∈ elems ↔ cl ∈ classes).
  { intros cl. unfold elems. by rewrite elem_of_elements, elem_of_list_to_set. }
  assert (Hnd : NoDup elems) by apply NoDup_elements.
  apply mapM_Some in Hkept.
  assert (Hgroups : Forall2 (λ r cl, ∃ idx,
      NoDup idx
      ∧ Forall (λ i, classes !! i = Some cl) idx
      ∧ np_take boxes idx = Some r.1.1
      ∧ np_take classes idx = Some r.1.2
      ∧ np_take scores idx = Some r.2
      ∧ idx ≠ []
      ∧ (∀ p q bp bq, p ≠ q → r.1.1 !! p = Some bp → r.1.1 !! q = Some bq →
           np_le (box_ovr bp bq) (nms_thresh cfg) = true)
      ∧ ∀ i s, classes !! i = Some cl → scores !! i = Some s →
          ∃ s', head r.2 = Some s' ∧ s <= s') kept elems).
  { apply Forall2_same_length_lookup.
    split; [symmetry; by eapply Forall2_length|].
    intros n [[gb gc] gs] cl Hr Hcl.
    pose proof (Forall2_lookup_lr _ _ _ _ _ _ Hkept Hcl Hr) as Hsc. simpl.
    destruct (suppress_class_group _ _ _ _ _ _ _ Hsc)
      as (idx & ? & ? & ? & ? & ? & Hne & ? & ?).
    exists idx. split_and!; try done.
    apply Hne, Helems. by eapply list_elem_of_lookup_2. }
  clear Hkept.
  assert (Hlens : Forall (λ r : list row4 * list nat * list Q,
            length r.1.1 = length r.2 ∧ length r.1.2 = length r.2) kept).
  { apply Forall_lookup. intros n [[gb gc] gs] Hn.
    destruct (Forall2_lookup_l _ _ _ _ _ Hgroups Hn)
      as (cl' & _ & idx & _ & _ & Hb & Hc & Hs & _). simpl in *.
    apply np_take_lookup in Hb as [Hb _], Hc as [Hc _], Hs as [Hs _].
    split; congruence. }
  pose proof (zip3_mjoin kept Hlens) as Hzip.
  destruct (mjoin_triples_length kept Hlens) as [Hl1 Hl2].
  split_and!.
  - (* the positions *)
    clear Helems Hlens Hzip Hl1 Hl2. revert Hnd.
    induction Hgroups as [|[[gb gc] gs] cl kept elems' Hg Hgs IH]; intros Hnd.
    { exists []. by split_and!; [constructor|..]. }
    apply NoDup_cons in Hnd as [Hcl Hnd].
    destruct (IH Hnd) as (idx' & Hnd' & Hb' & Hc' & Hs').
    destruct Hg as (idx & Hndi & Hcli & Hb & Hc & Hs & _ & _). simpl in *.
    exists (idx ++ idx'). split_and!; csimpl; [|by apply np_take_app..].
    apply NoDup_app. split_and!; [done| |done].
    intros i Hi Hi'.
    eapply Forall_forall in Hcli; [|done].
    (* [i] is a position of a later class as well *)
    assert (Hlater : ∀ j, j ∈ idx' → ∃ cl', cl' ∈ elems' ∧ classes !! j = Some cl').
    { clear -Hgs Hc'. intros j Hj.
      destruct (np_take_lookup _ _ _ Hc') as [Hl Hlk].
      apply list_elem_of_lookup_1 in Hj as [p Hp].
      destruct (lookup_lt_is_Some_2 (mjoin (kept.*1.*2)) p) as [c Hcp].
      { rewrite Hl. by eapply lookup_lt_Some. }
      destruct (Hlk _ _ Hcp) as (j' & Hj' & Hcj). simplify_eq.
      exists c. split; [|done].
      apply list_elem_of_lookup_2, list_elem_of_join in Hcp as (gc & Hcgc & Hgc).
      apply list_elem_of_fmap in Hgc as ([gb gc'] & -> & Hgc).
      apply list_elem_of_fmap in Hgc as ([[gb' gc''] gs'] & [= -> ->] & Hr).
      apply list_elem_of_lookup_1 in Hr as [n Hn].
      destruct (Forall2_lookup_l _ _ _ _ _ Hgs Hn)
        as (cl' & Hcl' & idx & _ & Hall & _ & Hc & _). simpl in *.
      eapply np_take_lookup in Hc as [_ Hc].
      apply list_elem_of_lookup_1 in Hcgc as [o Ho].
      destruct (Hc _ _ Ho) as (i & Hi & Hci).
      eapply Forall_forall in Hall; [|by eapply list_elem_of_lookup_2].
      assert (c = cl') as -> by congruence.
      by eapply list_elem_of_lookup_2. }
    destruct (Hlater i Hi') as (cl' & Hcl' & Hicl'). congruence.
  - (* the classes *)
    intros c. rewrite <- Helems. split.
    + intros (gc & Hc & Hgc)%list_elem_of_join.
      apply list_elem_of_fmap in Hgc as ([gb gc'] & -> & Hgc).
      apply list_elem_of_fmap in Hgc as ([[gb' gc''] gs'] & [= -> ->] & Hr).
      apply list_elem_of_lookup_1 in Hr as [n Hn].
      destruct (Forall2_lookup_l _ _ _ _ _ Hgroups Hn)
        as (cl' & Hcl' & idx & _ & Hall & _ & Hcs & _). simpl in *.
      eapply np_take_lookup in Hcs as [_ Hcs].
      apply list_elem_of_lookup_1 in Hc as [o Ho].
      destruct (Hcs _ _ Ho) as (i & Hi & Hci).
      eapply Forall_forall in Hall; [|by eapply list_elem_of_lookup_2].
      assert (c = cl') as -> by congruence.
      by eapply list_elem_of_lookup_2.
    + intros [n Hn]%list_elem_of_lookup_1.
      destruct (Forall2_lookup_r _ _ _ _ _ Hgroups Hn)
        as ([[gb gc] gs] & Hr & idx & _ & Hall & _ & Hcs & _ & Hne & _).
      simpl in *. destruct idx as [|i idx]; [done|].
      apply Forall_cons in Hall as [Hi _].
      apply np_take_lookup in Hcs as [Hl Hcs].
      destruct gc as [|c' gc]; [done|].
      destruct (Hcs 0%nat c' eq_refl) as (i' & [= <-] & Hci).
      assert (c' = c) as -> by congruence.
      apply list_elem_of_join. exists (c :: gc). split; [left|].
      apply list_elem_of_fmap. exists (gb, c :: gc). split; [done|].
      apply list_elem_of_fmap. exists (gb, c :: gc, gs). split; [done|].
      by eapply list_elem_of_lookup_2.
  - (* the overlaps *)
    intros p q c bp bq Hpq Hcp Hcq Hbp Hbq.
    destruct (lookup_lt_is_Some_2 (mjoin (kept.*2)) p) as [sp Hsp].
    { rewrite <- Hl1. by eapply lookup_lt_Some. }
    destruct (lookup_lt_is_Some_2 (mjoin (kept.*2)) q) as [sq Hsq].
    { rewrite <- Hl1. by eapply lookup_lt_Some. }
    assert (Htp : mjoin ((λ r, zip (zip r.1.1 r.1.2) r.2) <$> kept) !! p
                  = Some (bp, c, sp)).
    { rewrite <- Hzip. apply lookup_zip_with_Some. eexists _, _.
      split; [done|]. split; [|done].
      apply lookup_zip_with_Some. by eexists _, _. }
    assert (Htq : mjoin ((λ r, zip (zip r.1.1 r.1.2) r.2) <$> kept) !! q
                  = Some (bq, c, sq)).
    { rewrite <- Hzip. apply lookup_zip_with_Some. eexists _, _.
      split; [done|]. split; [|done].
      apply lookup_zip_with_Some. by eexists _, _. }
    refine (mjoin_pairwise (λ t : row4 * nat * Q, t.1.2)
              (λ t1 t2, np_le (box_ovr t1.1.1 t2.1.1) (nms_thresh cfg) = true)
              ((λ r, zip (zip r.1.1 r.1.2) r.2) <$> kept) elems Hnd
              _ p q (bp, c, sp) (bq, c, sq) Hpq Htp Htq eq_refl).
    apply Forall2_fmap_l. eapply Forall2_impl; [done|].
    intros [[gb gc] gs] cl (idx & _ & Hall & Hb & Hc & Hs & _ & Hpair & _).
    simpl in *. split.
    + apply Forall_forall. intros [[b' c'] s'] [o Ho]%list_elem_of_lookup_1.
      apply lookup_zip_with_Some in Ho as ([b'' c''] & s'' & [= <- <- <-] & Ho & _).
      apply lookup_zip_with_Some in Ho as (b'' & c'' & [= <- <-] & _ & Ho).
      simpl. apply np_take_lookup in Hc as [_ Hc].
      destruct (Hc _ _ Ho) as (i & Hi & Hci).
      eapply Forall_forall in Hall; [|by eapply list_elem_of_lookup_2].
      congruence.
    + intros p' q' [[b1 c1] s1] [[b2 c2] s2] Hpq' H1 H2. simpl.
      apply lookup_zip_with_Some in H1 as ([b'' c''] & s'' & [= <- <- <-] & H1 & _).
      apply lookup_zip_with_Some in H1 as (b'' & c'' & [= <- <-] & H1 & _).
      apply lookup_zip_with_Some in H2 as ([b'' c''] & s'' & [= <- <- <-] & H2 & _).
      apply lookup_zip_with_Some in H2 as (b'' & c'' & [= <- <-] & H2 & _).
      by eapply Hpair.
  - (* the best score of a class *)
    intros c i s Hci Hsi.
    assert (Hc : c ∈ elems) by (by eapply Helems, list_elem_of_lookup_2).
    apply list_elem_of_lookup_1 in Hc as [n Hn].
    destruct (Forall2_lookup_r _ _ _ _ _ Hgroups Hn)
      as ([[gb gc] gs] & Hr & idx & _ & Hall & Hb & Hcs & Hs & Hne & _ & Hbest).
    simpl in *.
    destruct (Hbest i s Hci Hsi) as (s' & Hs' & Hle).
    eapply Forall_lookup in Hlens as [Hlb Hlc]; [|done]. simpl in *.
    destruct gs as [|s'' gs]; simplify_eq/=.
    destruct gb as [|b' gb]; [done|]. destruct gc as [|c' gc]; [done|].
    assert (c' = c) as ->.
    { apply np_take_lookup in Hcs as [_ Hcs].
      destruct (Hcs 0%nat c' eq_refl) as (j & Hj & Hcj).
      eapply Forall_forall in Hall; [|by eapply list_elem_of_lookup_2].
      congruence. }
    assert (Hin : (b', c, s') ∈ mjoin ((λ r, zip (zip r.1.1 r.1.2) r.2) <$> kept)).
    { apply list_elem_of_join. eexists. split; [|apply list_elem_of_fmap].
      2: { eexists. split; [done|]. by eapply list_elem_of_lookup_2. }
      simpl. left. }
    rewrite <- Hzip in Hin. apply list_elem_of_lookup_1 in Hin as [p Hp].
    apply lookup_zip_with_Some in Hp as ([b1 c1] & s1 & [= <- <- <-] & Hp & Hsp).
    apply lookup_zip_with_Some in Hp as (b1 & c1 & [= <- <-] & Hbp & Hcp).
    by exists p, s'.
Qed.

(** X6: every detection [yolov5_post_process] returns is one of the
    detections that passed the filter, and none is returned twice:
    the three arrays are the filtered arrays at one duplicate-free
    list of positions. *)
Theorem yolov5_post_process_selects input_data nb nc ns :
  yolov5_post_process cfg argsort input_data
  = Some (PySome nb, PySome nc, PySome ns) →
  ∃ fb fc fs idx,
    decode_filter cfg input_data = Some (fb, fc, fs)
    ∧ NoDup idx
    ∧ np_take fb idx = Some nb
    ∧ np_take fc idx = Some nc
    ∧ np_take fs idx = Some ns.
Proof.
  unfold yolov5_post_process. intros Hy.
  apply bind_Some in Hy as ([[fb fc] fs] & Hd & Hs).
  destruct (suppress_selection _ _ _ _ _ _ Hs) as ((idx & ? & ? & ? & ?) & _).
  by exists fb, fc, fs, idx.
Qed.

(** X7: suppression never removes a class: the classes among the
    returned detections are the classes among the filtered ones. *)
Theorem yolov5_post_process_keeps_every_class input_data nb nc ns :
  yolov5_post_process cfg argsort input_data
  = Some (PySome nb, PySome nc, PySome ns) →
  ∃ fb fc fs,
    decode_filter cfg input_data = Some (fb, fc, fs)
    ∧ ∀ c, c ∈ nc ↔ c ∈ fc.
Proof.
  unfold yolov5_post_process. intros Hy.
  apply bind_Some in Hy as ([[fb fc] fs] & Hd & Hs).
  destruct (suppress_selection _ _ _ _ _ _ Hs) as (_ & Hc & _).
  by exists fb, fc, fs.
Qed.

(** X8: among the returned detections, two of one class never overlap
    by more than [nms_thresh] (as the loop measures overlap). *)
Theorem yolov5_post_process_same_class_disjoint input_data nb nc ns :
  yolov5_post_process cfg argsort input_data
  = Some (PySome nb, PySome nc, PySome ns) →
  ∀ p q c bp bq, p ≠ q →
    nc !! p = Some c → nc !! q = Some c →
    nb !! p = Some bp → nb !! q = Some bq →
    np_le (box_ovr bp bq) (nms_thresh cfg) = true.
Proof.
  unfold yolov5_post_process. intros Hy.
  apply bind_Some in Hy as ([[fb fc] fs] & Hd & Hs).
  by destruct (suppress_selection _ _ _ _ _ _ Hs) as (_ & _ & Hp & _).
Qed.

(** X9: the best detection of every class survives: for each filtered
    detection there is a returned detection of the same class with a
    score at least as high. *)
Theorem yolov5_post_process_keeps_class_best input_data nb nc ns :
  yolov5_post_process cfg argsort input_data
  = Some (PySome nb, PySome nc, PySome ns) →
  ∃ fb fc fs,
    decode_filter cfg input_data = Some (fb, fc, fs)
    ∧ ∀ c i s, fc !! i = Some c → fs !! i = Some s →
        ∃ p s', nc !! p = Some c ∧ ns !! p = Some s' ∧ s <= s'.
Proof.
  unfold yolov5_post_process. intros Hy.
  apply bind_Some in Hy as ([[fb fc] fs] & Hd & Hs).
  destruct (suppress_selection _ _ _ _ _ _ Hs) as (_ & _ & _ & Hbest).
  by exists fb, fc, fs.
Qed.
End Suppress_kept.

(** ** From the accelerator outputs to the tensors of [process] *)

(** The element [(i, j, a, c)] of the transposed array. *)
Lemma transpose_2301_lookup (dat : list Q) (k h w i j a c : nat) :
  (i < h)%nat → (j < w)%nat → (a < 3)%nat → (c < k)%nat →
  (i ← seq 0 h; j ← seq 0 w; m ← seq 0 3;
   (λ n, nth (((m * k + n) * h + i) * w + j)%nat dat 0) <$> seq 0 k)
    !! ((((i * w + j) * 3 + a) * k + c)%nat)
  = Some (nth (((a * k + c) * h + i) * w + j)%nat dat 0).
Proof.
  intros Hi Hj Ha Hc.
  assert (Hk : ∀ i j m : nat,
    length ((λ n, nth (((m * k + n) * h + i) * w + j)%nat dat 0) <$> seq 0 k) = k).
  { intros. by rewrite length_fmap, length_seq. }
  assert (H3 : ∀ i j : nat,
    length (m ← seq 0 3;
            (λ n, nth (((m * k + n) * h + i) * w + j)%nat dat 0) <$> seq 0 k)
    = (3 * k)%nat).
  { intros. rewrite (length_bind_uniform _ k), length_seq; [done|].
    apply Forall_forall. intros ??. apply Hk. }
  assert (Hw : ∀ i : nat,
    length (j ← seq 0 w; m ← seq 0 3;
            (λ n, nth (((m * k + n) * h + i) * w + j)%nat dat 0) <$> seq 0 k)
    = (w * (3 * k))%nat).
  { intros. rewrite (length_bind_uniform _ (3 * k)), length_seq; [done|].
    apply Forall_forall. intros ??. apply H3. }
  replace (((i * w + j) * 3 + a) * k + c)%nat
    with (i * (w * (3 * k)) + (j * (3 * k) + (a * k + c)))%nat by lia.
  rewrite (lookup_bind_uniform _ (w * (3 * k))); [| |nia].
  2: { apply Forall_forall. intros ??. apply Hw. }
  rewrite lookup_seq_lt by done. cbn [mbind option_bind].
  rewrite (lookup_bind_uniform _ (3 * k)); [| |nia].
  2: { apply Forall_forall. intros ??. apply H3. }
  rewrite lookup_seq_lt by done. cbn [mbind option_bind].
  rewrite (lookup_bind_uniform _ k); [| |done].
  2: { apply Forall_forall. intros ??. apply Hk. }
  rewrite lookup_seq_lt by done. cbn [mbind option_bind].
  by rewrite list_lookup_fmap, lookup_seq_lt.
Qed.

Lemma transpose_2301_length (dat : list Q) (k h w : nat) :
  length (i ← seq 0 h; j ← seq 0 w; m ← seq 0 3;
          (λ n, nth (((m * k + n) * h + i) * w + j)%nat dat 0) <$> seq 0 k)
  = (h * (w * (3 * k)))%nat.
Proof.
  rewrite (length_bind_uniform _ (w * (3 * k))), length_seq; [done|].
  apply Forall_forall. intros ??.
  rewrite (length_bind_uniform _ (3 * k)), length_seq; [done|].
  apply Forall_forall. intros ??.
  rewrite (length_bind_uniform _ k), length_seq; [done|].
  apply Forall_forall. intros ??. by rewrite length_fmap, length_seq.
Qed.

(** Lines 32-33 for one raw output of shape [(1, 3k, h, w)]. *)
Lemma yolov5_input_spec (out : ndarray Q) (k h w : nat) :
  shape out = [1; 3 * k; h; w]%nat → ndarray_wf out →
  (0 < h)%nat → (0 < w)%nat →
  ∃ t,
    (np_reshape out [Some 3%nat; None; Some h; Some w] ≫= np_transpose_2301)
    = Some t
    ∧ shape t = [h; w; 3; k]%nat
    ∧ ndarray_wf t
    ∧ ∀ i j a c, (i < h)%nat → (j < w)%nat → (a < 3)%nat → (c < k)%nat →
        at4 t i j a c = at4 out 0 (a * k + c) i j.
Proof.
  intros Hshape Hwf Hh Hw. red in Hwf. rewrite Hshape in Hwf.
  assert (Hlen : length (data out) = (k * (3 * (h * (w * 1))))%nat).
  { rewrite Hwf. simpl. lia. }
  assert (Hf : filter (λ o : option nat, o = None)
                 [Some 3%nat; None; Some h; Some w] = [None]) by done.
  assert (Hkn : size_of (omap id [Some 3%nat; None; Some h; Some w])
                = (3 * (h * (w * 1)))%nat) by done.
  unfold np_reshape. rewrite Hf, Hkn. cbn [length].
  rewrite option_guard_True.
  2: { split; [nia|]. rewrite Hlen. apply Nat.Div0.mod_mul. }
  cbn [mbind option_bind].
  replace (length (data out) / (3 * (h * (w * 1))))%nat with k.
  2: { rewrite Hlen. symmetry. apply Nat.div_mul. nia. }
  cbn [fmap list_fmap default].
  unfold np_transpose_2301. cbn [shape data].
  eexists. split; [done|]. split; [done|]. split.
  { red. cbn [shape data]. rewrite transpose_2301_length. simpl. lia. }
  intros i j a c Hi Hj Ha Hc.
  rewrite (at4_nth _ h w 3 k) by done.
  rewrite (at4_nth out _ _ _ _ _ _ _ _ Hshape).
  cbn [data]. apply nth_lookup_Some.
  rewrite transpose_2301_lookup by done. unfold id.
  rewrite Nat.mul_0_l, Nat.add_0_l. reflexivity.
Qed.

Lemma yolov5_inputs_spec (outputs : list (ndarray Q)) :
  Forall (λ out, ∃ k h w,
            shape out = [1; 3 * k; h; w]%nat ∧ ndarray_wf out
            ∧ (0 < h)%nat ∧ (0 < w)%nat) outputs →
  ∃ input_data,
    yolov5_inputs outputs = Some input_data
    ∧ Forall2 (λ out t, ∃ k h w,
                 shape out = [1; 3 * k; h; w]%nat
                 ∧ shape t = [h; w; 3; k]%nat
                 ∧ ndarray_wf t
                 ∧ ∀ i j a c,
                     (i < h)%nat → (j < w)%nat → (a < 3)%nat → (c < k)%nat →
                     at4 t i j a c = at4 out 0 (a * k + c) i j)
              outputs input_data.
Proof.
  intros Hout. unfold yolov5_inputs.
  induction Hout as [|out outputs (k & h & w & Hs & Hwf & Hh & Hw) _ IH].
  { exists []. split; [done|constructor]. }
  destruct IH as (input_data & Hin & Hall).
  destruct (yolov5_input_spec out k h w Hs Hwf Hh Hw) as (t & Ht & Hst & Hwt & Hat).
  exists (t :: input_data). split.
  - rewrite mapM_Some. constructor; [|by apply mapM_Some].
    rewrite Hs. exact Ht.
  - constructor; [|done]. by exists k, h, w.
Qed.

(** X10: [post_yolov5] hands [process] the raw outputs re-laid out: a
    raw output of shape [(1, 3k, h, w)] becomes a tensor of shape
    [(h, w, 3, k)] whose entry [(i, j, a, c)] is the raw entry
    [(0, a * k + c, i, j)]. *)
Theorem yolov5_inputs_layout (outputs : list (ndarray Q)) :
  Forall (λ out, ∃ k h w,
            shape out = [1; 3 * k; h; w]%nat ∧ ndarray_wf out
            ∧ (0 < h)%nat ∧ (0 < w)%nat) outputs →
  ∃ input_data,
    yolov5_inputs outputs = Some input_data
    ∧ Forall2 (λ out t, ∃ k h w,
                 shape out = [1; 3 * k; h; w]%nat
                 ∧ shape t = [h; w; 3; k]%nat
                 ∧ ndarray_wf t
                 ∧ ∀ i j a c,
                     (i < h)%nat → (j < w)%nat → (a < 3)%nat → (c < k)%nat →
                     at4 t i j a c = at4 out 0 (a * k + c) i j)
              outputs input_data.
Proof. apply yolov5_inputs_spec. Qed.

(** ** Drawing *)

Section Draw_facts.
Context `{Cv2}.
Variable cfg : config.

Lemma draw_one_None image box score cl :
  net_size cfg = 0%Z ∨ (length (classes cfg) ≤ cl)%nat →
  draw_one cfg image box score cl = None.
Proof.
  intros Hor. unfold draw_one, py_truediv. cbv zeta.
  destruct (decide (net_size cfg = 0%Z)) as [Hn|Hn].
  { by rewrite !option_guard_False by (by intros ?). }
  destruct Hor as [?|Hcl%lookup_ge_None]; [done|].
  rewrite !option_guard_True by done.
  cbn [fmap option_fmap option_map mbind option_bind].
  destruct (cv2_rectangle _ _ _ _ _); cbn [mbind option_bind]; [|done].
  by rewrite Hcl.
Qed.

(** X11: [draw] raises when it has a detection to draw and [net_size]
    is zero ([ZeroDivisionError]), and when the class of a detection
    in its [zip] has no name in the configuration ([IndexError], unless
    an earlier detection has raised already). *)
Theorem draw_raises_without_scale_or_name image boxes scores cls :
  (net_size cfg = 0%Z ∧ boxes ≠ [] ∧ scores ≠ [] ∧ cls ≠ [])
  ∨ (∃ p cl, (p < length boxes)%nat ∧ (p < length scores)%nat
             ∧ cls !! p = Some cl ∧ (length (classes cfg) ≤ cl)%nat) →
  draw cfg image boxes scores cls = None.
Proof.
  intros [(Hn & Hb & Hs & Hc)|(p & cl & Hb & Hs & Hp & Hcl)].
  - destruct boxes as [|box boxes]; [done|].
    destruct scores as [|score scores]; [done|].
    destruct cls as [|cl cls]; [done|]. cbn [draw].
    by rewrite draw_one_None by (by left).
  - revert image boxes scores cls Hb Hs Hp.
    induction p as [|p IH]; intros image boxes scores cls Hb Hs Hp;
      destruct boxes as [|box boxes]; [simpl in Hb; lia| |simpl in Hb; lia|];
      (destruct scores as [|score scores]; [simpl in Hs; lia|]);
      (destruct cls as [|cl' cls]; [done|]); cbn [draw].
    + injection Hp as ->. by rewrite draw_one_None by (by right).
    + destruct (draw_one cfg image box score cl') as [image'|];
        cbn [mbind option_bind]; [|done].
      apply IH; simpl in *; [lia|lia|done].
Qed.
End Draw_facts.

(** ** From the accelerator outputs to classes with a name *)

Section Post_yolov5_facts.
Variable cfg : config.
Variable argsort : list Q → list nat.
Hypothesis argsort_spec : is_argsort argsort.

(** A class index that leaves [filter_boxes] is below the number of
    class columns. *)
Lemma filter_boxes_classes_lt boxes confs probs bs cs ss k :
  filter_boxes cfg boxes confs probs = Some (bs, cs, ss) →
  last (shape probs) = Some k →
  Forall (λ cl, cl < k)%nat cs.
Proof.
  intros (Hlb & Hlc & k' & Hk' & Hent)%filter_boxes_entries Hk.
  simplify_eq. apply Forall_lookup. intros p cl Hcl.
  destruct (lookup_lt_is_Some_2 ss p) as [s Hs].
  { rewrite <- Hlc. by eapply lookup_lt_Some. }
  destruct (Hent p s Hs) as (n & conf & row & m & cl' & _ & -> & _ & Harg & _ & _ & _ & Hcl' & _).
  simplify_eq. apply np_argmax_lt in Harg. rewrite length_take in Harg. lia.
Qed.

Lemma decode_filter_scale_classes input mask g k b c s :
  scale_tensor g k input → mask ∈ masks →
  decode_filter_scale cfg input mask = Some (b, c, s) →
  Forall (λ cl, cl < k - 5)%nat c.
Proof.
  intros Hin (aw0 & ah0 & aw1 & ah1 & aw2 & ah2 & Hsel)%masks_select.
  destruct (process_spec cfg _ _ _ _ _ _ _ _ _ _ _ Hin Hsel)
    as (box & Hp & _).
  unfold decode_filter_scale. rewrite Hp. cbn [mbind option_bind].
  intros Hf. by eapply filter_boxes_classes_lt.
Qed.

(** X12: on the outputs of a network with a square grid, at least one
    class column and no more class columns than the configuration
    names classes, the re-laying out of [post_yolov5] and
    [yolov5_post_process] both return, and every class index returned
    has a name in the configuration: the label lookup of [draw] finds
    it. *)
Theorem yolov5_classes_have_names outputs :
  outputs ≠ [] →
  Forall (λ out, ∃ k g,
            shape out = [1; 3 * k; g; g]%nat ∧ ndarray_wf out
            ∧ (0 < g)%nat ∧ (6 ≤ k)%nat
            ∧ (k - 5 ≤ length (classes cfg))%nat) outputs →
  ∃ input_data,
    yolov5_inputs outputs = Some input_data
    ∧ (yolov5_post_process cfg argsort input_data
       = Some (PyNone, PyNone, PyNone)
       ∨ ∃ boxes cls scores,
           yolov5_post_process cfg argsort input_data
           = Some (PySome boxes, PySome cls, PySome scores)
           ∧ length boxes = length cls ∧ length cls = length scores
           ∧ (0 < length scores)%nat
           ∧ Forall (λ cl, is_Some (classes cfg !! cl)) cls).
Proof.
  intros Hne Hout.
  destruct (yolov5_inputs_spec outputs) as (input_data & Hin & Hlay).
  { eapply Forall_impl; [done|].
    intros out (k & g & ? & ? & ? & _). by exists k, g, g. }
  exists input_data. split; [done|].
  assert (Htens : Forall (λ t, ∃ g k, scale_tensor g k t ∧ (6 ≤ k)%nat
                                      ∧ (k - 5 ≤ length (classes cfg))%nat)
                    input_data).
  { apply Forall_lookup. intros n t Ht.
    destruct (Forall2_lookup_r _ _ _ _ _ Hlay Ht)
      as (out & Hout' & k & h & w & Hs & Hst & Hwf & _).
    eapply Forall_lookup in Hout as (k' & g & Hs' & _ & Hg & Hk & Hcls); [|done].
    rewrite Hs in Hs'. injection Hs' as Hk' -> ->.
    assert (k = k') as -> by lia.
    exists g, k'. split; [|done]. split_and!; [done|done|lia|done]. }
  assert (Hlen : input_data ≠ []).
  { apply Forall2_length in Hlay. destruct outputs, input_data; done. }
  destruct (decode_filter_scales_total cfg input_data) as (per_scale & Hps & Hl).
  { eapply Forall_impl; [done|]. intros t (g & k & ? & ? & _). eauto. }
  assert (Hin' : Forall (λ t, ∃ g k, scale_tensor g k t) input_data).
  { eapply Forall_impl; [done|]. intros t (g & k & ? & _). eauto. }
  pose proof (decode_filter_scales_lengths cfg _ _ Hin' Hps) as Hlens.
  destruct (mjoin_triples_length _ Hlens) as [Hl1 Hl2].
  unfold yolov5_post_process.
  rewrite (decode_filter_of_scales cfg _ _ Hps)
    by (destruct per_scale, input_data; simpl in *; done || lia).
  cbn [mbind option_bind].
  destruct (suppress_spec cfg argsort argsort_spec
              (xywh2xyxy (mjoin (per_scale.*1.*1))) (mjoin (per_scale.*1.*2))
              (mjoin (per_scale.*2)))
    as [[Hnil Hs]|[Hcne (nb & nc & ns & Hs & Hlb & Hlc & Hpos & _)]].
  { unfold xywh2xyxy. rewrite length_fmap. congruence. }
  { congruence. }
  - by left.
  - right. exists nb, nc, ns. split_and!; [done..|].
    destruct (suppress_selection cfg argsort argsort_spec _ _ _ _ _ _ Hs)
      as (_ & Hcls & _).
    apply Forall_forall. intros cl Hcl%Hcls. apply lookup_lt_is_Some.
    apply list_elem_of_join in Hcl as (gc & Hcl & Hgc).
    apply list_elem_of_fmap in Hgc as ([gb gc'] & -> & Hgc).
    apply list_elem_of_fmap in Hgc as ([[gb' gc''] gs'] & [= -> ->] & Hr).
    apply list_elem_of_lookup_1 in Hr as [q Hr].
    destruct (mapM_lookup_Some _ _ _ _ _ Hps Hr) as ([input mask] & Him & Hf).
    apply list_elem_of_lookup_2, zip_masks_elem in Him as [Hi Hm].
    eapply Forall_forall in Htens as (g & k & Hst & Hk & Hk'); [|done].
    pose proof (decode_filter_scale_classes _ _ _ _ _ _ _ Hst Hm Hf) as Hlt.
    eapply Forall_forall in Hlt; [|done]. simpl in Hlt. lia.
Qed.
End Post_yolov5_facts.

(** ** Filtering keeps what passes *)

Lemma np_take_lookup_l {A} (a : list A) (idx : list nat) (r : list A) p i :
  np_take a idx = Some r → idx !! p = Some i →
  ∃ v, r !! p = Some v ∧ a !! i = Some v.
Proof.
  intros Hr%mapM_Some Hi.
  destruct (Forall2_lookup_l _ _ _ _ _ Hr Hi) as (v & ? & ?). eauto.
Qed.

Section Filter_complete.
Variable cfg : config.

(** X13: [filter_boxes] drops nothing that passes both thresholds: an
    anchor whose objectness and whose maximum class probability are
    each at least [obj_thresh] is returned, with its box, the first
    index of that maximum as class and their product as score. *)
Theorem filter_boxes_keeps_passing boxes confs probs bs cs ss k n conf m :
  filter_boxes cfg boxes confs probs = Some (bs, cs, ss) →
  last (shape probs) = Some k →
  data confs !! n = Some conf →
  np_max (take k (drop (n * k) (data probs))) = Some m →
  obj_thresh cfg <= conf → obj_thresh cfg <= m →
  ∃ p cl,
    ss !! p = Some (m * conf)
    ∧ cs !! p = Some cl
    ∧ np_argmax (take k (drop (n * k) (data probs))) = Some cl
    ∧ bs !! p = Some (row4_of_list (take 4 (drop (n * 4) (data boxes)))).
Proof.
  unfold filter_boxes. intros Hf Hk Hconf Hmax Hle1 Hle2.
  rewrite np_reshape_flat, np_reshape_rows in Hf.
  destruct (decide (0 < 4 ∧ length (data boxes) mod 4 = 0)%nat) as [[_ Hb4]|];
    [|done].
  cbn [fmap option_fmap option_map mbind option_bind data] in Hf.
  rewrite Hk in Hf. cbn [mbind option_bind] in Hf.
  rewrite np_reshape_rows in Hf.
  destruct (decide (0 < k ∧ length (data probs) mod k = 0)%nat) as [[Hk0 Hpk]|];
    [|done].
  cbn [fmap option_fmap option_map mbind option_bind data] in Hf.
  rewrite !nd_rows_2d in Hf.
  apply bind_Some in Hf as (boxes1 & Hboxes1 & Hf).
  apply bind_Some in Hf as (confs1 & Hconfs1 & Hf).
  apply bind_Some in Hf as (probs1 & Hprobs1 & Hf).
  apply bind_Some in Hf as (cms & Hcms & Hf).
  apply bind_Some in Hf as (classes & Hclasses & Hf).
  apply bind_Some in Hf as (boxes2 & Hboxes2 & Hf).
  apply bind_Some in Hf as (classes2 & Hclasses2 & Hf).
  apply bind_Some in Hf as (scores & Hscores & Hf).
  simplify_eq.
  set (pos1 := np_where (Qle_bool (obj_thresh cfg) <$> data confs)) in *.
  set (pos2 := np_where (Qle_bool (obj_thresh cfg) <$> cms)) in *.
  (* the anchor passes the first threshold *)
  assert (Hn1 : n ∈ pos1).
  { apply elem_of_np_where. rewrite list_lookup_fmap, Hconf. simpl.
    f_equal. by apply Qle_bool_iff. }
  apply list_elem_of_lookup_1 in Hn1 as [q Hq].
  destruct (np_take_lookup_l _ _ _ _ _ Hconfs1 Hq) as (conf' & Hconf' & Hc').
  assert (conf' = conf) as -> by congruence.
  destruct (np_take_lookup_l _ _ _ _ _ Hprobs1 Hq) as (row & Hrow & Hrown).
  apply chunk_lookup_Some in Hrown as [_ ->].
  destruct (np_take_lookup_l _ _ _ _ _ Hboxes1 Hq) as (b & Hb & Hbn).
  rewrite list_lookup_fmap in Hbn.
  destruct (chunk 4 _ _ !! n) as [brow|] eqn:Hbrow; [|done].
  apply chunk_lookup_Some in Hbrow as [_ ->]. simpl in Hbn. simplify_eq.
  apply mapM_Some in Hcms, Hclasses.
  destruct (Forall2_lookup_l _ _ _ _ _ Hcms Hrow) as (m' & Hm' & Hmax').
  assert (m' = m) as -> by congruence.
  destruct (Forall2_lookup_l _ _ _ _ _ Hclasses Hrow) as (cl & Hcl & Harg).
  (* and the second *)
  assert (Hq2 : q ∈ pos2).
  { apply elem_of_np_where. rewrite list_lookup_fmap, Hm'. simpl.
    f_equal. by apply Qle_bool_iff. }
  apply list_elem_of_lookup_1 in Hq2 as [p Hp].
  destruct (np_take_lookup_l _ _ _ _ _ Hboxes2 Hp) as (b' & Hb' & Hb1).
  destruct (np_take_lookup_l _ _ _ _ _ Hclasses2 Hp) as (cl' & Hcl' & Hcl1).
  destruct (np_take_lookup_l _ _ _ _ _ Hscores Hp) as (s & Hs & Hs1).
  apply lookup_zip_with_Some in Hs1 as (m'' & conf'' & -> & Hm'' & Hconf'').
  simplify_eq. by exists p, cl.
Qed.

(** X14: every class index [filter_boxes] returns is below the number
    of class columns of [box_class_probs]. *)
Theorem filter_boxes_classes_in_range boxes confs probs bs cs ss k :
  filter_boxes cfg boxes confs probs = Some (bs, cs, ss) →
  last (shape probs) = Some k →
  Forall (λ cl, cl < k)%nat cs.
Proof. apply filter_boxes_classes_lt. Qed.
End Filter_complete.

(** ** The class of an entry is its first most probable class *)

Section Filter_class.
Variable cfg : config.

(** X15: the class [filter_boxes] returns for an entry is the first
    class whose probability is the largest of the anchor, and the
    score of the entry is the probability of that very class times the
    objectness. *)
Theorem filter_boxes_class_of_score boxes confs probs bs cs ss :
  filter_boxes cfg boxes confs probs = Some (bs, cs, ss) →
  ∃ k, last (shape probs) = Some k
    ∧ ∀ p score cl, ss !! p = Some score → cs !! p = Some cl →
        ∃ n objectness,
          data confs !! n = Some objectness
          ∧ let class_probs := take k (drop (n * k) (data probs)) in
            score = nth cl class_probs 0 * objectness
            ∧ (∀ c, (c < cl)%nat → nth c class_probs 0 < nth cl class_probs 0)
            ∧ (∀ x, x ∈ class_probs → x <= nth cl class_probs 0).
Proof.
  intros (_ & _ & k & Hk & Hent)%filter_boxes_entries.
  exists k. split; [done|]. intros p score cl Hs Hc.
  destruct (Hent p score Hs)
    as (n & conf & row & m & cl' & Hn & -> & Hmax & Harg & _ & _ & -> & Hcl' & _).
  assert (cl' = cl) as -> by congruence.
  destruct (np_argmax_spec _ _ _ Harg Hmax) as (Hat & Hfirst & Hall).
  exists n, conf. split; [done|]. cbv zeta. rewrite Hat. by split_and!.
Qed.
End Filter_class.

(** ** What [process] asks of its input *)

(** Lines 88-92 go through on a square grid only: [col] holds
    [grid_w * grid_w] offsets and is reshaped to
    [(grid_h, grid_w, 1, 1)]. *)
Lemma process_grid_square (grid_h grid_w : nat) (grid : ndarray Z) :
  process_grid grid_h grid_w = Some grid → grid_h = grid_w ∧ (0 < grid_h)%nat.
Proof.
  unfold process_grid. intros Hg.
  apply bind_Some in Hg as (col & Hcol & Hg).
  apply bind_Some in Hg as (row & _ & Hg).
  apply bind_Some in Hg as (col' & Hcol' & _).
  rewrite (np_tile_spec (np_arange grid_w) [] grid_w grid_w eq_refl) in Hcol.
  cbn [mbind option_bind] in Hcol. rewrite np_reshape_rows in Hcol.
  case_decide as Hw; [|done]. destruct Hw as [Hw _]. injection Hcol as <-.
  apply bind_Some in Hcol' as (c2 & Hc2 & _).
  change [Some grid_h; Some grid_w; Some 1%nat; Some 1%nat]
    with (Some <$> [grid_h; grid_w; 1; 1]%nat) in Hc2.
  rewrite np_reshape_full in Hc2. case_decide as Hsz; [|done].
  cbn [data np_arange app size_of foldr] in Hsz.
  rewrite length_app, length_join_replicate, length_take, length_drop,
    length_fmap, length_seq in Hsz.
  cbn [length] in Hsz. nia.
Qed.

Section Process_input.
Variable cfg : config.

(** X16: [process] raises unless the grid is square and not empty,
    there are three anchors per cell and at least five values per
    anchor. *)
Theorem process_requires_square_grid input mask anchors gh gw a k r :
  shape input = [gh; gw; a; k] →
  process cfg input mask anchors = Some r →
  gh = gw ∧ (0 < gh)%nat ∧ a = 3%nat ∧ (5 ≤ k)%nat.
Proof.
  intros Hs Hp. unfold process in Hp.
  apply bind_Some in Hp as (an & _ & Hp).
  rewrite Hs in Hp. cbn [lookup list_lookup mbind option_bind] in Hp.
  apply bind_Some in Hp as (bc & Hbc & Hp).
  apply bind_Some in Hp as (bp & _ & Hp).
  apply bind_Some in Hp as (bxy & Hbxy & Hp).
  apply bind_Some in Hp as (grid & Hgrid & Hp).
  apply bind_Some in Hp as (bxy' & Hadd & _).
  destruct (process_grid_square _ _ _ Hgrid) as [<- Hg].
  destruct (process_grid_spec gh Hg) as (gd & Hgd & _).
  rewrite Hgd in Hgrid. injection Hgrid as <-.
  (* five values per anchor: input[..., 4] *)
  apply fmap_Some in Hbc as (bc' & Hbc & _).
  unfold np_index_last in Hbc. rewrite Hs in Hbc.
  cbn [last mbind option_bind] in Hbc.
  case_guard as Hk; [|done].
  (* three anchors: box_xy += grid *)
  apply fmap_Some in Hbxy as (sl & Hsl & ->).
  unfold np_slice_last in Hsl. rewrite Hs in Hsl.
  cbn [last mbind option_bind removelast app] in Hsl. injection Hsl as <-.
  unfold np_iadd in Hadd. cbn [shape np_map] in Hadd.
  case_guard as Hshape; [|done].
  injection Hshape as -> _.
  split_and!; [done|done|done|lia].
Qed.
End Process_input.

(** ** Where a detection comes from *)

(** The tensor at position [t] is decoded with the anchors
    [3 t], [3 t + 1], [3 t + 2]. *)
Lemma masks_anchor (t : nat) (mask : list nat) :
  masks !! t = Some mask →
  ∃ aw0 ah0 aw1 ah1 aw2 ah2,
    mapM (λ i, anchors !! i) mask = Some [[aw0; ah0]; [aw1; ah1]; [aw2; ah2]]
    ∧ ∀ a, (a < 3)%nat →
        anchors !! (3 * t + a)%nat
        = Some [nth a [aw0; aw1; aw2] 0; nth a [ah0; ah1; ah2] 0].
Proof.
  destruct t as [|[|[|t]]]; intros [= <-]; eexists _, _, _, _, _, _;
    (split; [reflexivity|]); intros [|[|[|a]]] Ha; (reflexivity || lia).
Qed.

Lemma nth_take_drop {A} (l : list A) (n w c : nat) (d : A) :
  (c < w)%nat → nth c (take w (drop n l)) d = nth (n + c) l d.
Proof.
  intros Hc. by rewrite !nth_lookup, lookup_take_lt, lookup_drop by done.
Qed.

Section Provenance.
Variable cfg : config.
Variable argsort : list Q → list nat.
Hypothesis argsort_spec : is_argsort argsort.

(** What one scale hands on, entry by entry. *)
Lemma decode_filter_scale_detections input t mask g k b c s :
  scale_tensor g k input → masks !! t = Some mask →
  decode_filter_scale cfg input mask = Some (b, c, s) →
  ∀ p box cl score,
    b !! p = Some box → c !! p = Some cl → s !! p = Some score →
    ∃ i j a aw ah cell m,
      (i < g)%nat ∧ (j < g)%nat ∧ (a < 3)%nat
      ∧ anchors !! (3 * t + a)%nat = Some [aw; ah]
      ∧ chunk k (g * g * 3) (data input) !! ((i * g + j) * 3 + a)%nat
        = Some cell
      ∧ box = Row4
          ((sigmoid (nth 0 cell 0) * 2 - 0.5 + inject_Z (Z.of_nat j))
           * inject_Z (Z.quot (net_size cfg) (Z.of_nat g)))
          ((sigmoid (nth 1 cell 0) * 2 - 0.5 + inject_Z (Z.of_nat i))
           * inject_Z (Z.quot (net_size cfg) (Z.of_nat g)))
          ((sigmoid (nth 2 cell 0) * 2) ^ 2 * aw)
          ((sigmoid (nth 3 cell 0) * 2) ^ 2 * ah)
      ∧ np_max (sigmoid <$> drop 5 cell) = Some m
      ∧ np_argmax (sigmoid <$> drop 5 cell) = Some cl
      ∧ score = m * sigmoid (nth 4 cell 0).
Proof.
  intros Hin Hmask.
  destruct (masks_anchor t mask Hmask)
    as (aw0 & ah0 & aw1 & ah1 & aw2 & ah2 & Hsel & Hanchor).
  destruct (process_spec cfg _ _ _ _ _ _ _ _ _ _ _ Hin Hsel)
    as (box0 & Hp & Hbs & Hbl & Hbox).
  destruct Hin as (Hshape & Hg & Hk & Hwf).
  assert (Hlen : length (data input) = (g * g * 3 * k)%nat).
  { red in Hwf. rewrite Hwf, Hshape. simpl. lia. }
  unfold decode_filter_scale. rewrite Hp. cbn [mbind option_bind].
  intros (Hlb & Hlc & kc & Hkc & Hent)%filter_boxes_entries.
  cbn [shape data] in Hkc, Hent. simplify_eq/=.
  intros p box cl score Hb Hc Hs.
  destruct (Hent p score Hs)
    as (n & conf & row & m & cl' & Hn & -> & Hmax & Harg & _ & _ & -> & Hcl' & Hb').
  assert (cl' = cl) as -> by congruence.
  rewrite Hb in Hb'. injection Hb' as ->.
  rewrite !list_lookup_fmap in Hn.
  destruct (chunk k (g * g * 3) (data input) !! n) as [cell|] eqn:Hcell;
    [|done].
  simplify_eq/=.
  pose proof Hcell as Hcell'.
  apply chunk_lookup_Some in Hcell' as [Hng Hcelleq].
  set (i := (n / 3 / g)%nat). set (j := ((n / 3) mod g)%nat).
  set (a := (n mod 3)%nat).
  assert (Hi : (i < g)%nat).
  { unfold i. apply Nat.Div0.div_lt_upper_bound, Nat.Div0.div_lt_upper_bound. lia. }
  assert (Hj : (j < g)%nat) by (unfold j; apply Nat.mod_upper_bound; lia).
  assert (Ha : (a < 3)%nat) by (unfold a; apply Nat.mod_upper_bound; lia).
  assert (Hnija : ((i * g + j) * 3 + a)%nat = n).
  { unfold i, j, a. pose proof (Nat.div_mod_eq n 3).
    pose proof (Nat.div_mod_eq (n / 3) g). lia. }
  destruct (Hbox i j a Hi Hj Ha) as (H0 & H1 & H2 & H3).
  cbv zeta in H0, H1, H2, H3. rewrite Hnija in H0, H1, H2, H3.
  assert (Hraw : ∀ e, (e < k)%nat →
            nth (n * k + e) (data input) 0 = nth e cell 0).
  { intros e He. rewrite Hcelleq. by rewrite nth_take_drop. }
  rewrite !Hraw in H0, H1, H2, H3 by lia.
  (* the class scores of the anchor *)
  assert (Hrow : take (k - 5) (drop (n * (k - 5))
                   (sigmoid <$> (chunk k (g * g * 3) (data input)
                                   ≫= λ row, take (k - 5) (drop 5 row))))
                 = sigmoid <$> drop 5 cell).
  { rewrite <- fmap_drop, <- fmap_take. f_equal.
    erewrite bind_uniform_row; [| |done].
    - apply take_ge.
      rewrite length_drop, (chunk_row_length k (g * g * 3) (data input) n cell);
        [lia|lia|done].
    - eapply Forall_impl; [apply chunk_Forall_length; lia|].
      intros r Hr. simpl in Hr. rewrite length_take, length_drop. lia. }
  rewrite Hrow in Hmax, Harg.
  exists i, j, a, (nth a [aw0; aw1; aw2] 0), (nth a [ah0; ah1; ah2] 0), cell, m.
  rewrite Hnija. split_and!; try done; [by apply Hanchor|].
  unfold row4_of_list. rewrite !nth_take_drop by lia.
  rewrite Nat.add_0_r.
  apply nth_lookup_Some with (d := 0) in H0, H1, H2, H3.
  - by rewrite H0, H1, H2, H3.
Qed.

(** X17: every detection [yolov5_post_process] returns is the decode of
    one anchor [a] of one cell [(i, j)] of one of the tensors: its box
    is the corner form of the decoded centre and size (the anchor
    taken from entry [3 t + a] of the anchor table for the tensor at
    position [t]), its class the first index of the largest class
    value of that anchor, its score that value times the objectness
    of the anchor. *)
Theorem detection_provenance input_data nb nc ns :
  Forall (λ t, ∃ g k, scale_tensor g k t) input_data →
  yolov5_post_process cfg argsort input_data
  = Some (PySome nb, PySome nc, PySome ns) →
  ∀ p box cl score,
    nb !! p = Some box → nc !! p = Some cl → ns !! p = Some score →
    ∃ t input g k i j a aw ah cell m,
      input_data !! t = Some input ∧ scale_tensor g k input
      ∧ (i < g)%nat ∧ (j < g)%nat ∧ (a < 3)%nat
      ∧ anchors !! (3 * t + a)%nat = Some [aw; ah]
      ∧ chunk k (g * g * 3) (data input) !! ((i * g + j) * 3 + a)%nat
        = Some cell
      ∧ (let stride := inject_Z (Z.quot (net_size cfg) (Z.of_nat g)) in
         let x := (sigmoid (nth 0 cell 0) * 2 - 0.5 + inject_Z (Z.of_nat j))
                  * stride in
         let y := (sigmoid (nth 1 cell 0) * 2 - 0.5 + inject_Z (Z.of_nat i))
                  * stride in
         let w := (sigmoid (nth 2 cell 0) * 2) ^ 2 * aw in
         let h := (sigmoid (nth 3 cell 0) * 2) ^ 2 * ah in
         box = Row4 (x - w / 2) (y - h / 2) (x + w / 2) (y + h / 2))
      ∧ np_max (sigmoid <$> drop 5 cell) = Some m
      ∧ np_argmax (sigmoid <$> drop 5 cell) = Some cl
      ∧ score = m * sigmoid (nth 4 cell 0).
Proof.
  intros Hin Hy p box cl score Hb Hc Hs.
  unfold yolov5_post_process in Hy.
  apply bind_Some in Hy as ([[fb fc] fs] & Hd & Hsup).
  destruct (suppress_selection cfg argsort argsort_spec _ _ _ _ _ _ Hsup)
    as ((idx & _ & Hib & Hic & His) & _).
  destruct (np_take_lookup _ _ _ Hib) as [_ Hlb].
  destruct (np_take_lookup _ _ _ Hic) as [_ Hlc].
  destruct (np_take_lookup _ _ _ His) as [_ Hls].
  destruct (Hlb _ _ Hb) as (q & Hq & Hfb).
  destruct (Hlc _ _ Hc) as (q' & Hq' & Hfc).
  destruct (Hls _ _ Hs) as (q'' & Hq'' & Hfs).
  assert (q' = q) as -> by congruence. assert (q'' = q) as -> by congruence.
  destruct (decode_filter_inv cfg _ _ _ _ Hd) as (per_scale & Hps & -> & -> & ->).
  pose proof (decode_filter_scales_lengths cfg _ _ Hin Hps) as Hlens.
  unfold xywh2xyxy in Hfb. rewrite list_lookup_fmap in Hfb.
  destruct (mjoin (per_scale.*1.*1) !! q) as [xywh|] eqn:Hxywh; [|done].
  injection Hfb as <-.
  assert (Htriple : (xywh, cl, score)
            ∈ mjoin ((λ r, zip (zip r.1.1 r.1.2) r.2) <$> per_scale)).
  { rewrite <- (zip3_mjoin per_scale Hlens).
    apply (list_elem_of_lookup_2 _ q), lookup_zip_with_Some.
    eexists _, _. split; [done|]. split; [|done].
    apply lookup_zip_with_Some. by eexists _, _. }
  apply list_elem_of_join in Htriple as (grp & Htr & Hgrp).
  apply list_elem_of_fmap in Hgrp as ([[b c] s] & -> & Hr).
  apply list_elem_of_lookup_1 in Hr as [t Hr].
  destruct (mapM_lookup_Some _ _ _ _ _ Hps Hr) as ([input mask] & Him & Hf).
  apply lookup_zip_with_Some in Him as (input' & mask' & [= <- <-] & Hinput & Hmask).
  pose proof Hin as Hin'.
  eapply Forall_lookup in Hin' as (g & k & Hst); [|done].
  apply list_elem_of_lookup_1 in Htr as [p' Hp']. simpl in Hp'.
  apply lookup_zip_with_Some in Hp' as ([b1 c1] & s1 & [= <- <- <-] & Hp' & Hsp).
  apply lookup_zip_with_Some in Hp' as (b1 & c1 & [= <- <-] & Hbp & Hcp).
  destruct (decode_filter_scale_detections _ _ _ _ _ _ _ _ Hst Hmask Hf
              _ _ _ _ Hbp Hcp Hsp)
    as (i & j & a & aw & ah & cell & m & Hi & Hj & Ha & Hanc & Hcell
        & -> & Hmax & Harg & ->).
  exists t, input, g, k, i, j, a, aw, ah, cell, m.
  by split_and!.
Qed.
End Provenance.

(** ** Masks of one, two and more classes *)

Section Unet_pixels.

Lemma pixel_scores_two raw i j :
  pixel_scores raw 2 i j = [at3 raw 0 i j; at3 raw 1 i j].
Proof. done. Qed.

(** X19: with two channels the mask is white exactly where the second
    channel is strictly above the first; a tie is black. *)
Theorem get_mask_two_classes raw_mask h w :
  shape raw_mask = [2; h; w]%nat →
  ∃ pred_mask,
    get_mask raw_mask = Some pred_mask
    ∧ shape pred_mask = [h; w; 3]%nat
    ∧ ∀ i j, (i < h)%nat → (j < w)%nat →
        let pixel := take 3 (drop ((i * w + j) * 3) (data pred_mask)) in
        (at3 raw_mask 1 i j <= at3 raw_mask 0 i j → pixel = [0; 0; 0]%Z)
        ∧ (at3 raw_mask 0 i j < at3 raw_mask 1 i j
           → pixel = [255; 255; 255]%Z).
Proof.
  intros Hshape.
  destruct (get_mask_total raw_mask 2 h w Hshape ltac:(lia)) as [pm Hpm].
  exists pm. split; [done|].
  destruct (get_mask_spec raw_mask 2 h w pm Hshape Hpm) as [Hs Hpix].
  split; [done|]. intros i j Hi Hj pixel. subst pixel.
  destruct (Hpix i j Hi Hj) as (cls & Harg & Htab).
  rewrite pixel_scores_two in Harg. simpl in Harg.
  destruct (Qle_bool (at3 raw_mask 1 i j) (at3 raw_mask 0 i j)) eqn:Hle;
    simplify_eq/=.
  - apply Qle_bool_iff in Hle. split; [done|].
    intros Hlt. by apply Qlt_not_le in Hlt.
  - split; [|done]. intros Hle'%Qle_bool_iff. congruence.
Qed.

(** X20: with a single channel every pixel of the mask is black. *)
Theorem get_mask_one_class raw_mask h w :
  shape raw_mask = [1; h; w]%nat →
  ∃ pred_mask,
    get_mask raw_mask = Some pred_mask
    ∧ shape pred_mask = [h; w; 3]%nat
    ∧ ∀ i j, (i < h)%nat → (j < w)%nat →
        take 3 (drop ((i * w + j) * 3) (data pred_mask)) = [0; 0; 0]%Z.
Proof.
  intros Hshape.
  destruct (get_mask_total raw_mask 1 h w Hshape ltac:(lia)) as [pm Hpm].
  exists pm. split; [done|].
  destruct (get_mask_spec raw_mask 1 h w pm Hshape Hpm) as [Hs Hpix].
  split; [done|]. intros i j Hi Hj.
  destruct (Hpix i j Hi Hj) as (cls & Harg & Htab).
  unfold pixel_scores in Harg. simpl in Harg. by simplify_eq/=.
Qed.

(** X21: the colour table has two rows: as soon as one pixel has its
    maximum in a third or later channel, [get_mask] raises
    ([IndexError]). *)
Theorem get_mask_third_class_raises raw_mask c h w i j cls :
  shape raw_mask = [c; h; w] → (i < h)%nat → (j < w)%nat →
  np_argmax (pixel_scores raw_mask c i j) = Some cls → (2 ≤ cls)%nat →
  get_mask raw_mask = None.
Proof.
  intros Hshape Hi Hj Harg Hcls.
  destruct (get_mask raw_mask) as [pm|] eqn:Hpm; [|done]. exfalso.
  destruct (get_mask_spec raw_mask c h w pm Hshape Hpm) as [_ Hpix].
  destruct (Hpix i j Hi Hj) as (cls' & Harg' & Htab).
  assert (cls' = cls) as -> by congruence.
  by destruct cls as [|[|cls]]; [lia..|].
Qed.
End Unet_pixels.

(** ** Retrieval at the edges *)

Section Resnet_edges.
Variable get_crop_by_id : Z → Mat.

Lemma resnet_post_process_single (sh : list nat) (x : R)
    (rest : list (ndarray R)) :
  resnet_post_process get_crop_by_id (NdArray sh [x] :: rest)
  = Some [get_crop_by_id 1].
Proof.
  unfold resnet_post_process. simpl. do 3 f_equal.
  unfold py_sum. simpl.
  pose proof (exp_pos x) as Hx.
  replace (exp x / (0 + exp x))%R with 1%R by (field; lra).
  unfold py_int_R. destruct (Rle_dec 0 1) as [_|Hn]; [|lra].
  symmetry. apply Int_part_spec. simpl. lra.
Qed.

(** X22: whatever the logits, the images [resnet_post_process] returns
    are crops with id 0 or id 1 and no other, one for each logit, ten at
    most: what it truncates to an id is a probability, not a class
    index. *)
Theorem resnet_post_process_ids_zero_or_one (sh : list nat) (output : list R)
    (rest : list (ndarray R)) (images_list : list Mat) :
  resnet_post_process get_crop_by_id (NdArray sh output :: rest)
  = Some images_list →
  length images_list = (length output `min` 10)%nat
  ∧ Forall (λ img, img = get_crop_by_id 0 ∨ img = get_crop_by_id 1)
      images_list.
Proof.
  intros Hr. destruct output as [|x [|y output]].
  - injection Hr as <-. split; [done|constructor].
  - rewrite resnet_post_process_single in Hr. injection Hr as <-.
    split; [done|]. apply Forall_singleton. by right.
  - rewrite resnet_post_process_ids in Hr by (simpl; lia).
    assert (Hi : images_list
                 = replicate (length (x :: y :: output) `min` 10)
                     (get_crop_by_id 0)) by congruence.
    rewrite Hi. split; [apply length_replicate|].
    apply Forall_forall. intros img [-> _]%elem_of_replicate. by left.
Qed.

(** X23: without an output array [resnet_post_process] raises
    ([IndexError]); without a logit it returns no image. *)
Theorem resnet_post_process_edge_cases :
  resnet_post_process get_crop_by_id [] = None
  ∧ (∀ sh rest, resnet_post_process get_crop_by_id (NdArray sh [] :: rest)
                = Some []).
Proof. by split. Qed.
End Resnet_edges.

(** ** The entry points on too few or too many outputs *)

Section Entry_point_edges.
Context `{Cv2}.
Variable cfg : config.
Variable argsort : list Q → list nat.
Variable dets : Type.
Variable format_dets : list row4 → list nat → list Q → dets.
Variable get_crop_by_id : Z → Mat.
Variable hm_call : hm_state → option (Q * Q).

(** X24: handed no output at all, each entry point raises:
    [np.concatenate] of no array in [yolov5_post_process]
    ([ValueError]), [outputs[0]] in [post_unet] and [result[0]] in
    [resnet_post_process] ([IndexError]). *)
Theorem entry_points_raise_on_no_outputs fuel frame hm :
  post_yolov5 cfg argsort dets format_dets (S fuel) [] frame = Raises
  ∧ post_unet (S fuel) [] frame = Raises
  ∧ post_resnet get_crop_by_id hm_call (S fuel) [] hm frame = Raises.
Proof.
  unfold post_yolov5, post_unet, post_resnet.
  rewrite !while_true_returns. split_and!; reflexivity.
Qed.

(** X25: [yolov5_post_process] pairs the tensors with its three anchor
    masks: a fourth and any later tensor is never read. *)
Theorem yolov5_post_process_first_three t0 t1 t2 rest :
  yolov5_post_process cfg argsort (t0 :: t1 :: t2 :: rest)
  = yolov5_post_process cfg argsort [t0; t1; t2].
Proof.
  unfold yolov5_post_process, decode_filter.
  assert (Hzip : zip (t0 :: t1 :: t2 :: rest) masks = zip [t0; t1; t2] masks)
    by (by destruct rest).
  by rewrite Hzip.
Qed.
End Entry_point_edges.

(** ** The process layout of [RK3588] *)

Lemma NoDup_three {A} (a b c : A) : a ≠ b → a ≠ c → b ≠ c → NoDup [a; b; c].
Proof.
  intros Hab Hac Hbc. apply NoDup_cons. split.
  { intros [->|[->|[]%elem_of_nil]%elem_of_cons]%elem_of_cons; done. }
  apply NoDup_cons. split.
  { intros [->|[]%elem_of_nil]%elem_of_cons; done. }
  apply NoDup_singleton.
Qed.

Lemma py_range_lookup (n : Z) (i : nat) :
  (i < Z.to_nat n)%nat → py_range n !! i = Some i.
Proof. intros Hi. unfold py_range. by rewrite lookup_seq_lt. Qed.

Lemma rk_models (n : Z) :
  mapM (λ i, ResNet i <$> [NPU_CORE_0; NPU_CORE_1; NPU_CORE_2] !! (i mod 3)%nat)
       (py_range n)
  = Some ((λ i, ResNet i (nth (i mod 3) [NPU_CORE_0; NPU_CORE_1; NPU_CORE_2]
                            NPU_CORE_0)) <$> py_range n).
Proof.
  apply mapM_Some, Forall2_fmap_r, Forall_Forall2_diag, Forall_forall.
  intros i _. unfold compose. cbv beta.
  assert (Hi : (i mod 3 < 3)%nat) by (apply Nat.mod_upper_bound; lia).
  destruct (i mod 3)%nat as [|[|[|?]]] eqn:E; [done..|lia].
Qed.

Lemma rk_processes (f : inference_model → mp_process)
    (ms : list inference_model) (n : Z) :
  mapM (λ i, m ← ms !! i; Some (f m)) (py_range n) = None
  ↔ (length ms < Z.to_nat n)%nat.
Proof.
  rewrite eq_None_not_Some, mapM_is_Some, Forall_forall. split.
  - intros Hn. destruct (decide (length ms < Z.to_nat n)%nat); [done|].
    exfalso. apply Hn. intros i [_ Hi]%elem_of_seq. simpl.
    destruct (lookup_lt_is_Some_2 ms i ltac:(lia)) as [m ->]. by eexists.
  - intros Hlt Hall.
    destruct (Hall (length ms)) as [p Hp].
    { apply elem_of_seq. lia. }
    simpl in Hp. by rewrite lookup_ge_None_2 in Hp.
Qed.

(** X26: [RK3588()] raises ([IndexError], at [self.model[i]]) when the
    configuration asks for more post-processing processes than
    inference processes. *)
Theorem RK3588_init_raises_on_more_post (cfg : rk_config) :
  (Z.to_nat (inf_proc cfg) < Z.to_nat (post_proc cfg))%nat →
  RK3588_init cfg = None.
Proof.
  intros Hlt. unfold RK3588_init. cbv zeta.
  rewrite rk_models. cbn [mbind option_bind].
  set (ms := _ <$> py_range (inf_proc cfg)).
  assert (Hlen : length ms = Z.to_nat (inf_proc cfg)).
  { unfold ms, py_range. by rewrite length_fmap, length_seq. }
  destruct (mapM _ (py_range (Z.of_nat (length ms)))) as [pre|]; [|done].
  cbn [mbind option_bind].
  assert (Hn : mapM (λ i, m ← ms !! i;
                       Some (Process (model_post_process m)
                               [("q_in"%string, _q_outs);
                                ("q_out"%string, _q_post)] true))
                 (py_range (post_proc cfg)) = None).
  { apply (rk_processes (λ m, Process (model_post_process m) _ true)). lia. }
  by rewrite Hn.
Qed.

(** X27: the layout [RK3588()] builds: one inference process per model,
    [post_proc] post-processing processes, process [i] of either kind
    bound to model [i], model [i] pinned to core [i mod 3], so that
    three models in a row occupy the three cores. *)
Theorem RK3588_init_layout (cfg : rk_config) (r : RK3588) :
  RK3588_init cfg = Some r →
  length (model r) = Z.to_nat (inf_proc cfg)
  ∧ length (_pre_inf r) = length (model r)
  ∧ length (_post r) = Z.to_nat (post_proc cfg)
  ∧ length (RK3588_start r)
    = (Z.to_nat (inf_proc cfg) + Z.to_nat (post_proc cfg) + 2)%nat
  ∧ (∀ i m, model r !! i = Some m →
       proc m = i
       ∧ Some (core m) = [NPU_CORE_0; NPU_CORE_1; NPU_CORE_2] !! (i mod 3)%nat)
  ∧ (∀ i p, _pre_inf r !! i = Some p →
       ∃ m, model r !! i = Some m ∧ process_target p = model_inference m)
  ∧ (∀ i p, _post r !! i = Some p →
       ∃ m, model r !! i = Some m ∧ process_target p = model_post_process m)
  ∧ ∀ i m0 m1 m2,
      model r !! i = Some m0 → model r !! S i = Some m1 →
      model r !! S (S i) = Some m2 →
      NoDup [core m0; core m1; core m2].
Proof.
  unfold RK3588_init. cbv zeta. intros Hr.
  apply bind_Some in Hr as (ms & Hms & Hr).
  apply bind_Some in Hr as (pre & Hpre & Hr).
  apply bind_Some in Hr as (post & Hpost & Hr).
  injection Hr as <-. unfold RK3588_start. cbn [model _pre_inf _post _rec _map].
  pose proof (length_mapM _ _ _ Hms) as Hlms.
  pose proof (length_mapM _ _ _ Hpre) as Hlpre.
  pose proof (length_mapM _ _ _ Hpost) as Hlpost.
  unfold py_range in Hlms, Hlpre, Hlpost.
  rewrite length_seq in Hlms, Hlpre, Hlpost. rewrite Nat2Z.id in Hlpre.
  assert (Hmodel : ∀ i m, ms !! i = Some m →
            proc m = i
            ∧ Some (core m)
              = [NPU_CORE_0; NPU_CORE_1; NPU_CORE_2] !! (i mod 3)%nat).
  { intros i m Hm.
    destruct (mapM_lookup_Some _ _ _ _ _ Hms Hm) as (i' & Hi' & Hmi).
    apply lookup_seq in Hi' as [Hi' _]. rewrite Nat.add_0_l in Hi'. subst i'.
    cbv beta in Hmi. apply fmap_Some in Hmi as (c & Hc & ->). done. }
  split_and!; [done|done|done| |done|..].
  - rewrite !length_app. simpl. lia.
  - intros i p Hp.
    destruct (mapM_lookup_Some _ _ _ _ _ Hpre Hp) as (i' & Hi' & Hpi).
    apply lookup_seq in Hi' as [Hi' _]. rewrite Nat.add_0_l in Hi'. subst i'.
    cbv beta in Hpi. apply bind_Some in Hpi as (m & Hm & [= <-]). by exists m.
  - intros i p Hp.
    destruct (mapM_lookup_Some _ _ _ _ _ Hpost Hp) as (i' & Hi' & Hpi).
    apply lookup_seq in Hi' as [Hi' _]. rewrite Nat.add_0_l in Hi'. subst i'.
    cbv beta in Hpi. apply bind_Some in Hpi as (m & Hm & [= <-]). by exists m.
  - intros i m0 m1 m2 H0 H1 H2.
    destruct (Hmodel _ _ H0) as [_ Hc0], (Hmodel _ _ H1) as [_ Hc1],
      (Hmodel _ _ H2) as [_ Hc2].
    assert (Hmod : ((i mod 3 = 0 ∧ S i mod 3 = 1 ∧ S (S i) mod 3 = 2)
                    ∨ (i mod 3 = 1 ∧ S i mod 3 = 2 ∧ S (S i) mod 3 = 0)
                    ∨ (i mod 3 = 2 ∧ S i mod 3 = 0 ∧ S (S i) mod 3 = 1))%nat).
    { pose proof (Nat.div_mod_eq i 3). pose proof (Nat.div_mod_eq (S i) 3).
      pose proof (Nat.div_mod_eq (S (S i)) 3).
      pose proof (Nat.mod_upper_bound i 3). pose proof (Nat.mod_upper_bound (S i) 3).
      pose proof (Nat.mod_upper_bound (S (S i)) 3). lia. }
    destruct Hmod as [(E0 & E1 & E2)|[(E0 & E1 & E2)|(E0 & E1 & E2)]];
      rewrite E0 in Hc0; rewrite E1 in Hc1; rewrite E2 in Hc2;
      simplify_eq/=; rewrite Hc0, Hc1, Hc2; by apply NoDup_three.
Qed.

(** ** The further properties at concrete inputs *)

Lemma nms_boxes_survivors_disjoint_witness :
  nms_boxes cfg_ex argsort_merge boxes_abc scores_abc = Some [0; 2]%nat
  ∧ NoDup [0; 2]%nat.
Proof.
  assert (Hk : nms_boxes cfg_ex argsort_merge boxes_abc scores_abc
               = Some [0; 2]%nat) by (vm_compute; reflexivity).
  split; [exact Hk|].
  exact (proj1 (nms_boxes_survivors_disjoint cfg_ex argsort_merge
                  argsort_merge_spec _ _ _ Hk)).
Defined.

Lemma nms_boxes_keeps_best_witness :
  nms_boxes cfg_ex argsort_merge boxes_abc scores_abc = Some [0; 2]%nat
  ∧ scores_abc ≠ []
  ∧ StronglySorted (λ a b, nth b scores_abc 0 <= nth a scores_abc 0)
      [0; 2]%nat.
Proof.
  assert (Hk : nms_boxes cfg_ex argsort_merge boxes_abc scores_abc
               = Some [0; 2]%nat) by (vm_compute; reflexivity).
  assert (Hne : scores_abc ≠ []) by discriminate.
  split; [exact Hk|]. split; [exact Hne|].
  exact (proj2 (nms_boxes_keeps_best cfg_ex argsort_merge argsort_merge_spec
                  _ _ _ Hk Hne)).
Defined.

Lemma nms_boxes_dropped_overlaps_kept_witness :
  nms_boxes cfg_ex argsort_merge boxes_abc scores_abc = Some [0; 2]%nat
  ∧ (1 < length scores_abc)%nat
  ∧ (1%nat ∉ [0; 2]%nat)
  ∧ ∃ i bi bj,
      i ∈ [0; 2]%nat
      ∧ boxes_abc !! i = Some bi
      ∧ boxes_abc !! 1%nat = Some bj
      ∧ nth 1 scores_abc 0 <= nth i scores_abc 0
      ∧ np_le (box_ovr bi bj) (nms_thresh cfg_ex) = false.
Proof.
  assert (Hk : nms_boxes cfg_ex argsort_merge boxes_abc scores_abc
               = Some [0; 2]%nat) by (vm_compute; reflexivity).
  assert (Hj : (1 < length scores_abc)%nat) by (simpl; lia).
  assert (Hn : 1%nat ∉ [0; 2]%nat).
  { intros [Heq|[Heq|Heq%elem_of_nil]%elem_of_cons]%elem_of_cons;
      [discriminate Heq|discriminate Heq|exact Heq]. }
  split; [exact Hk|]. split; [exact Hj|]. split; [exact Hn|].
  exact (nms_boxes_dropped_overlaps_kept cfg_ex argsort_merge
           argsort_merge_spec _ _ _ 1%nat Hk Hj Hn).
Defined.

Lemma nms_boxes_keeps_separate_boxes_witness :
  length [box_a; box_c] = length [0.9; 0.8]
  ∧ ∃ keep,
      nms_boxes cfg_ex argsort_merge [box_a; box_c] [0.9; 0.8] = Some keep
      ∧ keep ≡ₚ seq 0 (length [box_a; box_c]).
Proof.
  assert (Hlen : length [box_a; box_c] = length [0.9; 0.8]) by reflexivity.
  assert (Hsep : ∀ i j bi bj, i ≠ j →
            [box_a; box_c] !! i = Some bi → [box_a; box_c] !! j = Some bj →
            np_le (box_ovr bi bj) (nms_thresh cfg_ex) = true).
  { intros [|[|i]] [|[|j]] bi bj Hij Hi Hj; simplify_eq/=;
      try done; by vm_compute. }
  split; [exact Hlen|].
  exact (nms_boxes_keeps_separate_boxes cfg_ex argsort_merge
           argsort_merge_spec _ _ Hlen Hsep).
Defined.

Lemma nms_boxes_raises_iff_witness :
  (nms_boxes cfg_ex argsort_merge [box_a] [0.9; 0.6] = None
   ↔ (length [box_a] < length [0.9; 0.6]%Q)%nat)
  ∧ nms_boxes cfg_ex argsort_merge [] [] = Some [].
Proof.
  exact (nms_boxes_raises_iff cfg_ex argsort_merge argsort_merge_spec
           [box_a] [0.9; 0.6]).
Defined.

Lemma yolov5_post_process_selects_witness :
  yolov5_post_process cfg_ex argsort_merge scales_pair
  = Some (PySome boxes_pair, PySome classes_pair, PySome scores_pair)
  ∧ ∃ fb fc fs idx,
      decode_filter cfg_ex scales_pair = Some (fb, fc, fs)
      ∧ NoDup idx
      ∧ np_take fb idx = Some boxes_pair
      ∧ np_take fc idx = Some classes_pair
      ∧ np_take fs idx = Some scores_pair.
Proof.
  assert (Hy : yolov5_post_process cfg_ex argsort_merge scales_pair
               = Some (PySome boxes_pair, PySome classes_pair,
                       PySome scores_pair)) by (vm_compute; reflexivity).
  split; [exact Hy|].
  exact (yolov5_post_process_selects cfg_ex argsort_merge argsort_merge_spec
           _ _ _ _ Hy).
Defined.

Lemma yolov5_post_process_keeps_every_class_witness :
  yolov5_post_process cfg_ex argsort_merge scales_pair
  = Some (PySome boxes_pair, PySome classes_pair, PySome scores_pair)
  ∧ ∃ fb fc fs,
      decode_filter cfg_ex scales_pair = Some (fb, fc, fs)
      ∧ ∀ c, c ∈ classes_pair ↔ c ∈ fc.
Proof.
  assert (Hy : yolov5_post_process cfg_ex argsort_merge scales_pair
               = Some (PySome boxes_pair, PySome classes_pair,
                       PySome scores_pair)) by (vm_compute; reflexivity).
  split; [exact Hy|].
  exact (yolov5_post_process_keeps_every_class cfg_ex argsort_merge
           argsort_merge_spec _ _ _ _ Hy).
Defined.

Lemma yolov5_post_process_same_class_disjoint_witness :
  yolov5_post_process cfg_ex argsort_merge scales_pair
  = Some (PySome boxes_pair, PySome classes_pair, PySome scores_pair)
  ∧ ∃ bp bq,
      boxes_pair !! 0%nat = Some bp ∧ boxes_pair !! 1%nat = Some bq
      ∧ np_le (box_ovr bp bq) (nms_thresh cfg_ex) = true.
Proof.
  assert (Hy : yolov5_post_process cfg_ex argsort_merge scales_pair
               = Some (PySome boxes_pair, PySome classes_pair,
                       PySome scores_pair)) by (vm_compute; reflexivity).
  split; [exact Hy|].
  eexists _, _. split; [reflexivity|]. split; [reflexivity|].
  exact (yolov5_post_process_same_class_disjoint cfg_ex argsort_merge
           argsort_merge_spec _ _ _ _ Hy 0%nat 1%nat 0%nat _ _
           ltac:(discriminate) eq_refl eq_refl eq_refl eq_refl).
Defined.

Lemma yolov5_post_process_keeps_class_best_witness :
  yolov5_post_process cfg_ex argsort_merge scales_pair
  = Some (PySome boxes_pair, PySome classes_pair, PySome scores_pair)
  ∧ ∃ fb fc fs,
      decode_filter cfg_ex scales_pair = Some (fb, fc, fs)
      ∧ ∀ c i s, fc !! i = Some c → fs !! i = Some s →
          ∃ p s', classes_pair !! p = Some c ∧ scores_pair !! p = Some s'
                  ∧ s <= s'.
Proof.
  assert (Hy : yolov5_post_process cfg_ex argsort_merge scales_pair
               = Some (PySome boxes_pair, PySome classes_pair,
                       PySome scores_pair)) by (vm_compute; reflexivity).
  split; [exact Hy|].
  exact (yolov5_post_process_keeps_class_best cfg_ex argsort_merge
           argsort_merge_spec _ _ _ _ Hy).
Defined.

Lemma detection_provenance_witness :
  Forall (λ t, ∃ g k, scale_tensor g k t) scales_pair
  ∧ yolov5_post_process cfg_ex argsort_merge scales_pair
    = Some (PySome boxes_pair, PySome classes_pair, PySome scores_pair)
  ∧ ∃ cell m,
      np_max (sigmoid <$> drop 5 cell) = Some m
      ∧ np_argmax (sigmoid <$> drop 5 cell) = Some 0%nat
      ∧ 8 = m * sigmoid (nth 4 cell 0).
Proof.
  assert (Hin : Forall (λ t, ∃ g k, scale_tensor g k t) scales_pair).
  { repeat constructor; exists 1%nat, 6%nat;
      (split; [reflexivity|]; split; [lia|]; split; [lia|reflexivity]). }
  assert (Hy : yolov5_post_process cfg_ex argsort_merge scales_pair
               = Some (PySome boxes_pair, PySome classes_pair,
                       PySome scores_pair)) by (vm_compute; reflexivity).
  split; [exact Hin|]. split; [exact Hy|].
  destruct (detection_provenance cfg_ex argsort_merge argsort_merge_spec
              _ _ _ _ Hin Hy 0%nat _ 0%nat 8 eq_refl eq_refl eq_refl)
    as (_ & _ & _ & _ & _ & _ & _ & _ & _ & cell & m
        & _ & _ & _ & _ & _ & _ & _ & _ & Hmax & Harg & Hs).
  exists cell, m. split; [exact Hmax|]. split; [exact Harg|exact Hs].
Defined.

Lemma filter_boxes_keeps_passing_witness :
  filter_boxes cfg_ex (NdArray [1; 4]%nat [0; 0; 1; 1])
    (NdArray [1]%nat [0.3]) (NdArray [1; 1]%nat [0.3])
  = Some ([Row4 0 0 1 1], [0%nat], [0.09])
  ∧ ∃ p cl,
      [0.09] !! p = Some (0.3 * 0.3)
      ∧ [0%nat] !! p = Some cl
      ∧ np_argmax (take 1 (drop (0 * 1) [0.3])) = Some cl
      ∧ [Row4 0 0 1 1] !! p
        = Some (row4_of_list (take 4 (drop (0 * 4) [0; 0; 1; 1]))).
Proof.
  assert (Hf : filter_boxes cfg_ex (NdArray [1; 4]%nat [0; 0; 1; 1])
                 (NdArray [1]%nat [0.3]) (NdArray [1; 1]%nat [0.3])
               = Some ([Row4 0 0 1 1], [0%nat], [0.09]))
    by (vm_compute; reflexivity).
  assert (Hle : obj_thresh cfg_ex <= 0.3) by (apply Qle_bool_iff; reflexivity).
  split; [exact Hf|].
  exact (filter_boxes_keeps_passing cfg_ex _ _ _ _ _ _ 1%nat 0%nat 0.3 0.3
           Hf eq_refl eq_refl eq_refl Hle Hle).
Defined.

Lemma filter_boxes_class_of_score_witness :
  filter_boxes cfg_ex (NdArray [1; 4]%nat [0; 0; 1; 1])
    (NdArray [1]%nat [0.3]) (NdArray [1; 2]%nat [0.3; 0.4])
  = Some ([Row4 0 0 1 1], [1%nat], [0.12])
  ∧ ∃ k, last [1; 2]%nat = Some k.
Proof.
  assert (Hf : filter_boxes cfg_ex (NdArray [1; 4]%nat [0; 0; 1; 1])
                 (NdArray [1]%nat [0.3]) (NdArray [1; 2]%nat [0.3; 0.4])
               = Some ([Row4 0 0 1 1], [1%nat], [0.12]))
    by (vm_compute; reflexivity).
  split; [exact Hf|].
  destruct (filter_boxes_class_of_score cfg_ex _ _ _ _ _ _ Hf) as (k & Hk & _).
  exists k. exact Hk.
Defined.

Lemma filter_boxes_classes_in_range_witness :
  filter_boxes cfg_ex (NdArray [1; 4]%nat [0; 0; 1; 1])
    (NdArray [1]%nat [0.3]) (NdArray [1; 2]%nat [0.3; 0.4])
  = Some ([Row4 0 0 1 1], [1%nat], [0.12])
  ∧ Forall (λ cl, cl < 2)%nat [1%nat].
Proof.
  assert (Hf : filter_boxes cfg_ex (NdArray [1; 4]%nat [0; 0; 1; 1])
                 (NdArray [1]%nat [0.3]) (NdArray [1; 2]%nat [0.3; 0.4])
               = Some ([Row4 0 0 1 1], [1%nat], [0.12]))
    by (vm_compute; reflexivity).
  split; [exact Hf|].
  exact (filter_boxes_classes_in_range cfg_ex _ _ _ _ _ _ 2%nat Hf eq_refl).
Defined.

Lemma process_requires_square_grid_witness :
  shape cell_hot = [1; 1; 3; 6]%nat
  ∧ is_Some (process cfg_ex cell_hot [0; 1; 2]%nat anchors)
  ∧ (1 = 1 ∧ 0 < 1 ∧ 3 = 3 ∧ 5 ≤ 6)%nat.
Proof.
  assert (Hs : shape cell_hot = [1; 1; 3; 6]%nat) by reflexivity.
  assert (Hp : ∃ r, process cfg_ex cell_hot [0; 1; 2]%nat anchors = Some r)
    by (eexists; vm_compute; reflexivity).
  destruct Hp as [r Hp].
  split; [exact Hs|]. split; [exists r; exact Hp|].
  exact (process_requires_square_grid cfg_ex _ _ _ _ _ _ _ _ Hs Hp).
Defined.

Lemma yolov5_inputs_layout_witness :
  Forall (λ out, ∃ k h w,
            shape out = [1; 3 * k; h; w]%nat ∧ ndarray_wf out
            ∧ (0 < h)%nat ∧ (0 < w)%nat) [output_zero]
  ∧ ∃ input_data, yolov5_inputs [output_zero] = Some input_data.
Proof.
  assert (Hout : Forall (λ out, ∃ k h w,
            shape out = [1; 3 * k; h; w]%nat ∧ ndarray_wf out
            ∧ (0 < h)%nat ∧ (0 < w)%nat) [output_zero]).
  { repeat constructor. exists 6%nat, 1%nat, 1%nat.
    split; [reflexivity|]. split; [reflexivity|]. split; lia. }
  split; [exact Hout|].
  destruct (yolov5_inputs_layout [output_zero] Hout) as (input_data & Hin & _).
  exists input_data. exact Hin.
Defined.

Lemma draw_raises_without_scale_or_name_witness :
  ((net_size cfg_ex = 0%Z ∧ [box_a] ≠ [] ∧ [0.9] ≠ [] ∧ [2%nat] ≠ [])
   ∨ (∃ p cl, (p < length [box_a])%nat ∧ (p < length [0.9]%Q)%nat
              ∧ [2%nat] !! p = Some cl
              ∧ (length (classes cfg_ex) ≤ cl)%nat))
  ∧ @draw cv2_trace cfg_ex frame_ex [box_a] [0.9] [2%nat] = None.
Proof.
  assert (Hor : (net_size cfg_ex = 0%Z ∧ [box_a] ≠ [] ∧ [0.9] ≠ []
                 ∧ [2%nat] ≠ [])
                ∨ (∃ p cl, (p < length [box_a])%nat ∧ (p < length [0.9]%Q)%nat
                           ∧ [2%nat] !! p = Some cl
                           ∧ (length (classes cfg_ex) ≤ cl)%nat)).
  { right. exists 0%nat, 2%nat. simpl. split; [lia|]. split; [lia|].
    split; [reflexivity|lia]. }
  split; [exact Hor|].
  exact (@draw_raises_without_scale_or_name cv2_trace cfg_ex frame_ex
           [box_a] [0.9] [2%nat] Hor).
Defined.

Lemma yolov5_classes_have_names_witness :
  [output_hot; output_zero; output_zero] ≠ []
  ∧ yolov5_inputs [output_hot; output_zero; output_zero]
    = Some [cell_hot; cell_zero; cell_zero]
  ∧ yolov5_post_process cfg_ex argsort_merge [cell_hot; cell_zero; cell_zero]
    = Some (PySome [Row4 (-6800 # 20) (-6920 # 20) (-6000 # 20) (-5880 # 20)],
            PySome [0%nat], PySome [6])
  ∧ ∃ input_data,
      yolov5_inputs [output_hot; output_zero; output_zero] = Some input_data
      ∧ (yolov5_post_process cfg_ex argsort_merge input_data
         = Some (PyNone, PyNone, PyNone)
         ∨ ∃ boxes cls scores,
             yolov5_post_process cfg_ex argsort_merge input_data
             = Some (PySome boxes, PySome cls, PySome scores)
             ∧ length boxes = length cls ∧ length cls = length scores
             ∧ (0 < length scores)%nat
             ∧ Forall (λ cl, is_Some (classes cfg_ex !! cl)) cls).
Proof.
  assert (Hne : [output_hot; output_zero; output_zero] ≠ []) by discriminate.
  assert (Hout : Forall (λ out, ∃ k g,
            shape out = [1; 3 * k; g; g]%nat ∧ ndarray_wf out
            ∧ (0 < g)%nat ∧ (6 ≤ k)%nat
            ∧ (k - 5 ≤ length (classes cfg_ex))%nat)
            [output_hot; output_zero; output_zero]).
  { repeat constructor; exists 6%nat, 1%nat;
      (split; [reflexivity|]; split; [reflexivity|]; split; [lia|];
       split; [lia|simpl; lia]). }
  split; [exact Hne|]. split; [vm_compute; reflexivity|].
  split; [vm_compute; reflexivity|].
  exact (yolov5_classes_have_names cfg_ex argsort_merge argsort_merge_spec
           _ Hne Hout).
Defined.

Lemma get_mask_two_classes_witness :
  shape unet_raw = [2; 1; 2]%nat
  ∧ ∃ pred_mask, get_mask unet_raw = Some pred_mask
                 ∧ shape pred_mask = [1; 2; 3]%nat.
Proof.
  assert (Hs : shape unet_raw = [2; 1; 2]%nat) by reflexivity.
  split; [exact Hs|].
  destruct (get_mask_two_classes unet_raw 1 2 Hs) as (pm & Hpm & Hshape & _).
  exists pm. split; [exact Hpm|exact Hshape].
Defined.

Lemma get_mask_one_class_witness :
  shape unet_one = [1; 1; 2]%nat
  ∧ ∃ pred_mask, get_mask unet_one = Some pred_mask
                 ∧ shape pred_mask = [1; 2; 3]%nat.
Proof.
  assert (Hs : shape unet_one = [1; 1; 2]%nat) by reflexivity.
  split; [exact Hs|].
  destruct (get_mask_one_class unet_one 1 2 Hs) as (pm & Hpm & Hshape & _).
  exists pm. split; [exact Hpm|exact Hshape].
Defined.

Lemma get_mask_third_class_raises_witness :
  shape unet_three = [3; 1; 1]%nat
  ∧ np_argmax (pixel_scores unet_three 3 0 0) = Some 2%nat
  ∧ get_mask unet_three = None.
Proof.
  assert (Hs : shape unet_three = [3; 1; 1]%nat) by reflexivity.
  assert (Harg : np_argmax (pixel_scores unet_three 3 0 0) = Some 2%nat)
    by reflexivity.
  split; [exact Hs|]. split; [exact Harg|].
  exact (get_mask_third_class_raises unet_three 3 1 1 0 0 2 Hs
           ltac:(lia) ltac:(lia) Harg ltac:(lia)).
Defined.

Lemma resnet_post_process_ids_zero_or_one_witness :
  resnet_post_process crop_of_id [NdArray [1; 3]%nat [0; 1; 2]%R]
  = Some [crop_of_id 0; crop_of_id 0; crop_of_id 0]
  ∧ length [crop_of_id 0; crop_of_id 0; crop_of_id 0]
    = (length [0; 1; 2]%R `min` 10)%nat
  ∧ Forall (λ img, img = crop_of_id 0 ∨ img = crop_of_id 1)
      [crop_of_id 0; crop_of_id 0; crop_of_id 0].
Proof.
  assert (Hr : resnet_post_process crop_of_id [NdArray [1; 3]%nat [0; 1; 2]%R]
               = Some [crop_of_id 0; crop_of_id 0; crop_of_id 0]).
  { rewrite resnet_post_process_ids by (simpl; lia). reflexivity. }
  split; [exact Hr|].
  exact (resnet_post_process_ids_zero_or_one crop_of_id [1; 3]%nat
           [0; 1; 2]%R [] _ Hr).
Defined.

Lemma RK3588_init_raises_on_more_post_witness :
  (Z.to_nat (inf_proc rk_cfg_more_post)
   < Z.to_nat (post_proc rk_cfg_more_post))%nat
  ∧ RK3588_init rk_cfg_more_post = None.
Proof.
  assert (Hlt : (Z.to_nat (inf_proc rk_cfg_more_post)
                 < Z.to_nat (post_proc rk_cfg_more_post))%nat)
    by (simpl; lia).
  split; [exact Hlt|].
  exact (RK3588_init_raises_on_more_post rk_cfg_more_post Hlt).
Defined.

Lemma RK3588_init_layout_witness :
  ∃ r, RK3588_init rk_cfg_ex = Some r
       ∧ length (model r) = 3%nat
       ∧ length (_post r) = 3%nat
       ∧ length (RK3588_start r) = 8%nat.
Proof.
  assert (Hr : ∃ r, RK3588_init rk_cfg_ex = Some r)
    by (eexists; vm_compute; reflexivity).
  destruct Hr as [r Hr]. exists r. split; [exact Hr|].
  destruct (RK3588_init_layout rk_cfg_ex r Hr) as (H1 & _ & H3 & H4 & _).
  split; [exact H1|]. split; [exact H3|exact H4].
Defined.
